(** * Verification of the assertion toolkit [test] (src/assertions.go)

    The Go package is embedded shallowly:
    - a Go value that travels through an [interface{}] is a [value];
    - the reporting handle [t T] is the list of calls it has received;
    - a Go function that talks to the handle is a computation in [M],
      which threads that list and may end in a panic;
    - the libraries the package imports (fmt, strings, reflect, errors,
      encoding/json, go-cmp) are not part of the repository: they are
      the fields of one record, [External], over which every definition
      and theorem of the package is parametric. *)

From Stdlib Require Import ZArith List String Ascii Bool Lia SpecFloat
  DecimalString.
Import ListNotations.

Set Warnings "-register-all".

Local Open Scope Z_scope.

(** ** Strings *)

(** The line feed, written ["\n"] in the Go source. *)
Definition nl : string := String (ascii_of_nat 10) EmptyString.

(** The double quote, for the JSON literals of the examples. *)
Definition dq : string := String (ascii_of_nat 34) EmptyString.

Notation "s +++ t" := (String.append s t)
  (at level 60, right associativity) : string_scope.

(** ** Go values *)

(** IEEE 754 binary64, as the Standard Library specifies it. *)
Definition float64 : Type := spec_float.

Definition f64_prec : Z := 53.
Definition f64_emax : Z := 1024.

(** The predeclared integer types: signedness and width in bits. *)
Record int_kind : Type := IntKind { signed : bool; bits : Z }.

(** A non-nil [error]: its message and the error it wraps, if any. *)
Inductive error_value : Type :=
| ErrorValue (msg : string) (cause : option error_value).

(** The interface type [error]: nil or an error value. *)
Definition error : Type := option error_value.

(** What an [interface{}] can hold.  [VNil] is the nil interface itself;
    a nil pointer, func, slice or map is a typed value, distinct from
    [VNil].  A struct field is exported when its name starts with an
    upper-case letter. *)
Inductive value : Type :=
| VNil
| VBool (b : bool)
| VInt (k : int_kind) (n : Z)
| VFloat (f : float64)
| VString (s : string)
| VError (e : error_value)
| VFunc (code : option nat)
| VNilPtr
| VPtr (target : value)
| VNilSlice
| VSlice (elems : list value)
| VNilMap
| VMap (entries : list (string * value))
| VStruct (type_name : string) (fields : list (string * value)).

Definition any : Type := value.

(** [a == nil] for [a any]: only the nil interface compares equal. *)
Definition is_nil (a : any) : bool :=
  match a with VNil => true | _ => false end.

(** ** Outcomes: normal return or panic *)

(** The value a panic carries.  [recover()] yields it while the function
    panics and nil otherwise. *)
Definition panic_value : Type := string.

Inductive outcome (A : Type) : Type :=
| Returned (a : A)
| Panicked (p : panic_value).

Arguments Returned {A} a.
Arguments Panicked {A} p.

Definition nil_dereference : panic_value :=
  "runtime error: invalid memory address or nil pointer dereference"%string.

Definition index_out_of_range : panic_value :=
  "runtime error: index out of range"%string.

Definition obind {A B} (m : outcome A) (k : A -> outcome B) : outcome B :=
  match m with
  | Returned a => k a
  | Panicked p => Panicked p
  end.

(** A function with a named result and one deferred closure.  The body
    either assigns the result and returns, or panics before the
    assignment, leaving the result at its zero value.  The deferred
    closure runs in both cases; it receives what [recover()] yields and
    the current named result, and decides the result that is returned. *)
Definition with_deferred {R} (zero : R) (body : outcome R)
    (deferred : option panic_value -> R -> outcome R) : outcome R :=
  match body with
  | Returned r => deferred None r
  | Panicked p => deferred (Some p) zero
  end.

(** ** The reporting handle *)

(** One call on the handle [t T]. *)
Inductive event : Type :=
| Helper
| Logf (format : string) (args : list any)
| Fail.

(** The handle is the list of calls it has received, oldest first. *)
Definition T : Type := list event.

(** A computation that uses the handle: it appends calls and returns or
    panics.  Calls made before a panic stay on the handle. *)
Definition M (A : Type) : Type := T -> outcome A * T.

Definition ret {A} (a : A) : M A := fun t => (Returned a, t).

Definition bind {A B} (m : M A) (k : A -> M B) : M B :=
  fun t =>
    match m t with
    | (Returned a, t') => k a t'
    | (Panicked p, t') => (Panicked p, t')
    end.

Definition lift {A} (o : outcome A) : M A := fun t => (o, t).

Definition emit (e : event) : M unit := fun t => (Returned tt, t ++ [e]).

Declare Scope go_scope.
Delimit Scope go_scope with go.

Notation "x <- m ;; k" := (bind m (fun x => k))
  (at level 100, m at next level, right associativity) : go_scope.
Notation "m ;; k" := (bind m (fun _ => k))
  (at level 100, right associativity) : go_scope.

Local Open Scope go_scope.

Definition t_Helper : M unit := emit Helper.
Definition t_Logf (format : string) (args : list any) : M unit :=
  emit (Logf format args).
Definition t_Fail : M unit := emit Fail.

(** The test is marked failed once [Fail] has been called. *)
Definition is_Fail (e : event) : bool :=
  match e with Fail => true | _ => false end.
Definition is_Logf (e : event) : bool :=
  match e with Logf _ _ => true | _ => false end.
Definition failed (t : T) : bool := existsb is_Fail t.
Definition logged (t : T) : bool := existsb is_Logf t.

(** ** Imported libraries *)

(** The functions the package imports.  [cmp.Equal] and [cmp.Diff] may
    panic; [json.Unmarshal] returns the decoded tree or an error;
    [json.Marshal]'s error result is discarded by its only caller. *)
Record External : Type := {
  fmt_Sprintf : string -> list any -> string;
  strings_TrimSpace : string -> string;
  cmp_Equal : any -> any -> outcome bool;
  cmp_Diff : any -> any -> outcome string;
  reflect_DeepEqual : any -> any -> bool;
  errors_Is : error -> error -> bool;
  json_Unmarshal : string -> any + error_value;
  json_Marshal : any -> string
}.

(** [math.IsNaN] and [math.IsInf]. *)
Definition math_IsNaN (f : float64) : bool :=
  match f with S754_nan => true | _ => false end.

Definition math_IsInf (f : float64) (sign : Z) : bool :=
  match f with
  | S754_infinity neg => ((0 <=? sign) && negb neg) || ((sign <=? 0) && neg)
  | _ => false
  end.

(** ** Type constraints *)

(** [any]: a value of the type converts to [interface{}]. *)
Class Any (A : Type) : Type := box : A -> any.

(** [comparable]: the operator [==].  An interface type satisfies the
    constraint, and comparing two interface values (or structs and
    arrays that hold them) of the same dynamic type panics at run time
    when that type is not comparable: [a == b] returns or panics. *)
Class Comparable (C : Type) : Type := go_eq : C -> C -> outcome bool.

(** The key type of a map.  A key is hashed when it enters a map, which
    panics for a dynamic type that is not comparable; the keys that maps
    hold are therefore compared without panic, and [key_eq] is [==] on
    them. *)
Class MapKey (K : Type) : Type := key_eq : K -> K -> bool.

(** [constraints.Ordered]: the operators [<], [<=], [>], [>=]. *)
Class Ordered (O : Type) : Type := {
  go_lt : O -> O -> bool;
  go_le : O -> O -> bool;
  go_gt : O -> O -> bool;
  go_ge : O -> O -> bool
}.

(** [Number]: an ordered type with a zero value, subtraction, negation
    and the conversion [float64(n)]. *)
Class Number (N : Type) : Type := {
  number_ordered :: Ordered N;
  go_zero : N;
  go_sub : N -> N -> N;
  go_neg : N -> N;
  to_float64 : N -> float64
}.

(** [EqualsFunc[A]] and [LessFunc[A]]: the methods [Equals] and [Less],
    which are caller code and may panic. *)
Class EqualsFunc (E : Type) : Type := method_Equals : E -> E -> outcome bool.
Class LessFunc (L : Type) : Type := method_Less : L -> L -> outcome bool.

(** ** Built-in types used by the package *)

(** The type [int] (64 bits). *)
Definition go_int : int_kind := IntKind true 64.

(** [len(x)] as a boxed [int]. *)
Definition box_len {A} (l : list A) : any := VInt go_int (Z.of_nat (List.length l)).

#[export] Instance Any_any : Any any := fun a => a.
#[export] Instance Any_bool : Any bool := VBool.
#[export] Instance Any_string : Any string := VString.
#[export] Instance Any_float64 : Any float64 := VFloat.
#[export] Instance Any_error : Any error :=
  fun e => match e with None => VNil | Some v => VError v end.

(** A slice [[]A] is the list of its elements; a nil slice and an empty
    one are both the empty list, boxed as a non-nil slice. *)
#[export] Instance Any_slice {A} `{Any A} : Any (list A) :=
  fun l => VSlice (map box l).

(** A map [map[K]V] is the list of its entries in the order [range]
    visits them; its keys are pairwise different under [==].  Maps with
    string keys convert to [interface{}]. *)
#[export] Instance Any_map {V} `{Any V} : Any (list (string * V)) :=
  fun m => VMap (map (fun kv => (fst kv, box (snd kv))) m).

(** [a[i]]: indexing past the end panics. *)
Definition index {A} (a : list A) (i : nat) : outcome A :=
  match nth_error a i with
  | Some x => Returned x
  | None => Panicked index_out_of_range
  end.

(** [v, exists := m[key]]. *)
Fixpoint map_lookup {K V} `{MapKey K} (m : list (K * V)) (key : K)
  : option V :=
  match m with
  | [] => None
  | (k, v) :: rest => if key_eq k key then Some v else map_lookup rest key
  end.

(** [err.Error()]: calling a method on the nil interface panics. *)
Definition Error_method (err : error) : outcome string :=
  match err with
  | None => Panicked nil_dereference
  | Some (ErrorValue msg _) => Returned msg
  end.

(** ** The package [test] *)

Module test.

Section Package.

Variable ext : External.

(** [fail]: format, trim, append a line feed, log, mark failed. *)
Definition fail (msg : string) (args : list any) : M unit :=
  let s := fmt_Sprintf ext msg args in
  t_Logf (strings_TrimSpace ext s +++ nl) [] ;;
  t_Fail.

(** [diff]: the banner followed by [cmp.Diff]; when that panics, the
    deferred closure recovers and prints both values with [%#v]. *)
Definition diff {A B} `{Any A} `{Any B} (a : A) (b : B) : outcome string :=
  with_deferred ""%string
    (obind (cmp_Diff ext (box a) (box b))
           (fun d => Returned ("difference!" +++ nl +++ d)%string))
    (fun r s =>
       match r with
       | Some _ =>
           Returned (fmt_Sprintf ext
                       ("difference!" +++ nl +++ "a: %#v" +++ nl
                        +++ "b: %#v" +++ nl)%string
                       [box a; box b])
       | None => Returned s
       end).

(** [equal]: [cmp.Equal]; when that panics, the deferred closure
    recovers and assigns [reflect.DeepEqual] to the result. *)
Definition equal {A B} `{Any A} `{Any B} (a : A) (b : B) : outcome bool :=
  with_deferred false
    (cmp_Equal ext (box a) (box b))
    (fun r result =>
       match r with
       | Some _ => Returned (reflect_DeepEqual ext (box a) (box b))
       | None => Returned result
       end).

(** [t.Logf(diff(a, b))] *)
Definition log_diff {A B} `{Any A} `{Any B} (a : A) (b : B) : M unit :=
  d <- lift (diff a b) ;; t_Logf d [].

Definition Nil (a : any) : M unit :=
  t_Helper ;;
  if negb (is_nil a) then fail ";; expected to be nil; is not nil" []
  else ret tt.

Definition NotNil (a : any) : M unit :=
  t_Helper ;;
  if is_nil a then fail ";; expected to not be nil; is nil" []
  else ret tt.

Definition True_ (condition : bool) : M unit :=
  t_Helper ;;
  if negb condition then fail ";; expected condition to be true; is false" []
  else ret tt.

Definition False_ (condition : bool) : M unit :=
  t_Helper ;;
  if condition then fail ";; expected condition to be false; is true" []
  else ret tt.

Definition Error (err : error) : M unit :=
  t_Helper ;;
  match err with
  | None => fail ";; expected non-nil error; is nil" []
  | Some _ => ret tt
  end.

Definition EqError (err : error) (msg : string) : M unit :=
  t_Helper ;;
  s <- lift (Error_method err) ;;
  if negb (String.eqb s msg) then
    (t_Logf "msg: %q" [box msg] ;;
     t_Logf "err: %q" [box s] ;;
     fail ";; expected matching error strings" [])
  else ret tt.

Definition ErrorIs (err target : error) : M unit :=
  t_Helper ;;
  if negb (errors_Is ext err target) then
    (t_Logf "error: %v" [box err] ;;
     t_Logf "target: %v" [box target] ;;
     fail ";; expected errors.Is match" [])
  else ret tt.

Definition NoError (err : error) : M unit :=
  t_Helper ;;
  match err with
  | Some _ =>
      t_Logf "error: %v" [box err] ;;
      fail ";; expected nil error" []
  | None => ret tt
  end.

Definition Eq {A} `{Any A} (a b : A) : M unit :=
  t_Helper ;;
  e <- lift (equal a b) ;;
  if negb e then
    (log_diff a b ;;
     fail ";; expected equality via cmp.Equal function" [])
  else ret tt.

Definition EqCmp {C} `{Any C} `{Comparable C} (a b : C) : M unit :=
  t_Helper ;;
  e <- lift (go_eq a b) ;;
  if negb e then
    (log_diff a b ;;
     fail ";; expected equality via ==" [])
  else ret tt.

Definition EqFunc {A} `{Any A} (a b : A) (eq : A -> A -> outcome bool)
  : M unit :=
  t_Helper ;;
  e <- lift (eq a b) ;;
  if negb e then
    (log_diff a b ;;
     fail ";; expected equality via 'eq' function" [])
  else ret tt.

Definition NotEq {C} `{Comparable C} (a b : C) : M unit :=
  t_Helper ;;
  e <- lift (go_eq a b) ;;
  if (e : bool) then fail ";; expected inequality via !=" []
  else ret tt.

Definition NotEqFunc {A} (a b : A) (eq : A -> A -> outcome bool) : M unit :=
  t_Helper ;;
  e <- lift (eq a b) ;;
  if e then fail ";; expected inequality via 'eq' function" []
  else ret tt.

Definition EqJSON (a b : string) : M unit :=
  t_Helper ;;
  match json_Unmarshal ext a with
  | inr err =>
      fail "failed to unmarshal first argument as json: %v" [VError err]
  | inl expA =>
      match json_Unmarshal ext b with
      | inr err =>
          fail "failed to unmarshal second argument as json: %v" [VError err]
      | inl expB =>
          if negb (reflect_DeepEqual ext expA expB) then
            (let jsonA := json_Marshal ext expA in
             let jsonB := json_Marshal ext expB in
             log_diff jsonA jsonB ;;
             fail ";; expected equality via json marshalling" [])
          else ret tt
      end
  end.

(** The loop of [EqSliceFunc]: [n] iterations are left, starting at
    index [i]; the result is the final value of [miss]. *)
Fixpoint EqSliceFunc_loop {A} (a b : list A) (eq : A -> A -> outcome bool)
    (n i : nat) : outcome bool :=
  match n with
  | O => Returned false
  | S n' =>
      obind (index a i) (fun x =>
      obind (index b i) (fun y =>
      obind (eq x y) (fun e =>
      if negb e then Returned true
      else EqSliceFunc_loop a b eq n' (S i))))
  end.

Definition EqSliceFunc {A} `{Any A} (a b : list A)
    (eq : A -> A -> outcome bool) : M unit :=
  t_Helper ;;
  let lenA := List.length a in
  let lenB := List.length b in
  if negb (Nat.eqb lenA lenB) then
    (t_Logf ("len(slice a): %d" +++ nl) [box_len a] ;;
     t_Logf ("len(slice b): %d" +++ nl) [box_len b] ;;
     log_diff a b ;;
     fail ";; expected slices of same length" [])
  else
    (miss <- lift (EqSliceFunc_loop a b eq lenA 0) ;;
     if (miss : bool) then
       (log_diff a b ;;
        fail ";; expected slice equality via 'eq' function" [])
     else ret tt).

Definition Equals {E} `{Any E} `{EqualsFunc E} (a b : E) : M unit :=
  t_Helper ;;
  e <- lift (method_Equals a b) ;;
  if negb e then
    (log_diff a b ;;
     fail ";; expected equality via .Equals method" [])
  else ret tt.

Definition NotEquals {E} `{Any E} `{EqualsFunc E} (a b : E) : M unit :=
  t_Helper ;;
  e <- lift (method_Equals a b) ;;
  if (e : bool) then
    (log_diff a b ;;
     fail ";; expected inequality via .Equals method" [])
  else ret tt.

Fixpoint EqualsSlice_loop {E} `{Any E} `{EqualsFunc E} (a b : list E)
    (n i : nat) : M unit :=
  match n with
  | O => ret tt
  | S n' =>
      x <- lift (index a i) ;;
      y <- lift (index b i) ;;
      e <- lift (method_Equals x y) ;;
      if negb e then
        (log_diff x y ;;
         fail ";; expected slice equality via .Equals method" [])
      else EqualsSlice_loop a b n' (S i)
  end.

Definition EqualsSlice {E} `{Any E} `{EqualsFunc E} (a b : list E) : M unit :=
  t_Helper ;;
  let lenA := List.length a in
  let lenB := List.length b in
  if negb (Nat.eqb lenA lenB) then
    (t_Logf ("len(slice a): %d" +++ nl) [box_len a] ;;
     t_Logf ("len(slice b): %d" +++ nl) [box_len b] ;;
     log_diff a b ;;
     fail ";; expected slices of same length" [])
  else EqualsSlice_loop a b lenA 0.

Definition Lesser {L} `{Any L} `{LessFunc L} (a b : L) : M unit :=
  t_Helper ;;
  e <- lift (method_Less a b) ;;
  if negb e then
    (log_diff a b ;;
     fail ";; expected to be less via .Less method" [])
  else ret tt.

Definition EmptySlice {A} (slice : list A) : M unit :=
  t_Helper ;;
  if negb (Nat.eqb (List.length slice) 0) then
    (t_Logf ("len(slice): %d" +++ nl) [box_len slice] ;;
     fail ";; expected slice to be empty" [])
  else ret tt.

Definition LenSlice {A} (n : Z) (slice : list A) : M unit :=
  t_Helper ;;
  let l := Z.of_nat (List.length slice) in
  if negb (l =? n) then
    (t_Logf ("len(slice): %d, expected: %d" +++ nl)
       [VInt go_int l; VInt go_int n] ;;
     fail ";; expected slice to be different length" [])
  else ret tt.

Fixpoint contains_loop {C} `{Comparable C} (slice : list C) (item : C)
    (n i : nat) : outcome bool :=
  match n with
  | O => Returned false
  | S n' =>
      obind (index slice i) (fun x =>
      obind (go_eq x item) (fun e =>
      if (e : bool) then Returned true
      else contains_loop slice item n' (S i)))
  end.

Definition contains {C} `{Comparable C} (slice : list C) (item : C)
  : outcome bool :=
  contains_loop slice item (List.length slice) 0.

Fixpoint containsFunc_loop {A} (slice : list A) (item : A)
    (eq : A -> A -> outcome bool) (n i : nat) : outcome bool :=
  match n with
  | O => Returned false
  | S n' =>
      obind (index slice i) (fun x =>
      obind (eq x item) (fun e =>
      if (e : bool) then Returned true
      else containsFunc_loop slice item eq n' (S i)))
  end.

Definition containsFunc {A} (slice : list A) (item : A)
    (eq : A -> A -> outcome bool) : outcome bool :=
  containsFunc_loop slice item eq (List.length slice) 0.

Definition Contains {A} `{Any A} (slice : list A) (item : A) : M unit :=
  t_Helper ;;
  found <- lift (containsFunc slice item (fun a b => equal a b)) ;;
  if negb found then
    (t_Logf ("slice is missing %#v" +++ nl) [box item] ;;
     fail ";; expected slice to contain missing item via cmp.Equal function" [])
  else ret tt.

Definition ContainsCmp {C} `{Any C} `{Comparable C} (slice : list C) (item : C)
  : M unit :=
  t_Helper ;;
  found <- lift (contains slice item) ;;
  if negb found then
    (t_Logf ("slice is missing %#v" +++ nl) [box item] ;;
     fail ";; expected slice to contain missing item via == operator" [])
  else ret tt.

Definition ContainsFunc {A} `{Any A} (slice : list A) (item : A)
    (eq : A -> A -> outcome bool) : M unit :=
  t_Helper ;;
  found <- lift (containsFunc slice item eq) ;;
  if negb found then
    (t_Logf ("slice is missing %#v" +++ nl) [box item] ;;
     fail ";; expected slice to contain missing item via 'eq' function" [])
  else ret tt.

Definition ContainsEquals {E} `{Any E} `{EqualsFunc E} (slice : list E)
    (item : E) : M unit :=
  t_Helper ;;
  found <- lift (containsFunc slice item method_Equals) ;;
  if negb found then
    (t_Logf ("slice is missing %#v" +++ nl) [box item] ;;
     fail ";; expected slice to contain missing item via .Equals method" [])
  else ret tt.

Definition Less {O} `{Any O} `{Ordered O} (a b : O) : M unit :=
  t_Helper ;;
  if negb (go_lt a b) then fail ";; expected %v < %v" [box a; box b]
  else ret tt.

Definition LessEq {O} `{Any O} `{Ordered O} (a b : O) : M unit :=
  t_Helper ;;
  if negb (go_le a b) then fail ";; expected %v <= %v" [box a; box b]
  else ret tt.

Definition Greater {O} `{Any O} `{Ordered O} (a b : O) : M unit :=
  t_Helper ;;
  if negb (go_gt a b) then fail ";; expected %v > %v" [box a; box b]
  else ret tt.

Definition GreaterEq {O} `{Any O} `{Ordered O} (a b : O) : M unit :=
  t_Helper ;;
  if negb (go_ge a b) then fail ";; expected %v >= %v" [box a; box b]
  else ret tt.

(** [Numeric]: false when [float64(n)] is NaN or an infinity. *)
Definition Numeric {N} `{Number N} (n : N) : bool :=
  let check (f : float64) : bool :=
    if math_IsNaN f then false
    else if math_IsInf f 0 then false
    else true in
  check (to_float64 n).

Definition InDelta {N} `{Any N} `{Number N} (a b delta : N) : M unit :=
  t_Helper ;;
  let zero : N := go_zero in
  if negb (Numeric delta) then
    fail ";; delta must be numeric; got %v" [box delta]
  else if go_le delta zero then
    fail ";; delta must be positive; got %v" [box delta]
  else if negb (Numeric a) then
    fail ";; first argument must be numeric; got %v" [box a]
  else if negb (Numeric b) then
    fail ";; second argument must be numeric; got %v" [box b]
  else
    let difference := go_sub a b in
    if go_lt difference (go_neg delta) || go_gt difference delta then
      fail ";; %v and %v not within %v" [box a; box b; box delta]
    else ret tt.

Fixpoint InDeltaSlice_loop {N} `{Any N} `{Number N} (a b : list N) (delta : N)
    (n i : nat) : M unit :=
  match n with
  | O => ret tt
  | S n' =>
      x <- lift (index a i) ;;
      y <- lift (index b i) ;;
      InDelta x y delta ;;
      InDeltaSlice_loop a b delta n' (S i)
  end.

Definition InDeltaSlice {N} `{Any N} `{Number N} (a b : list N) (delta : N)
  : M unit :=
  t_Helper ;;
  if negb (Nat.eqb (List.length a) (List.length b)) then
    (t_Logf ("len(slice a): %d" +++ nl) [box_len a] ;;
     t_Logf ("len(slice b): %d" +++ nl) [box_len b] ;;
     fail ";; expected slices of same length" [])
  else InDeltaSlice_loop a b delta (List.length a) 0.

(** The [range] loop of [MapEq] over the entries of [a] still to visit. *)
Fixpoint MapEq_range {K V} `{Any (list (K * V))} `{Any V} `{MapKey K}
    (a b rest : list (K * V)) : M unit :=
  match rest with
  | [] => ret tt
  | (key, valueA) :: rest' =>
      match map_lookup b key with
      | None =>
          log_diff a b ;;
          fail ";; expected maps of same keys" []
      | Some valueB =>
          e <- lift (cmp_Equal ext (box valueA) (box valueB)) ;;
          if negb e then
            (log_diff a b ;;
             fail ";; expected maps of same values via cmp.Diff function" [])
          else MapEq_range a b rest'
      end
  end.

Definition MapEq {K V} `{Any (list (K * V))} `{Any V} `{MapKey K}
    (a b : list (K * V)) : M unit :=
  t_Helper ;;
  let lenA := List.length a in
  let lenB := List.length b in
  if negb (Nat.eqb lenA lenB) then
    (t_Logf ("len(map a): %d" +++ nl) [box_len a] ;;
     t_Logf ("len(map b): %d" +++ nl) [box_len b] ;;
     fail ";; expected maps of same length" [])
  else MapEq_range a b a.

Fixpoint MapEqFunc_range {K V} `{Any (list (K * V))} `{MapKey K}
    (a b rest : list (K * V)) (eq : V -> V -> outcome bool) : M unit :=
  match rest with
  | [] => ret tt
  | (key, valueA) :: rest' =>
      match map_lookup b key with
      | None =>
          log_diff a b ;;
          fail ";; expected maps of same keys" []
      | Some valueB =>
          e <- lift (eq valueA valueB) ;;
          if negb e then
            (log_diff a b ;;
             fail ";; expected maps of same values via 'eq' function" [])
          else MapEqFunc_range a b rest' eq
      end
  end.

Definition MapEqFunc {K V} `{Any (list (K * V))} `{MapKey K}
    (a b : list (K * V)) (eq : V -> V -> outcome bool) : M unit :=
  t_Helper ;;
  let lenA := List.length a in
  let lenB := List.length b in
  if negb (Nat.eqb lenA lenB) then
    (t_Logf ("len(map a): %d" +++ nl) [box_len a] ;;
     t_Logf ("len(map b): %d" +++ nl) [box_len b] ;;
     fail ";; expected maps of same length" [])
  else MapEqFunc_range a b a eq.

Fixpoint MapEquals_range {K V} `{Any (list (K * V))} `{MapKey K}
    `{EqualsFunc V} (a b rest : list (K * V)) : M unit :=
  match rest with
  | [] => ret tt
  | (key, valueA) :: rest' =>
      match map_lookup b key with
      | None =>
          log_diff a b ;;
          fail ";; expected maps of same keys" []
      | Some valueB =>
          e <- lift (method_Equals valueB valueA) ;;
          if negb e then
            (log_diff a b ;;
             fail ";; expected maps of same values via .Equals method" [])
          else MapEquals_range a b rest'
      end
  end.

Definition MapEquals {K V} `{Any (list (K * V))} `{MapKey K}
    `{EqualsFunc V} (a b : list (K * V)) : M unit :=
  t_Helper ;;
  let lenA := List.length a in
  let lenB := List.length b in
  if negb (Nat.eqb lenA lenB) then
    (t_Logf ("len(map a): %d" +++ nl) [box_len a] ;;
     t_Logf ("len(map b): %d" +++ nl) [box_len b] ;;
     fail ";; expected maps of same length" [])
  else MapEquals_range a b a.

Definition MapLen {K V} (n : Z) (m : list (K * V)) : M unit :=
  t_Helper ;;
  let l := Z.of_nat (List.length m) in
  if negb (l =? n) then
    (t_Logf ("len(map): %d, expected: %d" +++ nl)
       [VInt go_int l; VInt go_int n] ;;
     fail ";; expected map to be different length" [])
  else ret tt.

Definition MapEmpty {K V} (m : list (K * V)) : M unit :=
  t_Helper ;;
  let l := Z.of_nat (List.length m) in
  if 0 <? l then
    (t_Logf ("len(map): %d" +++ nl) [VInt go_int l] ;;
     fail ";; expected map to be empty" [])
  else ret tt.

End Package.

(** One call of a function of the public surface, with its type
    arguments and the capabilities their constraints require. *)
Inductive call : Type :=
| CallNil (a : any)
| CallNotNil (a : any)
| CallTrue (condition : bool)
| CallFalse (condition : bool)
| CallError (err : error)
| CallEqError (err : error) (msg : string)
| CallErrorIs (err target : error)
| CallNoError (err : error)
| CallEq {A} `{Any A} (a b : A)
| CallEqCmp {C} `{Any C} `{Comparable C} (a b : C)
| CallEqFunc {A} `{Any A} (a b : A) (eq : A -> A -> outcome bool)
| CallNotEq {C} `{Comparable C} (a b : C)
| CallNotEqFunc {A} (a b : A) (eq : A -> A -> outcome bool)
| CallEqJSON (a b : string)
| CallEqSliceFunc {A} `{Any A} (a b : list A) (eq : A -> A -> outcome bool)
| CallEquals {E} `{Any E} `{EqualsFunc E} (a b : E)
| CallNotEquals {E} `{Any E} `{EqualsFunc E} (a b : E)
| CallEqualsSlice {E} `{Any E} `{EqualsFunc E} (a b : list E)
| CallLesser {L} `{Any L} `{LessFunc L} (a b : L)
| CallEmptySlice {A} (slice : list A)
| CallLenSlice {A} (n : Z) (slice : list A)
| CallContains {A} `{Any A} (slice : list A) (item : A)
| CallContainsCmp {C} `{Any C} `{Comparable C} (slice : list C) (item : C)
| CallContainsFunc {A} `{Any A} (slice : list A) (item : A)
    (eq : A -> A -> outcome bool)
| CallContainsEquals {E} `{Any E} `{EqualsFunc E} (slice : list E) (item : E)
| CallLess {O} `{Any O} `{Ordered O} (a b : O)
| CallLessEq {O} `{Any O} `{Ordered O} (a b : O)
| CallGreater {O} `{Any O} `{Ordered O} (a b : O)
| CallGreaterEq {O} `{Any O} `{Ordered O} (a b : O)
| CallInDelta {N} `{Any N} `{Number N} (a b delta : N)
| CallInDeltaSlice {N} `{Any N} `{Number N} (a b : list N) (delta : N)
| CallMapEq {K V} `{Any (list (K * V))} `{Any V} `{MapKey K}
    (a b : list (K * V))
| CallMapEqFunc {K V} `{Any (list (K * V))} `{MapKey K}
    (a b : list (K * V)) (eq : V -> V -> outcome bool)
| CallMapEquals {K V} `{Any (list (K * V))} `{MapKey K} `{EqualsFunc V}
    (a b : list (K * V))
| CallMapLen {K V} (n : Z) (m : list (K * V))
| CallMapEmpty {K V} (m : list (K * V)).

Definition run (ext : External) (c : call) : M unit :=
  match c with
  | CallNil a => Nil ext a
  | CallNotNil a => NotNil ext a
  | CallTrue c => True_ ext c
  | CallFalse c => False_ ext c
  | CallError e => Error ext e
  | CallEqError e m => EqError ext e m
  | CallErrorIs e g => ErrorIs ext e g
  | CallNoError e => NoError ext e
  | CallEq a b => Eq ext a b
  | CallEqCmp a b => EqCmp ext a b
  | CallEqFunc a b eq => EqFunc ext a b eq
  | CallNotEq a b => NotEq ext a b
  | CallNotEqFunc a b eq => NotEqFunc ext a b eq
  | CallEqJSON a b => EqJSON ext a b
  | CallEqSliceFunc a b eq => EqSliceFunc ext a b eq
  | CallEquals a b => Equals ext a b
  | CallNotEquals a b => NotEquals ext a b
  | CallEqualsSlice a b => EqualsSlice ext a b
  | CallLesser a b => Lesser ext a b
  | CallEmptySlice s => EmptySlice ext s
  | CallLenSlice n s => LenSlice ext n s
  | CallContains s i => Contains ext s i
  | CallContainsCmp s i => ContainsCmp ext s i
  | CallContainsFunc s i eq => ContainsFunc ext s i eq
  | CallContainsEquals s i => ContainsEquals ext s i
  | CallLess a b => Less ext a b
  | CallLessEq a b => LessEq ext a b
  | CallGreater a b => Greater ext a b
  | CallGreaterEq a b => GreaterEq ext a b
  | CallInDelta a b d => InDelta ext a b d
  | CallInDeltaSlice a b d => InDeltaSlice ext a b d
  | CallMapEq a b => MapEq ext a b
  | CallMapEqFunc a b eq => MapEqFunc ext a b eq
  | CallMapEquals a b => MapEquals ext a b
  | CallMapLen n m => MapLen ext n m
  | CallMapEmpty m => MapEmpty ext m
  end.

End test.

(** ** Numeric types *)

(** Two's-complement wrap-around of an integer type. *)
Definition wrap (k : int_kind) (z : Z) : Z :=
  if signed k then (z + 2 ^ (bits k - 1)) mod 2 ^ bits k - 2 ^ (bits k - 1)
  else z mod 2 ^ bits k.

(** The values of an integer type. *)
Definition in_range (k : int_kind) (z : Z) : Prop :=
  if signed k then - 2 ^ (bits k - 1) <= z < 2 ^ (bits k - 1)
  else 0 <= z < 2 ^ bits k.

#[export] Instance Ordered_Z : Ordered Z := {
  go_lt := Z.ltb;
  go_le := Z.leb;
  go_gt := Z.gtb;
  go_ge := Z.geb
}.

(** An integer type as a [Number]: arithmetic wraps around, and
    [float64(n)] rounds to the nearest binary64 value. *)
Definition Number_int (k : int_kind) : Number Z := {|
  number_ordered := Ordered_Z;
  go_zero := 0;
  go_sub := fun a b => wrap k (a - b);
  go_neg := fun a => wrap k (- a);
  to_float64 := fun n => binary_normalize f64_prec f64_emax n 0 false
|}.

Definition Any_int (k : int_kind) : Any Z := VInt k.

Definition go_int8 : int_kind := IntKind true 8.
Definition go_uint8 : int_kind := IntKind false 8.

(** The comparison operators of [float64]: every comparison with a NaN
    is false. *)
#[export] Instance Ordered_float64 : Ordered float64 := {
  go_lt := SFltb;
  go_le := SFleb;
  go_gt := fun a b => SFltb b a;
  go_ge := fun a b => SFleb b a
}.

#[export] Instance Number_float64 : Number float64 := {|
  number_ordered := Ordered_float64;
  go_zero := S754_zero false;
  go_sub := SFsub f64_prec f64_emax;
  go_neg := SFopp;
  to_float64 := fun f => f
|}.

(** On floats, strings and integers [==] always returns. *)
#[export] Instance Comparable_float64 : Comparable float64 :=
  fun a b => Returned (SFeqb a b).
#[export] Instance Comparable_string : Comparable string :=
  fun a b => Returned (String.eqb a b).
#[export] Instance Comparable_Z : Comparable Z :=
  fun a b => Returned (Z.eqb a b).

#[export] Instance MapKey_float64 : MapKey float64 := SFeqb.
#[export] Instance MapKey_string : MapKey string := String.eqb.
#[export] Instance MapKey_Z : MapKey Z := Z.eqb.

(** The value of a finite float as a pair [(n, e)] standing for
    [n * 2^e]; [None] for NaN and the infinities. *)
Definition float_value (f : float64) : option (Z * Z) :=
  match f with
  | S754_zero _ => Some (0, 0)
  | S754_finite s m e => Some (cond_Zopp s (Zpos m), e)
  | _ => None
  end.

Definition is_finite (f : float64) : bool :=
  match f with
  | S754_zero _ | S754_finite _ _ _ => true
  | _ => false
  end.

(** Exact comparison [x <= y] of two dyadic numbers. *)
Definition dyadic_le (x y : Z * Z) : Prop :=
  let e := Z.min (snd x) (snd y) in
  fst x * 2 ^ (snd x - e) <= fst y * 2 ^ (snd y - e).

(** Exact difference of two dyadic numbers. *)
Definition dyadic_sub (x y : Z * Z) : Z * Z :=
  let e := Z.min (snd x) (snd y) in
  (fst x * 2 ^ (snd x - e) - fst y * 2 ^ (snd y - e), e).

Definition dyadic_opp (x : Z * Z) : Z * Z := (- fst x, snd x).

(** The floats [2^53] and [-1]. *)
Definition two53 : float64 := S754_finite false 4503599627370496 1.
Definition minus_one : float64 := S754_finite true 4503599627370496 (-52).

(** ** Shapes of values *)

(** A struct field is exported when its name starts with an upper-case
    letter. *)
Definition exported (name : string) : bool :=
  match name with
  | String c _ => (65 <=? nat_of_ascii c)%nat && (nat_of_ascii c <=? 90)%nat
  | EmptyString => false
  end.

(** [has_nan x]: [x] is a NaN or contains one. *)
Fixpoint has_nan (x : value) : bool :=
  match x with
  | VFloat f => math_IsNaN f
  | VPtr v => has_nan v
  | VSlice l => existsb has_nan l
  | VMap es => existsb (fun kv => has_nan (snd kv)) es
  | VStruct _ fs => existsb (fun kv => has_nan (snd kv)) fs
  | _ => false
  end.

(** [has_func x]: [x] is a non-nil function value or contains one. *)
Fixpoint has_func (x : value) : bool :=
  match x with
  | VFunc (Some _) => true
  | VPtr v => has_func v
  | VSlice l => existsb has_func l
  | VMap es => existsb (fun kv => has_func (snd kv)) es
  | VStruct _ fs => existsb (fun kv => has_func (snd kv)) fs
  | _ => false
  end.

Definition mem_string (k : string) (ks : list string) : bool :=
  existsb (String.eqb k) ks.

Fixpoint distinct (ks : list string) : bool :=
  match ks with
  | [] => true
  | k :: rest => negb (mem_string k rest) && distinct rest
  end.

(** [well_formed x]: every map inside [x] has pairwise different keys. *)
Fixpoint well_formed (x : value) : bool :=
  match x with
  | VPtr v => well_formed v
  | VSlice l => forallb well_formed l
  | VMap es =>
      distinct (map fst es) && forallb (fun kv => well_formed (snd kv)) es
  | VStruct _ fs => forallb (fun kv => well_formed (snd kv)) fs
  | _ => true
  end.

(** [transparent x]: nothing inside [x] is hidden from a comparison
    that reads exported fields only: no struct has an unexported field,
    and there is no error value (the errors of the standard library keep
    their text in an unexported field). *)
Fixpoint transparent (x : value) : bool :=
  match x with
  | VError _ => false
  | VPtr v => transparent v
  | VSlice l => forallb transparent l
  | VMap es => forallb (fun kv => transparent (snd kv)) es
  | VStruct _ fs =>
      forallb (fun kv => exported (fst kv) && transparent (snd kv)) fs
  | _ => true
  end.

(** ** Reference collaborators

    Executable stand-ins for the imported libraries, written from their
    documentation.  The theorems below are stated for every [External];
    the stand-ins serve to run the package on concrete inputs. *)

Module Reference.

Definition int_kind_eqb (k k' : int_kind) : bool :=
  Bool.eqb (signed k) (signed k') && (bits k =? bits k').

Definition is_none {A} (o : option A) : bool :=
  match o with None => true | Some _ => false end.

Fixpoint lookup (k : string) (es : list (string * value)) : option value :=
  match es with
  | [] => None
  | (k', v) :: rest => if String.eqb k' k then Some v else lookup k rest
  end.

Definition unexported_field : panic_value :=
  "cannot handle unexported field"%string.

(** The elements of two slices, pair by pair. *)
Definition elements_equal (eq : value -> value -> outcome bool)
  : list value -> list value -> outcome bool :=
  fix elements (xs ys : list value) {struct xs} : outcome bool :=
    match xs, ys with
    | [], [] => Returned true
    | a :: xs', b :: ys' =>
        obind (eq a b) (fun r =>
        obind (elements xs' ys') (fun r' => Returned (r && r')))
    | _, _ => Returned false
    end.

(** The entries of a map against the map [ys]: a key missing from [ys]
    is a difference. *)
Definition entries_equal (eq : value -> value -> outcome bool)
    (ys : list (string * value)) : list (string * value) -> outcome bool :=
  fix entries (rest : list (string * value)) : outcome bool :=
    match rest with
    | [] => Returned true
    | (k, v) :: rest' =>
        obind (match lookup k ys with
               | Some w => eq v w
               | None => Returned false
               end) (fun r =>
        obind (entries rest') (fun r' => Returned (r && r')))
    end.

(** The fields of two structs of one type, in order; an unexported
    field panics. *)
Definition fields_equal (eq : value -> value -> outcome bool)
  : list (string * value) -> list (string * value) -> outcome bool :=
  fix fields (fs fs' : list (string * value)) {struct fs} : outcome bool :=
    match fs, fs' with
    | [], [] => Returned true
    | (name, a) :: r1, (name', b) :: r2 =>
        if negb (String.eqb name name') then Returned false
        else if negb (exported name) then Panicked unexported_field
        else
          obind (eq a b) (fun r =>
          obind (fields r1 r2) (fun r' => Returned (r && r')))
    | _, _ => Returned false
    end.

(** [cmp.Equal] without options: values of different types are
    unequal; basic kinds compare with [==]; functions are equal only
    when both are nil; pointers compare their targets; slices and maps
    are equal when both are nil or both are non-nil with equal elements;
    structs compare field by field, and an unexported field panics. *)
Fixpoint Equal (x y : value) {struct x} : outcome bool :=
  match x, y with
  | VNil, VNil => Returned true
  | VBool a, VBool b => Returned (Bool.eqb a b)
  | VInt k n, VInt k' m => Returned (int_kind_eqb k k' && (n =? m))
  | VFloat f, VFloat g => Returned (SFeqb f g)
  | VString s, VString u => Returned (String.eqb s u)
  | VError _, VError _ => Panicked unexported_field
  | VFunc f, VFunc g => Returned (is_none f && is_none g)
  | VNilPtr, VNilPtr => Returned true
  | VPtr a, VPtr b => Equal a b
  | VNilSlice, VNilSlice => Returned true
  | VSlice xs, VSlice ys => elements_equal Equal xs ys
  | VNilMap, VNilMap => Returned true
  | VMap xs, VMap ys =>
      obind (entries_equal Equal ys xs) (fun r =>
        Returned (r && Nat.eqb (List.length xs) (List.length ys)))
  | VStruct n fs, VStruct n' fs' =>
      if negb (String.eqb n n') then Returned false
      else fields_equal Equal fs fs'
  | _, _ => Returned false
  end.

Fixpoint error_eqb (e e' : error_value) : bool :=
  match e, e' with
  | ErrorValue m c, ErrorValue m' c' =>
      String.eqb m m' &&
      match c, c' with
      | None, None => true
      | Some a, Some b => error_eqb a b
      | _, _ => false
      end
  end.

Definition elements_deep (eq : value -> value -> bool)
  : list value -> list value -> bool :=
  fix elements (xs ys : list value) {struct xs} : bool :=
    match xs, ys with
    | [], [] => true
    | a :: xs', b :: ys' => eq a b && elements xs' ys'
    | _, _ => false
    end.

Definition entries_deep (eq : value -> value -> bool)
    (ys : list (string * value)) : list (string * value) -> bool :=
  fix entries (rest : list (string * value)) : bool :=
    match rest with
    | [] => true
    | (k, v) :: rest' =>
        match lookup k ys with
        | Some w => eq v w
        | None => false
        end && entries rest'
    end.

Definition fields_deep (eq : value -> value -> bool)
  : list (string * value) -> list (string * value) -> bool :=
  fix fields (fs fs' : list (string * value)) {struct fs} : bool :=
    match fs, fs' with
    | [], [] => true
    | (name, a) :: r1, (name', b) :: r2 =>
        String.eqb name name' && eq a b && fields r1 r2
    | _, _ => false
    end.

(** [reflect.DeepEqual]: like [cmp.Equal] it compares by kind, but it
    reads unexported fields too and never panics.  Values carry no
    addresses here, so its shortcut for identical pointers, slices and
    maps is not modelled. *)
Fixpoint DeepEqual (x y : value) {struct x} : bool :=
  match x, y with
  | VNil, VNil => true
  | VBool a, VBool b => Bool.eqb a b
  | VInt k n, VInt k' m => int_kind_eqb k k' && (n =? m)
  | VFloat f, VFloat g => SFeqb f g
  | VString s, VString u => String.eqb s u
  | VError e, VError e' => error_eqb e e'
  | VFunc f, VFunc g => is_none f && is_none g
  | VNilPtr, VNilPtr => true
  | VPtr a, VPtr b => DeepEqual a b
  | VNilSlice, VNilSlice => true
  | VSlice xs, VSlice ys => elements_deep DeepEqual xs ys
  | VNilMap, VNilMap => true
  | VMap xs, VMap ys =>
      Nat.eqb (List.length xs) (List.length ys) &&
      entries_deep DeepEqual ys xs
  | VStruct n fs, VStruct n' fs' =>
      String.eqb n n' && fields_deep DeepEqual fs fs'
  | _, _ => false
  end.

Definition string_of_Z (n : Z) : string := NilZero.string_of_int (Z.to_int n).

Definition show_float (f : float64) : string :=
  match f with
  | S754_nan => "NaN"
  | S754_infinity false => "+Inf"
  | S754_infinity true => "-Inf"
  | S754_zero false => "0"
  | S754_zero true => "-0"
  | S754_finite s m e =>
      (if s then "-" else "") +++ string_of_Z (Zpos m) +++ "p" +++ string_of_Z e
  end%string.

Fixpoint join (sep : string) (l : list string) : string :=
  match l with
  | [] => ""
  | [s] => s
  | s :: rest => s +++ sep +++ join sep rest
  end%string.

(** A rendering of a value, for reports and formatted messages. *)
Fixpoint show (x : value) : string :=
  match x with
  | VNil => "<nil>"
  | VBool b => if b then "true" else "false"
  | VInt _ n => string_of_Z n
  | VFloat f => show_float f
  | VString s => s
  | VError (ErrorValue m _) => m
  | VFunc None => "<nil>"
  | VFunc (Some _) => "func"
  | VNilPtr => "<nil>"
  | VPtr v => "&" +++ show v
  | VNilSlice => "[]"
  | VSlice l => "[" +++ join " " (map show l) +++ "]"
  | VNilMap => "map[]"
  | VMap es =>
      "map[" +++ join " " (map (fun kv => fst kv +++ ":" +++ show (snd kv)) es)
      +++ "]"
  | VStruct _ fs => "{" +++ join " " (map (fun kv => show (snd kv)) fs) +++ "}"
  end%string.

(** [cmp.Diff]: empty exactly when [cmp.Equal] holds, a report
    otherwise, and the same panics.  The library leaves the text of the
    report unspecified; the stand-in prints both values. *)
Definition Diff (x y : value) : outcome string :=
  obind (Equal x y) (fun e =>
    if (e : bool) then Returned ""%string
    else Returned ("- " +++ show x +++ nl +++ "+ " +++ show y +++ nl)%string).

(** [fmt.Sprintf] for the verbs the package uses ([%v], [%d], [%s],
    [%q], [%#v]): each takes the next argument. *)
Definition next_arg (quote : bool) (args : list any) : string * list any :=
  match args with
  | [] => ("%!v(MISSING)"%string, [])
  | a :: rest => ((if quote then dq +++ show a +++ dq else show a)%string, rest)
  end.

Fixpoint Sprintf (format : string) (args : list any) : string :=
  match format with
  | EmptyString => EmptyString
  | String "%" (String "#" (String "v" rest)) =>
      let (s, args') := next_arg false args in (s +++ Sprintf rest args')%string
  | String "%" (String "q" rest) =>
      let (s, args') := next_arg true args in (s +++ Sprintf rest args')%string
  | String "%" (String "v" rest)
  | String "%" (String "d" rest)
  | String "%" (String "s" rest) =>
      let (s, args') := next_arg false args in (s +++ Sprintf rest args')%string
  | String "%" (String "%" rest) => String "%" (Sprintf rest args)
  | String c rest => String c (Sprintf rest args)
  end.

(** [strings.TrimSpace] for ASCII white space. *)
Definition is_space (c : ascii) : bool :=
  let n := nat_of_ascii c in
  (Nat.eqb n 32 || ((9 <=? n) && (n <=? 13)))%nat.

Fixpoint trim_left (s : string) : string :=
  match s with
  | String c rest => if is_space c then trim_left rest else s
  | EmptyString => EmptyString
  end.

Fixpoint trim_right (s : string) : string :=
  match s with
  | EmptyString => EmptyString
  | String c rest =>
      match trim_right rest with
      | EmptyString => if is_space c then EmptyString else String c EmptyString
      | rest' => String c rest'
      end
  end.

Definition TrimSpace (s : string) : string := trim_right (trim_left s).

(** [errors.Is]: the target is the error or one it wraps. *)
Fixpoint chain_has (e target : error_value) : bool :=
  error_eqb e target ||
  match e with
  | ErrorValue _ (Some c) => chain_has c target
  | ErrorValue _ None => false
  end.

Definition Is (err target : error) : bool :=
  match err, target with
  | None, None => true
  | Some e, Some g => chain_has e g
  | _, _ => false
  end.

(** [json.Unmarshal] into an [interface{}]: objects decode to
    [map[string]interface{}], arrays to [[]interface{}], numbers to
    [float64], and [null] to nil.  The stand-in reads strings without
    escape sequences, and numbers whose digits and power of ten are
    exact in binary64 (so that one rounding gives the nearest float). *)
Definition char_is (n : nat) (c : ascii) : bool := Nat.eqb (nat_of_ascii c) n.

Definition is_ws (c : ascii) : bool :=
  char_is 32 c || char_is 9 c || char_is 10 c || char_is 13 c.

Fixpoint skip_ws (s : string) : string :=
  match s with
  | String c rest => if is_ws c then skip_ws rest else s
  | EmptyString => EmptyString
  end.

Definition digit (c : ascii) : option Z :=
  let n := nat_of_ascii c in
  if ((48 <=? n) && (n <=? 57))%nat then Some (Z.of_nat (n - 48)) else None.

(** Reads a run of digits after the digits already read ([acc]);
    returns the number, how many digits were read, and the rest. *)
Fixpoint digits (s : string) (acc count : Z) : Z * Z * string :=
  match s with
  | String c rest =>
      match digit c with
      | Some d => digits rest (10 * acc + d) (count + 1)
      | None => (acc, count, s)
      end
  | EmptyString => (acc, count, s)
  end.

Definition f64_of_Z (n : Z) : float64 :=
  binary_normalize f64_prec f64_emax n 0 false.

(** The float nearest to [m * 10^e10], for [0 <= m]. *)
Definition decimal_to_float (neg : bool) (m e10 : Z) : option float64 :=
  if m =? 0 then Some (S754_zero neg)
  else if (m <? 2 ^ 53) && (Z.abs e10 <=? 22) then
    let fm := f64_of_Z m in
    let p := f64_of_Z (10 ^ Z.abs e10) in
    let r := if 0 <=? e10 then SFmul f64_prec f64_emax fm p
             else SFdiv f64_prec f64_emax fm p in
    Some (if neg then SFopp r else r)
  else None.

Definition parse_number (s : string) : option (value * string) :=
  let (neg, s1) :=
    match s with
    | String c rest => if char_is 45 c then (true, rest) else (false, s)
    | EmptyString => (false, s)
    end in
  let '(ip, n1, s2) := digits s1 0 0 in
  let leading_zero :=
    match s1 with
    | String c _ => char_is 48 c && (1 <? n1)
    | EmptyString => false
    end in
  if (n1 =? 0) || leading_zero then None
  else
    let frac :=
      match s2 with
      | String c rest =>
          if char_is 46 c then
            let '(m, n2, r) := digits rest ip 0 in
            if n2 =? 0 then None else Some (m, n2, r)
          else Some (ip, 0, s2)
      | EmptyString => Some (ip, 0, s2)
      end in
    match frac with
    | None => None
    | Some (m, n2, s3) =>
        let expo :=
          match s3 with
          | String c rest =>
              if char_is 101 c || char_is 69 c then
                let (eneg, r1) :=
                  match rest with
                  | String c' rest' =>
                      if char_is 45 c' then (true, rest')
                      else if char_is 43 c' then (false, rest')
                      else (false, rest)
                  | EmptyString => (false, rest)
                  end in
                let '(e, n3, r2) := digits r1 0 0 in
                if n3 =? 0 then None
                else Some ((if eneg then - e else e), r2)
              else Some (0, s3)
          | EmptyString => Some (0, s3)
          end in
        match expo with
        | None => None
        | Some (e, s4) =>
            match decimal_to_float neg m (e - n2) with
            | Some f => Some (VFloat f, s4)
            | None => None
            end
        end
    end.

(** The characters of a string up to its closing quote. *)
Fixpoint string_body (s : string) : option (string * string) :=
  match s with
  | EmptyString => None
  | String c rest =>
      if char_is 34 c then Some (EmptyString, rest)
      else if char_is 92 c || (nat_of_ascii c <? 32)%nat then None
      else
        match string_body rest with
        | Some (body, r) => Some (String c body, r)
        | None => None
        end
  end.

Fixpoint strip_prefix (p s : string) : option string :=
  match p, s with
  | EmptyString, _ => Some s
  | String a p', String b s' =>
      if Ascii.eqb a b then strip_prefix p' s' else None
  | _, EmptyString => None
  end.

(** A later member of an object replaces an earlier one of the same
    name. *)
Fixpoint set_member (k : string) (v : value) (es : list (string * value))
  : list (string * value) :=
  match es with
  | [] => [(k, v)]
  | (k', v') :: rest =>
      if String.eqb k' k then (k, v) :: rest
      else (k', v') :: set_member k v rest
  end.

Fixpoint array_items (parse : string -> option (value * string))
    (fuel : nat) (s : string) (acc : list value)
  : option (list value * string) :=
  match fuel with
  | O => None
  | S fuel' =>
      match parse s with
      | None => None
      | Some (v, r) =>
          match skip_ws r with
          | String c r' =>
              if char_is 44 c then array_items parse fuel' r' (acc ++ [v])
              else if char_is 93 c then Some (acc ++ [v], r')
              else None
          | EmptyString => None
          end
      end
  end.

Fixpoint object_members (parse : string -> option (value * string))
    (fuel : nat) (s : string) (acc : list (string * value))
  : option (list (string * value) * string) :=
  match fuel with
  | O => None
  | S fuel' =>
      match skip_ws s with
      | String q r0 =>
          if char_is 34 q then
            match string_body r0 with
            | None => None
            | Some (k, r1) =>
                match skip_ws r1 with
                | String colon r2 =>
                    if char_is 58 colon then
                      match parse r2 with
                      | None => None
                      | Some (v, r3) =>
                          match skip_ws r3 with
                          | String c r4 =>
                              if char_is 44 c then
                                object_members parse fuel' r4 (set_member k v acc)
                              else if char_is 125 c then
                                Some (set_member k v acc, r4)
                              else None
                          | EmptyString => None
                          end
                      end
                    else None
                | EmptyString => None
                end
            end
          else None
      | EmptyString => None
      end
  end.

Fixpoint parse_value (fuel : nat) (s : string) : option (value * string) :=
  match fuel with
  | O => None
  | S fuel' =>
      match skip_ws s with
      | EmptyString => None
      | String c rest =>
          if char_is 123 c then
            match skip_ws rest with
            | String c' r =>
                if char_is 125 c' then Some (VMap [], r)
                else
                  match object_members (parse_value fuel') fuel' rest [] with
                  | Some (es, r') => Some (VMap es, r')
                  | None => None
                  end
            | EmptyString => None
            end
          else if char_is 91 c then
            match skip_ws rest with
            | String c' r =>
                if char_is 93 c' then Some (VSlice [], r)
                else
                  match array_items (parse_value fuel') fuel' rest [] with
                  | Some (l, r') => Some (VSlice l, r')
                  | None => None
                  end
            | EmptyString => None
            end
          else if char_is 34 c then
            match string_body rest with
            | Some (body, r) => Some (VString body, r)
            | None => None
            end
          else if char_is 116 c then
            option_map (fun r => (VBool true, r)) (strip_prefix "true" (String c rest))
          else if char_is 102 c then
            option_map (fun r => (VBool false, r)) (strip_prefix "false" (String c rest))
          else if char_is 110 c then
            option_map (fun r => (VNil, r)) (strip_prefix "null" (String c rest))
          else parse_number (String c rest)
      end
  end.

Definition syntax_error : error_value :=
  ErrorValue "invalid character in JSON input" None.

Definition Unmarshal (s : string) : any + error_value :=
  match parse_value (S (String.length s)) s with
  | Some (v, r) =>
      match skip_ws r with
      | EmptyString => inl v
      | String _ _ => inr syntax_error
      end
  | None => inr syntax_error
  end.

(** [json.Marshal] of a decoded tree; numbers are printed by [show]. *)
Fixpoint Marshal (x : value) : string :=
  match x with
  | VNil => "null"
  | VString s => dq +++ s +++ dq
  | VSlice l => "[" +++ join "," (map Marshal l) +++ "]"
  | VMap es =>
      "{" +++ join ","
                (map (fun kv => dq +++ fst kv +++ dq +++ ":" +++ Marshal (snd kv)) es)
      +++ "}"
  | _ => show x
  end%string.

Definition ext : External := {|
  fmt_Sprintf := Sprintf;
  strings_TrimSpace := TrimSpace;
  cmp_Equal := Equal;
  cmp_Diff := Diff;
  reflect_DeepEqual := DeepEqual;
  errors_Is := Is;
  json_Unmarshal := Unmarshal;
  json_Marshal := Marshal
|}.

End Reference.

(** ** Vocabulary of the statements *)

(** An assertion passes on the handle [t]: it returns normally and has
    called nothing but [Helper]. *)
Definition passes (m : M unit) (t : T) : Prop :=
  m t = (Returned tt, t ++ [Helper]).

(** The line [fail] logs for a message and its arguments. *)
Definition rendered (ext : External) (msg : string) (args : list any)
  : string :=
  (strings_TrimSpace ext (fmt_Sprintf ext msg args) +++ nl)%string.

(** An assertion reports a failure on the handle [t]: it returns
    normally after [Helper], the context lines [logs], the line of
    [fail msg args], and [Fail]. *)
Definition reports (ext : External) (m : M unit) (t : T)
    (logs : list event) (msg : string) (args : list any) : Prop :=
  m t = (Returned tt,
         t ++ [Helper] ++ logs ++ [Logf (rendered ext msg args) []; Fail]).

(** The text [diff] returns. *)
Definition diff_text (ext : External) {A B} `{Any A} `{Any B} (a : A) (b : B)
  : string :=
  match test.diff ext a b with
  | Returned d => d
  | Panicked _ => EmptyString
  end.

(** The order of calls on the handle, as an automaton whose state says
    whether a line has been logged since the last [Fail] (or since the
    start).  [Fail] needs a pending line; [Helper] and the end of the
    calls need none. *)
Definition step (pending : bool) (e : event) : option bool :=
  match e with
  | Helper => if pending then None else Some false
  | Logf _ _ => Some true
  | Fail => if pending then Some false else None
  end.

Fixpoint steps (pending : bool) (evs : list event) : option bool :=
  match evs with
  | [] => Some pending
  | e :: rest =>
      match step pending e with
      | Some p => steps p rest
      | None => None
      end
  end.

(** Every [Fail] directly follows a logged line, and every logged line
    is followed by a [Fail]. *)
Definition well_reported (evs : list event) : bool :=
  match steps false evs with
  | Some false => true
  | _ => false
  end.

(** A computation that, when it returns, has moved the automaton from
    state [p] to state [q]. *)
Definition moves (p q : bool) {A} (m : M A) : Prop :=
  forall t,
    match m t with
    | (Returned _, t') => exists evs, t' = t ++ evs /\ steps p evs = Some q
    | (Panicked _, _) => True
    end.

(** The messages of [InDelta]'s precondition checks. *)
Definition InDelta_preconditions : list string :=
  [ ";; delta must be numeric; got %v";
    ";; delta must be positive; got %v";
    ";; first argument must be numeric; got %v";
    ";; second argument must be numeric; got %v" ]%string.

(** [float64(n)] is NaN or an infinity. *)
Definition nonfinite {N} `{Number N} (n : N) : Prop :=
  math_IsNaN (to_float64 n) = true \/ math_IsInf (to_float64 n) 0 = true.

(** What the documentation of go-cmp and reflect promises and the
    theorems about [Eq] and [diff] rely on:
    - on values without unexported fields, [cmp.Equal] returns the
      structural comparison (computed by [Reference.Equal]);
    - a value that holds neither a NaN nor a non-nil function is equal
      to itself, for [cmp.Equal] (when it returns) and for
      [reflect.DeepEqual];
    - [cmp.Diff] is empty when [cmp.Equal] holds, and panics when
      [cmp.Equal] panics (it makes the same traversal). *)
Record LibraryContract (ext : External) : Prop := {
  cmp_on_transparent :
    forall x y,
      transparent x = true -> transparent y = true ->
      well_formed x = true -> well_formed y = true ->
      cmp_Equal ext x y = Reference.Equal x y;
  cmp_self :
    forall x r,
      has_nan x = false -> has_func x = false -> well_formed x = true ->
      cmp_Equal ext x x = Returned r -> r = true;
  deep_self :
    forall x,
      has_nan x = false -> has_func x = false -> well_formed x = true ->
      reflect_DeepEqual ext x x = true;
  diff_of_equal :
    forall x y,
      cmp_Equal ext x y = Returned true -> cmp_Diff ext x y = Returned EmptyString;
  diff_panics :
    forall x y p,
      cmp_Equal ext x y = Panicked p -> exists p', cmp_Diff ext x y = Panicked p'
}.

(** The messages with which the slice and map assertions report a
    mismatch of elements, keys or values. *)
Definition slice_element_messages : list string :=
  [ ";; expected slice equality via 'eq' function";
    ";; expected slice equality via .Equals method";
    ";; %v and %v not within %v" ]%string.

Definition map_entry_messages : list string :=
  [ ";; expected maps of same keys";
    ";; expected maps of same values via cmp.Diff function";
    ";; expected maps of same values via 'eq' function";
    ";; expected maps of same values via .Equals method" ]%string.

(** The context lines logged with a length mismatch. *)
Definition slice_lengths {A} (a b : list A) : list event :=
  [ Logf ("len(slice a): %d" +++ nl)%string [box_len a];
    Logf ("len(slice b): %d" +++ nl)%string [box_len b] ].

Definition map_lengths {K V} (a b : list (K * V)) : list event :=
  [ Logf ("len(map a): %d" +++ nl)%string [box_len a];
    Logf ("len(map b): %d" +++ nl)%string [box_len b] ].

(** A caller function that must not be called: it panics. *)
Definition never {A} : A -> A -> outcome bool :=
  fun _ _ => Panicked "called"%string.

(** [-delta <= a-b <= delta] in exact arithmetic, for integers and for
    finite floats. *)
Definition within_exact (a b delta : Z) : Prop :=
  - delta <= a - b <= delta.

Definition within_exact_float (a b delta : float64) : Prop :=
  match float_value a, float_value b, float_value delta with
  | Some x, Some y, Some d =>
      dyadic_le (dyadic_opp d) (dyadic_sub x y) /\
      dyadic_le (dyadic_sub x y) d
  | _, _, _ => Logic.False
  end.

(** [-delta <= a-b <= delta] with the subtraction, negation and order
    of [float64]. *)
Definition within_float64 (a b delta : float64) : Prop :=
  SFleb (SFopp delta) (SFsub f64_prec f64_emax a b) = true /\
  SFleb (SFsub f64_prec f64_emax a b) delta = true.

(** Induction on values, with the induction hypothesis for every
    element, entry and field. *)
Section ValueInduction.

Variable P : value -> Prop.
Hypothesis H_nil : P VNil.
Hypothesis H_bool : forall b, P (VBool b).
Hypothesis H_int : forall k n, P (VInt k n).
Hypothesis H_float : forall f, P (VFloat f).
Hypothesis H_string : forall s, P (VString s).
Hypothesis H_error : forall e, P (VError e).
Hypothesis H_func : forall c, P (VFunc c).
Hypothesis H_nilptr : P VNilPtr.
Hypothesis H_ptr : forall v, P v -> P (VPtr v).
Hypothesis H_nilslice : P VNilSlice.
Hypothesis H_slice : forall l, Forall P l -> P (VSlice l).
Hypothesis H_nilmap : P VNilMap.
Hypothesis H_map : forall es, Forall (fun kv => P (snd kv)) es -> P (VMap es).
Hypothesis H_struct :
  forall n fs, Forall (fun kv => P (snd kv)) fs -> P (VStruct n fs).

Fixpoint value_nested_ind (x : value) : P x :=
  match x with
  | VNil => H_nil
  | VBool b => H_bool b
  | VInt k n => H_int k n
  | VFloat f => H_float f
  | VString s => H_string s
  | VError e => H_error e
  | VFunc c => H_func c
  | VNilPtr => H_nilptr
  | VPtr v => H_ptr v (value_nested_ind v)
  | VNilSlice => H_nilslice
  | VSlice l =>
      H_slice l
        ((fix all (l : list value) : Forall P l :=
            match l with
            | [] => Forall_nil P
            | v :: rest => Forall_cons v (value_nested_ind v) (all rest)
            end) l)
  | VNilMap => H_nilmap
  | VMap es =>
      H_map es
        ((fix all (es : list (string * value))
            : Forall (fun kv => P (snd kv)) es :=
            match es with
            | [] => Forall_nil _
            | (k, v) :: rest =>
                Forall_cons (k, v) (value_nested_ind v) (all rest)
            end) es)
  | VStruct n fs =>
      H_struct n fs
        ((fix all (es : list (string * value))
            : Forall (fun kv => P (snd kv)) es :=
            match es with
            | [] => Forall_nil _
            | (k, v) :: rest =>
                Forall_cons (k, v) (value_nested_ind v) (all rest)
            end) fs)
  end.

End ValueInduction.

(** [good x]: [x] holds neither a NaN nor a non-nil function. *)
Definition good (x : value) : bool := negb (has_nan x || has_func x).

(** What [Reference.Equal x x] is for a well-formed [x]. *)
Definition self_equal (x : value) : Prop :=
  well_formed x = true ->
  (forall r, Reference.Equal x x = Returned r -> r = good x) /\
  (transparent x = true -> exists r, Reference.Equal x x = Returned r).

(** What [Reference.DeepEqual x x] is for a well-formed [x]. *)
Definition self_deep (x : value) : Prop :=
  well_formed x = true -> has_nan x = false -> has_func x = false ->
  Reference.DeepEqual x x = true.

(** Inputs of the examples. *)
Definition json_a_1 : string := ("{" +++ dq +++ "a" +++ dq +++ ":1}")%string.
Definition json_a_1_0 : string := ("{" +++ dq +++ "a" +++ dq +++ ":1.0}")%string.

(** A struct with one unexported field, as [sync.Mutex] has. *)
Definition opaque (n : Z) : value :=
  VStruct "guarded"%string [("state"%string, VInt go_int n)].


(** ** Further vocabulary: scans, verdicts and predicates *)

(** The boolean [equal] returns (it never panics). *)
Definition equal_result (ext : External) {A B} `{Any A} `{Any B}
    (a : A) (b : B) : bool :=
  match test.equal ext a b with
  | Returned r => r
  | Panicked _ => false
  end.

(** How many times [Fail] was called. *)
Definition count_Fail (evs : list event) : nat :=
  List.length (filter is_Fail evs).

(** A test that may panic, tried on the elements of a list in order up
    to the first one that satisfies it. *)
Fixpoint holds_somewhere {A} (p : A -> outcome bool) (l : list A)
  : outcome bool :=
  match l with
  | [] => Returned false
  | x :: rest =>
      obind (p x) (fun e => if (e : bool) then Returned true
                            else holds_somewhere p rest)
  end.

(** The line logged for an item that a slice does not contain. *)
Definition missing_item {A} `{Any A} (item : A) : list event :=
  [Logf ("slice is missing %#v" +++ nl)%string [box item]].

(** The first pair, in order, on which a test that may panic is false. *)
Fixpoint first_unequal {A} (p : A -> A -> outcome bool) (a b : list A)
  : outcome (option (A * A)) :=
  match a, b with
  | x :: a', y :: b' =>
      obind (p x y) (fun e => if (e : bool) then first_unequal p a' b'
                              else Returned (Some (x, y)))
  | _, _ => Returned None
  end.

(** What the loop of a map assertion finds at an entry of [a]: the key
    is in [b] with a value that compares equal, the key is missing from
    [b], or the values differ. *)
Inductive entry_verdict : Type := EntryOk | KeyMissing | ValueDiffers.

Definition check_entry {K V} `{MapKey K} (cmpv : V -> V -> outcome bool)
    (b : list (K * V)) (kv : K * V) : outcome entry_verdict :=
  match map_lookup b (fst kv) with
  | None => Returned KeyMissing
  | Some w =>
      obind (cmpv (snd kv) w)
        (fun e => Returned (if (e : bool) then EntryOk else ValueDiffers))
  end.

(** The verdict of the first entry, in the order of [range], that is
    not [EntryOk]. *)
Fixpoint first_bad_entry {K V} `{MapKey K} (cmpv : V -> V -> outcome bool)
    (b rest : list (K * V)) : outcome entry_verdict :=
  match rest with
  | [] => Returned EntryOk
  | kv :: rest' =>
      obind (check_entry cmpv b kv)
        (fun v => match v with
                  | EntryOk => first_bad_entry cmpv b rest'
                  | bad => Returned bad
                  end)
  end.

(** The key of an entry of [a] is in [b], with a value that compares
    equal. *)
Definition entry_ok {K V} `{MapKey K} (cmpv : V -> V -> outcome bool)
    (b : list (K * V)) (kv : K * V) : Prop :=
  exists w, map_lookup b (fst kv) = Some w /\ cmpv (snd kv) w = Returned true.

(** How each map assertion compares a value of [a] with the value of
    [b] under the same key. *)
Definition MapEq_values (ext : External) {V} `{Any V} : V -> V -> outcome bool :=
  fun valueA valueB => cmp_Equal ext (box valueA) (box valueB).

Definition MapEquals_values {V} `{EqualsFunc V} : V -> V -> outcome bool :=
  fun valueA valueB => method_Equals valueB valueA.

(** What a map assertion leaves on the handle after its own [Helper],
    for a verdict of its loop. *)
Definition map_report (ext : External) {K V} `{Any (list (K * V))}
    (a b : list (K * V)) (values_msg : string) (v : outcome entry_verdict)
    (t : T) : outcome unit * T :=
  match v with
  | Returned EntryOk => (Returned tt, t)
  | Returned KeyMissing =>
      (Returned tt,
       t ++ [Logf (diff_text ext a b) [];
             Logf (rendered ext ";; expected maps of same keys" []) []; Fail])
  | Returned ValueDiffers =>
      (Returned tt,
       t ++ [Logf (diff_text ext a b) [];
             Logf (rendered ext values_msg []) []; Fail])
  | Panicked p => (Panicked p, t)
  end.

(** [==] on keys is equality (as it is for integers and strings, and is
    not for a NaN). *)
Definition lawful_keys (K : Type) `{MapKey K} : Prop :=
  forall x y : K, key_eq x y = true <-> x = y.

(** The test [InDelta] makes on an integer type after its
    preconditions. *)
Definition outside_delta (k : int_kind) (a b delta : Z) : bool :=
  (wrap k (a - b) <? wrap k (- delta)) || (wrap k (a - b) >? delta).

(** What [InDelta] requires of its arguments: a numeric, positive
    [delta], numeric operands, and a difference that is neither below
    [-delta] nor above [delta]. *)
Definition InDelta_holds {N} `{Number N} (a b delta : N) : bool :=
  test.Numeric delta && negb (go_le delta go_zero) &&
  test.Numeric a && test.Numeric b &&
  negb (go_lt (go_sub a b) (go_neg delta) || go_gt (go_sub a b) delta).

Definition omap {A B} (f : A -> B) (o : outcome A) : outcome B :=
  obind o (fun a => Returned (f a)).

(** Two slices have the same length and the test holds of every pair
    of elements at the same index, tried in order up to the first pair
    on which it is false. *)
Definition all_equal {A} (p : A -> A -> outcome bool) (a b : list A)
  : outcome bool :=
  if Nat.eqb (List.length a) (List.length b)
  then omap (fun r => match r with None => true | Some _ => false end)
         (first_unequal p a b)
  else Returned false.

(** Two maps have the same length and every entry of [a] has its key in
    [b] with a value that compares equal, tried in the order of [range]
    up to the first entry that has not. *)
Definition entries_match {K V} `{MapKey K} (cmpv : V -> V -> outcome bool)
    (a b : list (K * V)) : outcome bool :=
  if Nat.eqb (List.length a) (List.length b)
  then omap (fun v => match v with EntryOk => true | _ => false end)
         (first_bad_entry cmpv b a)
  else Returned false.

(** The predicate of an assertion: what the call asserts of its
    arguments.  It is true or false, or it panics where the assertion
    runs, without a guard, caller code, [==], [err.Error()] or
    [cmp.Equal]. *)
Definition asserted (ext : External) (c : test.call) : outcome bool :=
  match c with
  | test.CallNil a => Returned (is_nil a)
  | test.CallNotNil a => Returned (negb (is_nil a))
  | test.CallTrue condition => Returned condition
  | test.CallFalse condition => Returned (negb condition)
  | test.CallError err =>
      Returned (match err with Some _ => true | None => false end)
  | test.CallEqError err msg =>
      omap (fun s => String.eqb s msg) (Error_method err)
  | test.CallErrorIs err target => Returned (errors_Is ext err target)
  | test.CallNoError err =>
      Returned (match err with Some _ => false | None => true end)
  | test.CallEq a b => test.equal ext a b
  | test.CallEqCmp a b => go_eq a b
  | test.CallEqFunc a b eq => eq a b
  | test.CallNotEq a b => omap negb (go_eq a b)
  | test.CallNotEqFunc a b eq => omap negb (eq a b)
  | test.CallEqJSON a b =>
      match json_Unmarshal ext a, json_Unmarshal ext b with
      | inl expA, inl expB => Returned (reflect_DeepEqual ext expA expB)
      | _, _ => Returned false
      end
  | test.CallEqSliceFunc a b eq => all_equal eq a b
  | test.CallEquals a b => method_Equals a b
  | test.CallNotEquals a b => omap negb (method_Equals a b)
  | test.CallEqualsSlice a b => all_equal method_Equals a b
  | test.CallLesser a b => method_Less a b
  | test.CallEmptySlice slice => Returned (Nat.eqb (List.length slice) 0)
  | test.CallLenSlice n slice => Returned (Z.of_nat (List.length slice) =? n)
  | test.CallContains slice item =>
      holds_somewhere (fun x => test.equal ext x item) slice
  | test.CallContainsCmp slice item =>
      holds_somewhere (fun x => go_eq x item) slice
  | test.CallContainsFunc slice item eq =>
      holds_somewhere (fun x => eq x item) slice
  | test.CallContainsEquals slice item =>
      holds_somewhere (fun x => method_Equals x item) slice
  | test.CallLess a b => Returned (go_lt a b)
  | test.CallLessEq a b => Returned (go_le a b)
  | test.CallGreater a b => Returned (go_gt a b)
  | test.CallGreaterEq a b => Returned (go_ge a b)
  | test.CallInDelta a b delta => Returned (InDelta_holds a b delta)
  | test.CallInDeltaSlice a b delta =>
      Returned (Nat.eqb (List.length a) (List.length b) &&
                forallb (fun xy => InDelta_holds (fst xy) (snd xy) delta)
                  (combine a b))
  | test.CallMapEq a b => entries_match (MapEq_values ext) a b
  | test.CallMapEqFunc a b eq => entries_match eq a b
  | test.CallMapEquals a b => entries_match MapEquals_values a b
  | test.CallMapLen n m => Returned (Z.of_nat (List.length m) =? n)
  | test.CallMapEmpty m => Returned (negb (0 <? Z.of_nat (List.length m)))
  end.

(** A failing assertion on the handle [t]: it returns after [Helper],
    and the first time it calls [Fail] it has just logged the line of
    [fail] for some message; nothing before that marked the test
    failed. *)
Definition fails_after_logging (ext : External) (m : M unit) (t : T) : Prop :=
  exists pre msg args post,
    m t = (Returned tt,
           t ++ Helper :: pre ++
             Logf (rendered ext msg args) [] :: Fail :: post) /\
    failed pre = false.

(** A passing assertion on the handle [t]: it returns and has called
    nothing but [Helper] (once, or once more for every pair that
    [InDeltaSlice] hands to [InDelta]). *)
Definition passes_quietly (m : M unit) (t : T) : Prop :=
  exists n, m t = (Returned tt, t ++ Helper :: repeat Helper n).

(** What an assertion does on the handle [t] for an outcome of its
    predicate. *)
Definition settles (ext : External) (m : M unit) (t : T) (o : outcome bool)
  : Prop :=
  match o with
  | Returned true => passes_quietly m t
  | Returned false => fails_after_logging ext m t
  | Panicked p => m t = (Panicked p, t ++ [Helper])
  end.


(** What the theorem about [diff] takes from the documentation of
    [fmt.Sprintf]: text of the format outside a verb is copied to the
    result, so the result starts with the first character of a format
    that does not start with a verb. *)
Definition Sprintf_copies_literal (ext : External) : Prop :=
  forall (c : ascii) (rest : string) (args : list any),
    c <> "%"%char ->
    exists out, fmt_Sprintf ext (String c rest) args = String c out.

(** [==] on interface values that hold an [int] or a slice of one
    slice type: two integers compare by value, an integer and a slice
    are different, and comparing two slices panics. *)
Definition uncomparable : panic_value :=
  "runtime error: comparing uncomparable type"%string.

Definition ints_or_slices : Comparable any :=
  fun x y =>
    match x, y with
    | VInt _ n, VInt _ m => Returned (n =? m)
    | VSlice _, VSlice _ => Panicked uncomparable
    | _, _ => Returned false
    end.

(** ** Properties *)

(** *** The handle monad *)

Lemma bind_returned {A B} (m : M A) (k : A -> M B) t a t' :
  m t = (Returned a, t') -> bind m k t = k a t'.
Proof. unfold bind. intros ->. reflexivity. Qed.

Lemma bind_panicked {A B} (m : M A) (k : A -> M B) t p t' :
  m t = (Panicked p, t') -> bind m k t = (Panicked p, t').
Proof. unfold bind. intros ->. reflexivity. Qed.

Lemma steps_app p evs1 evs2 q :
  steps p evs1 = Some q -> steps p (evs1 ++ evs2) = steps q evs2.
Proof.
  revert p. induction evs1 as [|e evs1 IH]; intros p; simpl.
  - intros [= ->]. reflexivity.
  - destruct (step p e) as [p'|]; [apply IH | discriminate].
Qed.

Lemma moves_ret p {A} (a : A) : moves p p (ret a).
Proof.
  intros t. unfold ret. exists []. split; [now rewrite app_nil_r | reflexivity].
Qed.

Lemma moves_lift p {A} (o : outcome A) : moves p p (lift o).
Proof.
  intros t. unfold lift. destruct o; [|exact I].
  exists []. split; [now rewrite app_nil_r | reflexivity].
Qed.

Lemma moves_Helper : moves false false t_Helper.
Proof. intros t. exists [Helper]. split; reflexivity. Qed.

Lemma moves_Logf p format args : moves p true (t_Logf format args).
Proof. intros t. exists [Logf format args]. split; reflexivity. Qed.

Lemma moves_Fail : moves true false t_Fail.
Proof. intros t. exists [Fail]. split; reflexivity. Qed.

Lemma moves_bind p q r {A B} (m : M A) (k : A -> M B) :
  moves p q m -> (forall a, moves q r (k a)) -> moves p r (bind m k).
Proof.
  intros Hm Hk t. unfold bind. specialize (Hm t).
  destruct (m t) as [[a|pv] t1]; [|exact I].
  destruct Hm as (evs1 & -> & H1).
  specialize (Hk a (t ++ evs1)).
  destruct (k a (t ++ evs1)) as [[b|pv] t2]; [|exact I].
  destruct Hk as (evs2 & -> & H2).
  exists (evs1 ++ evs2). split; [now rewrite app_assoc|].
  now rewrite (steps_app _ _ _ _ H1).
Qed.

Lemma moves_fail ext p msg args : moves p false (test.fail ext msg args).
Proof.
  unfold test.fail. eapply moves_bind; [apply moves_Logf|].
  intros _. apply moves_Fail.
Qed.

Lemma moves_log_diff ext p {A B} `{Any A} `{Any B} (a : A) (b : B) :
  moves p true (test.log_diff ext a b).
Proof.
  unfold test.log_diff. eapply moves_bind; [apply moves_lift|].
  intros d. apply moves_Logf.
Qed.

(** *** Order of the calls on the handle *)

Ltac orderly_step :=
  first
    [ apply moves_ret | apply moves_lift | apply moves_Helper
    | apply moves_Logf | apply moves_Fail | apply moves_fail
    | apply moves_log_diff
    | eapply moves_bind; [ | intros ]
    | match goal with
      | |- moves _ _ (if ?c then _ else _) => destruct c
      | |- moves _ _ (match ?x with _ => _ end) => destruct x
      end ].

Ltac orderly := cbv zeta; repeat orderly_step.

Lemma moves_InDelta ext {N} `{Any N} `{Number N} (a b delta : N) :
  moves false false (test.InDelta ext a b delta).
Proof. unfold test.InDelta. orderly. Qed.

Lemma moves_EqualsSlice_loop ext {E} `{Any E} `{EqualsFunc E} (a b : list E) n :
  forall i, moves false false (test.EqualsSlice_loop ext a b n i).
Proof.
  induction n as [|n IH]; intros i; simpl; [apply moves_ret|].
  orderly. apply IH.
Qed.

Lemma moves_InDeltaSlice_loop ext {N} `{Any N} `{Number N} (a b : list N)
    (delta : N) n :
  forall i, moves false false (test.InDeltaSlice_loop ext a b delta n i).
Proof.
  induction n as [|n IH]; intros i; simpl; [apply moves_ret|].
  eapply moves_bind; [apply moves_lift|]. intros x.
  eapply moves_bind; [apply moves_lift|]. intros y.
  eapply moves_bind; [apply moves_InDelta|]. intros _. apply IH.
Qed.

Lemma moves_MapEq_range ext {K V} `{Any (list (K * V))} `{Any V}
    `{MapKey K} (a b rest : list (K * V)) :
  moves false false (test.MapEq_range ext a b rest).
Proof.
  induction rest as [|[key valueA] rest IH]; simpl; [apply moves_ret|].
  orderly. apply IH.
Qed.

Lemma moves_MapEqFunc_range ext {K V} `{Any (list (K * V))} `{MapKey K}
    (a b rest : list (K * V)) (eq : V -> V -> outcome bool) :
  moves false false (test.MapEqFunc_range ext a b rest eq).
Proof.
  induction rest as [|[key valueA] rest IH]; simpl; [apply moves_ret|].
  orderly. apply IH.
Qed.

Lemma moves_MapEquals_range ext {K V} `{Any (list (K * V))} `{MapKey K}
    `{EqualsFunc V} (a b rest : list (K * V)) :
  moves false false (test.MapEquals_range ext a b rest).
Proof.
  induction rest as [|[key valueA] rest IH]; simpl; [apply moves_ret|].
  orderly. apply IH.
Qed.

(** Every function of the public surface, when it returns, leaves the
    automaton where it found it: each [Fail] it made directly follows a
    logged line, and no logged line is left without its [Fail]. *)
Lemma moves_run ext (c : test.call) : moves false false (test.run ext c).
Proof.
  destruct c; cbn [test.run];
    unfold test.Nil, test.NotNil, test.True_, test.False_, test.Error,
      test.EqError, test.ErrorIs, test.NoError, test.Eq, test.EqCmp,
      test.EqFunc, test.NotEq, test.NotEqFunc, test.EqJSON, test.EqSliceFunc,
      test.Equals, test.NotEquals, test.EqualsSlice, test.Lesser,
      test.EmptySlice, test.LenSlice, test.Contains, test.ContainsCmp,
      test.ContainsFunc, test.ContainsEquals, test.Less, test.LessEq,
      test.Greater, test.GreaterEq, test.InDeltaSlice, test.MapEq,
      test.MapEqFunc, test.MapEquals, test.MapLen, test.MapEmpty;
    try apply moves_InDelta;
    orderly;
    first [ apply moves_EqualsSlice_loop | apply moves_InDeltaSlice_loop
          | apply moves_MapEq_range | apply moves_MapEqFunc_range
          | apply moves_MapEquals_range ].
Qed.

Lemma steps_split p evs1 evs2 q :
  steps p (evs1 ++ evs2) = Some q ->
  exists p1, steps p evs1 = Some p1 /\ steps p1 evs2 = Some q.
Proof.
  revert p. induction evs1 as [|e evs1 IH]; intros p; simpl.
  - intros H. exists p. split; [reflexivity | exact H].
  - destruct (step p e) as [p'|]; [apply IH | discriminate].
Qed.

Lemma steps_pending p evs :
  steps p evs = Some true ->
  (evs = [] /\ p = true) \/
  exists pre format args, evs = pre ++ [Logf format args].
Proof.
  revert p. induction evs as [|e evs IH] using rev_ind; intros p; simpl.
  - intros [= ->]. left. split; reflexivity.
  - intros H. right. apply steps_split in H. destruct H as (p1 & _ & H).
    destruct e as [|format args|]; simpl in H.
    + destruct p1; discriminate.
    + exists evs, format, args. reflexivity.
    + destruct p1; discriminate.
Qed.

Lemma Fail_follows_Logf evs pre post q :
  steps false evs = Some q -> evs = pre ++ Fail :: post ->
  exists pre' format args, pre = pre' ++ [Logf format args].
Proof.
  intros H ->. apply steps_split in H. destruct H as (p1 & Hpre & Hpost).
  simpl in Hpost. destruct p1; [|discriminate].
  apply steps_pending in Hpre. destruct Hpre as [[_ [=]]|Hpre]. exact Hpre.
Qed.

Lemma silent_without_Fail p evs :
  steps p evs = Some false -> failed evs = false ->
  p = false /\ logged evs = false.
Proof.
  revert p. induction evs as [|e evs IH]; intros p; simpl.
  - intros [= ->] _. split; reflexivity.
  - destruct e as [|format args|]; simpl.
    + destruct p; [discriminate|]. intros H F. apply (IH false H F).
    + intros H F. destruct (IH true H F) as [[=] _].
    + intros _ [=].
Qed.

Lemma fail_calls ext msg args t :
  test.fail ext msg args t
  = (Returned tt, t ++ [Logf (rendered ext msg args) []; Fail]).
Proof.
  unfold test.fail, rendered, t_Logf, t_Fail, emit, bind.
  now rewrite <- app_assoc.
Qed.

(** *** Running an assertion *)

Ltac run_go :=
  unfold passes, reports, rendered;
  repeat (unfold test.fail, test.log_diff, t_Helper, t_Logf, t_Fail, emit,
            bind, ret, lift; simpl);
  rewrite <- ?app_assoc; simpl.

(** *** Nil and NotNil *)

Lemma Nil_of_non_nil ext (a : any) t :
  a <> VNil ->
  reports ext (test.Nil ext a) t [] ";; expected to be nil; is not nil" [].
Proof.
  intros Ha. unfold test.Nil.
  destruct a; try contradiction; run_go; reflexivity.
Qed.

Lemma NotNil_of_non_nil ext (a : any) t :
  a <> VNil -> passes (test.NotNil ext a) t.
Proof.
  intros Ha. unfold test.NotNil.
  destruct a; try contradiction; run_go; reflexivity.
Qed.

(** C10.  [Nil] passes exactly when the interface value itself is nil.
    A nil pointer stored in an interface is not the nil interface: [Nil]
    reports it and [NotNil] passes on it; the dynamic value is never
    looked into. *)
Theorem Nil_passes_iff_nil_interface ext (a : any) (t : T) :
  (passes (test.Nil ext a) t <-> a = VNil) /\
  VNilPtr <> VNil /\
  reports ext (test.Nil ext VNilPtr) t [] ";; expected to be nil; is not nil" [] /\
  passes (test.NotNil ext VNilPtr) t.
Proof.
  split; [split|].
  - intros Hp. destruct a; try reflexivity;
      unfold passes, test.Nil in Hp; run_go; simpl in Hp;
      apply (f_equal snd) in Hp; simpl in Hp;
      unfold test.fail, t_Logf, t_Fail, emit, bind in Hp; simpl in Hp;
      rewrite <- !app_assoc in Hp; apply app_inv_head in Hp; discriminate.
  - intros ->. unfold test.Nil. run_go. reflexivity.
  - split; [discriminate|]. split.
    + apply Nil_of_non_nil. discriminate.
    + apply NotNil_of_non_nil. discriminate.
Qed.

(** *** Panics *)

(** C1.  [EqError] calls [err.Error()] before any check: on a nil
    error the call panics, and the panic leaves the assertion after its
    call of [Helper]. *)
Theorem EqError_nil_error_panics ext (msg : string) (t : T) :
  test.EqError ext None msg t = (Panicked nil_dereference, t ++ [Helper]).
Proof. reflexivity. Qed.

(** [MapEq] compares values with [cmp.Equal] itself, not with [equal]:
    a panic of the library leaves the assertion. *)
Lemma MapEq_panic_escapes ext {K V} `{Any (list (K * V))} `{Any V}
    `{MapKey K} (key : K) (valueA valueB : V) p t :
  key_eq key key = true ->
  cmp_Equal ext (box valueA) (box valueB) = Panicked p ->
  test.MapEq ext [(key, valueA)] [(key, valueB)] t = (Panicked p, t ++ [Helper]).
Proof.
  intros Hk Hp. unfold test.MapEq. run_go. rewrite Hk. run_go.
  rewrite Hp. reflexivity.
Qed.

Example MapEq_panic_escapes_on_guarded_values :
  test.MapEq Reference.ext [("k"%string, opaque 1)] [("k"%string, opaque 1)] []
  = (Panicked Reference.unexported_field, [Helper]).
Proof. reflexivity. Qed.

(** *** The structural comparator *)

Lemma equal_of_returned ext {A B} `{Any A} `{Any B} (a : A) (b : B) r :
  cmp_Equal ext (box a) (box b) = Returned r -> test.equal ext a b = Returned r.
Proof. unfold test.equal, with_deferred. now intros ->. Qed.

Lemma equal_of_panicked ext {A B} `{Any A} `{Any B} (a : A) (b : B) p :
  cmp_Equal ext (box a) (box b) = Panicked p ->
  test.equal ext a b = Returned (reflect_DeepEqual ext (box a) (box b)).
Proof. unfold test.equal, with_deferred. now intros ->. Qed.

(** C5.  [equal] returns what [cmp.Equal] returns; when [cmp.Equal]
    panics, [equal] recovers and returns what [reflect.DeepEqual]
    returns; in no case does [equal] panic. *)
Theorem equal_falls_back_on_panic ext {A B} `{Any A} `{Any B} (a : A) (b : B) :
  (forall r,
      cmp_Equal ext (box a) (box b) = Returned r ->
      test.equal ext a b = Returned r) /\
  (forall p,
      cmp_Equal ext (box a) (box b) = Panicked p ->
      test.equal ext a b = Returned (reflect_DeepEqual ext (box a) (box b))) /\
  (exists r, test.equal ext a b = Returned r).
Proof.
  split; [|split].
  - intros r. apply equal_of_returned.
  - intros p. apply equal_of_panicked.
  - destruct (cmp_Equal ext (box a) (box b)) as [r|p] eqn:E.
    + exists r. now apply equal_of_returned.
    + eexists. now apply (equal_of_panicked _ _ _ p).
Qed.

Lemma equal_falls_back_on_panic_witness :
  cmp_Equal Reference.ext (opaque 1) (opaque 2)
    = Panicked Reference.unexported_field /\
  test.equal Reference.ext (opaque 1) (opaque 2) = Returned false /\
  test.equal Reference.ext (opaque 1) (opaque 1) = Returned true.
Proof.
  split; [reflexivity|]. split.
  - exact (proj1 (proj2 (equal_falls_back_on_panic Reference.ext
                           (opaque 1) (opaque 2))) _ eq_refl).
  - exact (proj1 (proj2 (equal_falls_back_on_panic Reference.ext
                           (opaque 1) (opaque 1))) _ eq_refl).
Defined.

(** *** Size before elements *)

Lemma diff_returns ext {A B} `{Any A} `{Any B} (a : A) (b : B) :
  test.diff ext a b = Returned (diff_text ext a b).
Proof.
  unfold diff_text, test.diff, with_deferred.
  destruct (cmp_Diff ext (box a) (box b)); reflexivity.
Qed.

Lemma eqb_of_neq n m : n <> m -> Nat.eqb n m = false.
Proof. intros H. now apply Nat.eqb_neq. Qed.

Lemma EqSliceFunc_length_mismatch ext {A} `{Any A} (a b : list A) eq t :
  List.length a <> List.length b ->
  reports ext (test.EqSliceFunc ext a b eq) t
    (slice_lengths a b ++ [Logf (diff_text ext a b) []])
    ";; expected slices of same length" [].
Proof.
  intros Hlen. unfold test.EqSliceFunc. run_go.
  rewrite (eqb_of_neq _ _ Hlen). run_go. rewrite diff_returns. run_go.
  reflexivity.
Qed.

Lemma EqualsSlice_length_mismatch ext {E} `{Any E} `{EqualsFunc E}
    (a b : list E) t :
  List.length a <> List.length b ->
  reports ext (test.EqualsSlice ext a b) t
    (slice_lengths a b ++ [Logf (diff_text ext a b) []])
    ";; expected slices of same length" [].
Proof.
  intros Hlen. unfold test.EqualsSlice. run_go.
  rewrite (eqb_of_neq _ _ Hlen). run_go. rewrite diff_returns. run_go.
  reflexivity.
Qed.

Lemma InDeltaSlice_length_mismatch ext {N} `{Any N} `{Number N}
    (a b : list N) (delta : N) t :
  List.length a <> List.length b ->
  reports ext (test.InDeltaSlice ext a b delta) t
    (slice_lengths a b) ";; expected slices of same length" [].
Proof.
  intros Hlen. unfold test.InDeltaSlice. run_go.
  rewrite (eqb_of_neq _ _ Hlen). run_go. reflexivity.
Qed.

Lemma MapEq_length_mismatch ext {K V} `{Any (list (K * V))} `{Any V}
    `{MapKey K} (a b : list (K * V)) t :
  List.length a <> List.length b ->
  reports ext (test.MapEq ext a b) t
    (map_lengths a b) ";; expected maps of same length" [].
Proof.
  intros Hlen. unfold test.MapEq. run_go.
  rewrite (eqb_of_neq _ _ Hlen). run_go. reflexivity.
Qed.

Lemma MapEqFunc_length_mismatch ext {K V} `{Any (list (K * V))}
    `{MapKey K} (a b : list (K * V)) eq t :
  List.length a <> List.length b ->
  reports ext (test.MapEqFunc ext a b eq) t
    (map_lengths a b) ";; expected maps of same length" [].
Proof.
  intros Hlen. unfold test.MapEqFunc. run_go.
  rewrite (eqb_of_neq _ _ Hlen). run_go. reflexivity.
Qed.

Lemma MapEquals_length_mismatch ext {K V} `{Any (list (K * V))}
    `{MapKey K} `{EqualsFunc V} (a b : list (K * V)) t :
  List.length a <> List.length b ->
  reports ext (test.MapEquals ext a b) t
    (map_lengths a b) ";; expected maps of same length" [].
Proof.
  intros Hlen. unfold test.MapEquals. run_go.
  rewrite (eqb_of_neq _ _ Hlen). run_go. reflexivity.
Qed.

(** C6.  When the two slices, or the two maps, differ in length, each of
    [EqSliceFunc], [EqualsSlice], [InDeltaSlice], [MapEq], [MapEqFunc]
    and [MapEquals] logs the two lengths (the slice assertions that
    compare by function or method also log the diff of the whole
    slices), reports the length message and returns.  This holds
    whatever the caller's [eq], the [Equals] method and [cmp.Equal] do,
    also when they would panic: no pair of elements, no key and no pair
    of values is looked at.  The length messages are none of the
    messages that report a mismatch of elements, keys or values. *)
Theorem size_mismatch_reported_first ext
    {A} `{Any A} (sa sb : list A) (eq : A -> A -> outcome bool)
    {E} `{Any E} `{EqualsFunc E} (ea eb : list E)
    {N} `{Any N} `{Number N} (na nb : list N) (delta : N)
    {K V} `{Any (list (K * V))} `{Any V} `{MapKey K} `{EqualsFunc V}
    (ma mb : list (K * V)) (veq : V -> V -> outcome bool) (t : T) :
  List.length sa <> List.length sb ->
  List.length ea <> List.length eb ->
  List.length na <> List.length nb ->
  List.length ma <> List.length mb ->
  reports ext (test.EqSliceFunc ext sa sb eq) t
    (slice_lengths sa sb ++ [Logf (diff_text ext sa sb) []])
    ";; expected slices of same length" [] /\
  reports ext (test.EqualsSlice ext ea eb) t
    (slice_lengths ea eb ++ [Logf (diff_text ext ea eb) []])
    ";; expected slices of same length" [] /\
  reports ext (test.InDeltaSlice ext na nb delta) t
    (slice_lengths na nb) ";; expected slices of same length" [] /\
  reports ext (test.MapEq ext ma mb) t
    (map_lengths ma mb) ";; expected maps of same length" [] /\
  reports ext (test.MapEqFunc ext ma mb veq) t
    (map_lengths ma mb) ";; expected maps of same length" [] /\
  reports ext (test.MapEquals ext ma mb) t
    (map_lengths ma mb) ";; expected maps of same length" [] /\
  ~ In ";; expected slices of same length"%string
       (slice_element_messages ++ InDelta_preconditions) /\
  ~ In ";; expected maps of same length"%string map_entry_messages.
Proof.
  intros Hs He Hn Hm.
  split; [now apply EqSliceFunc_length_mismatch|].
  split; [now apply EqualsSlice_length_mismatch|].
  split; [now apply InDeltaSlice_length_mismatch|].
  split; [now apply MapEq_length_mismatch|].
  split; [now apply MapEqFunc_length_mismatch|].
  split; [now apply MapEquals_length_mismatch|].
  split; simpl; intros F;
    repeat (destruct F as [F|F]; [discriminate F|]); exact F.
Qed.

Lemma size_mismatch_reported_first_witness :
  reports Reference.ext
    (@test.EqSliceFunc Reference.ext Z (Any_int go_int) [1] [] never) []
    (slice_lengths [1] (@nil Z)
     ++ [Logf ("difference!" +++ nl +++ "- [1]" +++ nl +++ "+ []" +++ nl)%string
           []])
    ";; expected slices of same length" [] /\
  reports Reference.ext
    (@test.MapEq Reference.ext string Z (@Any_map Z (Any_int go_int))
       (Any_int go_int) MapKey_string [("k"%string, 1)] []) []
    (map_lengths [("k"%string, 1)] (@nil (string * Z)))
    ";; expected maps of same length" [].
Proof.
  pose proof
    (@size_mismatch_reported_first Reference.ext
       Z (Any_int go_int) [1] [] never
       Z (Any_int go_int) never [1] []
       Z (Any_int go_int) (Number_int go_int) [1] [] 1
       string Z (@Any_map Z (Any_int go_int)) (Any_int go_int)
       MapKey_string never [("k"%string, 1)] [] never []) as W.
  simpl in W.
  assert (N10 : 1%nat <> 0%nat) by discriminate.
  destruct (W N10 N10 N10 N10) as (W1 & _ & _ & W4 & _).
  split; [exact W1 | exact W4].
Defined.

(** An element mismatch, by contrast, is reported with the message of
    the comparison that found it. *)
Lemma EqSliceFunc_element_mismatch ext {A} `{Any A} (a b : list A) eq t :
  List.length a = List.length b ->
  test.EqSliceFunc_loop a b eq (List.length a) 0 = Returned true ->
  reports ext (test.EqSliceFunc ext a b eq) t
    [Logf (diff_text ext a b) []]
    ";; expected slice equality via 'eq' function" [].
Proof.
  intros Hlen Hloop. unfold test.EqSliceFunc. run_go.
  rewrite Hlen, Nat.eqb_refl. run_go. rewrite <- Hlen, Hloop. run_go.
  rewrite diff_returns. run_go. reflexivity.
Qed.

(** *** EqJSON *)

(** C7.  [EqJSON] passes when both strings decode and the decoded trees
    are deeply equal.  When the first string does not decode, or the
    first does and the second does not, it reports the decoding error
    of that argument and returns: nothing else is logged, whatever the
    other argument is.  The two decoding messages differ from each
    other and from the message of a mismatch. *)
Theorem EqJSON_decodes_then_compares ext (a b : string) (t : T) :
  (forall expA expB,
      json_Unmarshal ext a = inl expA ->
      json_Unmarshal ext b = inl expB ->
      reflect_DeepEqual ext expA expB = true ->
      passes (test.EqJSON ext a b) t) /\
  (forall err,
      json_Unmarshal ext a = inr err ->
      reports ext (test.EqJSON ext a b) t []
        "failed to unmarshal first argument as json: %v" [VError err]) /\
  (forall expA err,
      json_Unmarshal ext a = inl expA ->
      json_Unmarshal ext b = inr err ->
      reports ext (test.EqJSON ext a b) t []
        "failed to unmarshal second argument as json: %v" [VError err]) /\
  (forall expA expB,
      json_Unmarshal ext a = inl expA ->
      json_Unmarshal ext b = inl expB ->
      reflect_DeepEqual ext expA expB = false ->
      reports ext (test.EqJSON ext a b) t
        [Logf (diff_text ext (json_Marshal ext expA) (json_Marshal ext expB)) []]
        ";; expected equality via json marshalling" []) /\
  NoDup [ "failed to unmarshal first argument as json: %v";
          "failed to unmarshal second argument as json: %v";
          ";; expected equality via json marshalling" ]%string.
Proof.
  split; [|split; [|split; [|split]]].
  - intros expA expB HA HB HE. unfold test.EqJSON. run_go.
    rewrite HA, HB, HE. reflexivity.
  - intros err HA. unfold test.EqJSON. run_go. rewrite HA. run_go.
    reflexivity.
  - intros expA err HA HB. unfold test.EqJSON. run_go. rewrite HA, HB.
    run_go. reflexivity.
  - intros expA expB HA HB HE. unfold test.EqJSON. run_go.
    rewrite HA, HB, HE. run_go. rewrite diff_returns. run_go. reflexivity.
  - repeat constructor; simpl; intros F;
      repeat (destruct F as [F|F]; [discriminate F|]); exact F.
Qed.

(** The literals [1] and [1.0] decode to the same [float64], so
    [{"a":1}] and [{"a":1.0}] are equivalent; ["not json"] is reported
    as undecodable. *)
Lemma EqJSON_decodes_then_compares_witness :
  passes (test.EqJSON Reference.ext json_a_1 json_a_1_0) [] /\
  reports Reference.ext (test.EqJSON Reference.ext "not json" "{}") [] []
    "failed to unmarshal first argument as json: %v"
    [VError Reference.syntax_error] /\
  reports Reference.ext (test.EqJSON Reference.ext "{}" "not json") [] []
    "failed to unmarshal second argument as json: %v"
    [VError Reference.syntax_error].
Proof.
  split; [|split].
  - exact (proj1 (EqJSON_decodes_then_compares Reference.ext
                    json_a_1 json_a_1_0 []) _ _ eq_refl eq_refl eq_refl).
  - exact (proj1 (proj2 (EqJSON_decodes_then_compares Reference.ext
                           "not json" "{}" [])) _ eq_refl).
  - exact (proj1 (proj2 (proj2 (EqJSON_decodes_then_compares Reference.ext
                                  "{}" "not json" []))) _ _ eq_refl eq_refl).
Defined.

(** *** InDelta *)

Lemma Numeric_false_iff {N} `{Number N} (n : N) :
  test.Numeric n = false <-> nonfinite n.
Proof.
  unfold test.Numeric, nonfinite.
  destruct (math_IsNaN (to_float64 n)), (math_IsInf (to_float64 n) 0);
    split; intros F; try reflexivity; try discriminate;
    try (now left); try (now right).
  destruct F; discriminate.
Qed.

(** C8.  When [delta <= 0], or when [float64] of [a], [b] or [delta] is
    NaN or an infinity, [InDelta] reports one of its four precondition
    messages and returns; these messages differ from the message of
    two values that are too far apart, and which values [a] and [b]
    are plays no part. *)
Theorem InDelta_checks_preconditions_first ext {N} `{Any N} `{Number N}
    (a b delta : N) (t : T) :
  go_le delta go_zero = true \/ nonfinite a \/ nonfinite b \/ nonfinite delta ->
  (exists msg arg,
      In msg InDelta_preconditions /\
      reports ext (test.InDelta ext a b delta) t [] msg [arg]) /\
  ~ In ";; %v and %v not within %v"%string InDelta_preconditions.
Proof.
  intros Hpre. split.
  - unfold test.InDelta.
    destruct (test.Numeric delta) eqn:Ed.
    2:{ exists ";; delta must be numeric; got %v"%string, (box delta).
        split; [simpl; tauto|]. run_go. reflexivity. }
    destruct (go_le delta go_zero) eqn:Ez.
    { exists ";; delta must be positive; got %v"%string, (box delta).
      split; [simpl; tauto|]. run_go. reflexivity. }
    destruct (test.Numeric a) eqn:Ea.
    2:{ exists ";; first argument must be numeric; got %v"%string, (box a).
        split; [simpl; tauto|]. run_go. reflexivity. }
    destruct (test.Numeric b) eqn:Eb.
    2:{ exists ";; second argument must be numeric; got %v"%string, (box b).
        split; [simpl; tauto|]. run_go. reflexivity. }
    exfalso. destruct Hpre as [F|[F|[F|F]]]; try discriminate;
      apply Numeric_false_iff in F; congruence.
  - simpl. intros F. repeat (destruct F as [F|F]; [discriminate F|]). exact F.
Qed.

Lemma InDelta_checks_preconditions_first_witness :
  (exists msg arg,
      In msg InDelta_preconditions /\
      reports Reference.ext
        (test.InDelta Reference.ext two53 two53 (S754_zero false)) [] []
        msg [arg]) /\
  (exists msg arg,
      In msg InDelta_preconditions /\
      reports Reference.ext
        (test.InDelta Reference.ext S754_nan two53 two53) [] [] msg [arg]).
Proof.
  split.
  - apply (InDelta_checks_preconditions_first Reference.ext
             two53 two53 (S754_zero false) []).
    left. reflexivity.
  - apply (InDelta_checks_preconditions_first Reference.ext
             S754_nan two53 two53 []).
    right. left. left. reflexivity.
Defined.

(** After its precondition checks, [InDelta] decides by one test on the
    difference computed in [N]. *)
Lemma InDelta_after_preconditions ext {N} `{Any N} `{Number N}
    (a b delta : N) t :
  test.Numeric delta = true -> go_le delta go_zero = false ->
  test.Numeric a = true -> test.Numeric b = true ->
  test.InDelta ext a b delta t =
  if go_lt (go_sub a b) (go_neg delta) || go_gt (go_sub a b) delta
  then (Returned tt,
        t ++ [Helper;
              Logf (rendered ext ";; %v and %v not within %v"
                      [box a; box b; box delta]) [];
              Fail])
  else (Returned tt, t ++ [Helper]).
Proof.
  intros Ed Ez Ea Eb. unfold test.InDelta. cbv zeta.
  rewrite Ed, Ez, Ea, Eb. simpl.
  destruct (go_lt (go_sub a b) (go_neg delta) || go_gt (go_sub a b) delta);
    run_go; reflexivity.
Qed.

Lemma InDelta_passes_iff ext {N} `{Any N} `{Number N} (a b delta : N) t :
  test.Numeric delta = true -> go_le delta go_zero = false ->
  test.Numeric a = true -> test.Numeric b = true ->
  (passes (test.InDelta ext a b delta) t <->
   go_lt (go_sub a b) (go_neg delta) || go_gt (go_sub a b) delta = false).
Proof.
  intros Ed Ez Ea Eb. unfold passes.
  rewrite (InDelta_after_preconditions ext a b delta t Ed Ez Ea Eb).
  destruct (go_lt (go_sub a b) (go_neg delta) || go_gt (go_sub a b) delta).
  - split; [|discriminate]. intros F. apply (f_equal snd) in F. simpl in F.
    apply app_inv_head in F. discriminate.
  - split; reflexivity.
Qed.

(** Integer types *)

Lemma wrap_signed_in_range k z :
  signed k = true -> 0 < bits k -> in_range k z -> wrap k z = z.
Proof.
  unfold wrap, in_range. intros -> Hb Hr.
  assert (E : 2 ^ bits k = 2 * 2 ^ (bits k - 1)).
  { rewrite <- Z.pow_succ_r by lia. f_equal. lia. }
  rewrite Z.mod_small by lia. lia.
Qed.

(** Floats *)

Lemma SFcompare_swap x y :
  SFcompare y x = option_map CompOpp (SFcompare x y).
Proof.
  destruct x as [sx|sx| |sx mx ex], y as [sy|sy| |sy my ey]; simpl;
    try reflexivity;
    try (destruct sx; reflexivity);
    try (destruct sy; reflexivity);
    try (destruct sx, sy; reflexivity).
  destruct sx, sy; simpl; try reflexivity;
    rewrite (Z.compare_antisym ex ey);
    destruct (ex ?= ey); simpl; try reflexivity;
    rewrite (Pos.compare_cont_antisym mx my Datatypes.Eq); reflexivity.
Qed.

Lemma SFltb_false_iff_SFleb x y :
  math_IsNaN x = false -> math_IsNaN y = false ->
  (SFltb x y = false <-> SFleb y x = true).
Proof.
  intros Hx Hy. unfold SFltb, SFleb. rewrite (SFcompare_swap x y).
  destruct x, y; try discriminate; simpl;
    repeat match goal with
           | |- context [match ?c with _ => _ end] => destruct c; simpl
           end; split; congruence.
Qed.

Lemma iter_pos_preserves {A} (P : A -> Prop) (f : A -> A) :
  (forall x, P x -> P (f x)) -> forall n x, P x -> P (iter_pos f n x).
Proof.
  intros Hf. induction n as [n IH|n IH|]; intros x Hx; simpl.
  - apply IH, IH, Hf, Hx.
  - apply IH, IH, Hx.
  - apply Hf, Hx.
Qed.

Lemma shr_1_nonneg mrs : 0 <= shr_m mrs -> 0 <= shr_m (shr_1 mrs).
Proof.
  destruct mrs as [m r s]. simpl.
  destruct m as [|[p|p|]|p]; simpl; lia.
Qed.

Lemma shr_nonneg mrs e n : 0 <= shr_m mrs -> 0 <= shr_m (fst (shr mrs e n)).
Proof.
  intros Hm. unfold shr. destruct n; simpl; try exact Hm.
  apply (iter_pos_preserves (fun x => 0 <= shr_m x)); [apply shr_1_nonneg|exact Hm].
Qed.

Lemma shr_fexp_nonneg m e l :
  0 <= m -> 0 <= shr_m (fst (shr_fexp f64_prec f64_emax m e l)).
Proof.
  intros Hm. unfold shr_fexp. apply shr_nonneg.
  destruct l as [|[]]; exact Hm.
Qed.

Lemma round_nearest_even_nonneg m l : 0 <= m -> 0 <= round_nearest_even m l.
Proof.
  intros Hm. unfold round_nearest_even.
  destruct l as [|[]]; try destruct (Z.even m); lia.
Qed.

Lemma binary_round_aux_not_nan s m e l :
  0 <= m -> math_IsNaN (binary_round_aux f64_prec f64_emax s m e l) = false.
Proof.
  intros Hm. unfold binary_round_aux.
  pose proof (shr_fexp_nonneg m e l Hm) as H1.
  destruct (shr_fexp f64_prec f64_emax m e l) as [mrs' e'].
  simpl in H1.
  pose proof (shr_fexp_nonneg
                (round_nearest_even (shr_m mrs') (loc_of_shr_record mrs'))
                e' loc_Exact (round_nearest_even_nonneg _ _ H1)) as H2.
  destruct (shr_fexp f64_prec f64_emax _ e' loc_Exact) as [mrs'' e''].
  simpl in H2.
  destruct (shr_m mrs'') as [|p|p]; try reflexivity.
  - destruct (e'' <=? f64_emax - f64_prec); reflexivity.
  - lia.
Qed.

Lemma binary_normalize_not_nan m e z :
  math_IsNaN (binary_normalize f64_prec f64_emax m e z) = false.
Proof.
  unfold binary_normalize, binary_round.
  destruct m as [|p|p]; try reflexivity;
    destruct (shl_align p e _) as [mz ez];
    apply binary_round_aux_not_nan; lia.
Qed.

Lemma SFsub_finite_not_nan a b :
  is_finite a = true -> is_finite b = true ->
  math_IsNaN (SFsub f64_prec f64_emax a b) = false.
Proof.
  destruct a as [sa|sa| |sa ma ea], b as [sb|sb| |sb mb eb];
    try discriminate; intros _ _; simpl;
    try reflexivity;
    try (destruct sa, sb; reflexivity).
  apply binary_normalize_not_nan.
Qed.

Lemma Numeric_finite_float (f : float64) :
  is_finite f = true -> test.Numeric f = true.
Proof. destruct f as [s|s| |s m e]; try discriminate; reflexivity. Qed.

Lemma finite_not_nan (f : float64) : is_finite f = true -> math_IsNaN f = false.
Proof. destruct f; try discriminate; reflexivity. Qed.

Lemma SFopp_not_nan (f : float64) :
  math_IsNaN f = false -> math_IsNaN (SFopp f) = false.
Proof. destruct f; try discriminate; reflexivity. Qed.

(** The conversion of a 64-bit integer to [float64] is finite. *)
Lemma digits2_pos_size p : digits2_pos p = Pos.size p.
Proof. induction p; simpl; congruence. Qed.

Lemma Zdigits2_le m n : 0 <= m < 2 ^ n -> 0 <= n -> Zdigits2 m <= n.
Proof.
  intros [H0 H1] Hn. destruct m as [|p|p]; simpl; try lia.
  rewrite digits2_pos_size.
  pose proof (Pos.size_le p) as H.
  apply Pos2Z.pos_le_pos in H. rewrite Pos2Z.inj_pow in H.
  change (Z.pos p~0) with (2 * Z.pos p) in H.
  assert (2 ^ Z.pos (Pos.size p) < 2 ^ (n + 1)).
  { rewrite Z.pow_add_r by lia. lia. }
  apply Z.pow_lt_mono_r_iff in H2; lia.
Qed.

Lemma shr_1_le M mrs :
  0 <= shr_m mrs <= M -> 0 <= shr_m (shr_1 mrs) <= M.
Proof.
  destruct mrs as [m r s]. simpl.
  destruct m as [|[p|p|]|p]; simpl; lia.
Qed.

Lemma shr_le M mrs e n :
  0 <= shr_m mrs <= M -> 0 <= shr_m (fst (shr mrs e n)) <= M.
Proof.
  intros Hm. unfold shr. destruct n; simpl; try exact Hm.
  apply (iter_pos_preserves (fun x => 0 <= shr_m x <= M)); [apply shr_1_le|exact Hm].
Qed.

Lemma shr_record_of_loc_m m l : shr_m (shr_record_of_loc m l) = m.
Proof. destruct l as [|[]]; reflexivity. Qed.

Lemma shr_fexp_le m e l :
  0 <= m ->
  0 <= shr_m (fst (shr_fexp f64_prec f64_emax m e l)) <= m.
Proof.
  intros Hm. unfold shr_fexp. apply shr_le. rewrite shr_record_of_loc_m. lia.
Qed.

Lemma shr_fexp_exponent m e l :
  snd (shr_fexp f64_prec f64_emax m e l)
  = Z.max e (fexp f64_prec f64_emax (Zdigits2 m + e)).
Proof.
  unfold shr_fexp, shr.
  destruct (fexp f64_prec f64_emax (Zdigits2 m + e) - e) eqn:E; simpl; lia.
Qed.

Lemma round_nearest_even_le m l : round_nearest_even m l <= m + 1.
Proof.
  unfold round_nearest_even. destruct l as [|[]]; try destruct (Z.even m); lia.
Qed.

Lemma fexp_le x : fexp f64_prec f64_emax x = Z.max (x - 53) (-1074).
Proof. reflexivity. Qed.

Lemma binary_round_aux_finite s m e :
  0 <= m < 2 ^ 64 -> -1074 <= e <= 0 ->
  is_finite (binary_round_aux f64_prec f64_emax s m e loc_Exact) = true.
Proof.
  intros Hm He. unfold binary_round_aux.
  pose proof (shr_fexp_le m e loc_Exact (proj1 Hm)) as H1.
  pose proof (shr_fexp_exponent m e loc_Exact) as E1.
  destruct (shr_fexp f64_prec f64_emax m e loc_Exact) as [mrs' e'].
  simpl in H1, E1.
  set (mr := round_nearest_even (shr_m mrs') (loc_of_shr_record mrs')).
  assert (Hr : 0 <= mr < 2 ^ 65).
  { split; [apply round_nearest_even_nonneg; lia|].
    pose proof (round_nearest_even_le (shr_m mrs') (loc_of_shr_record mrs')).
    fold mr in H. change (2 ^ 65) with (2 * 2 ^ 64). lia. }
  pose proof (shr_fexp_le mr e' loc_Exact (proj1 Hr)) as H2.
  pose proof (shr_fexp_exponent mr e' loc_Exact) as E2.
  destruct (shr_fexp f64_prec f64_emax mr e' loc_Exact) as [mrs'' e''].
  simpl in H2, E2.
  pose proof (Zdigits2_le m 64 Hm ltac:(lia)) as D1.
  pose proof (Zdigits2_le mr 65 Hr ltac:(lia)) as D2.
  rewrite fexp_le in E1, E2.
  destruct (shr_m mrs'') as [|p|p]; try reflexivity; [|lia].
  assert (Hle : (e'' <=? f64_emax - f64_prec) = true).
  { apply Z.leb_le. unfold f64_emax, f64_prec. lia. }
  rewrite Hle. reflexivity.
Qed.

Lemma pos_iter_xO m d : Z.pos (Pos.iter xO m d) = Z.pos m * 2 ^ Z.pos d.
Proof.
  induction d as [|d IH] using Pos.peano_ind.
  - simpl. lia.
  - rewrite Pos.iter_succ, Pos2Z.inj_xO, IH, Pos2Z.inj_succ, Z.pow_succ_r by lia.
    lia.
Qed.

Lemma digits2_pos_gt p : Z.pos p < 2 ^ Z.pos (digits2_pos p).
Proof.
  rewrite digits2_pos_size. pose proof (Pos.size_gt p) as H.
  apply Pos2Z.pos_lt_pos in H. now rewrite Pos2Z.inj_pow in H.
Qed.

Lemma binary_round_finite s m :
  Z.pos m < 2 ^ 64 ->
  is_finite (binary_round f64_prec f64_emax s m 0) = true.
Proof.
  intros Hm. unfold binary_round, shl_align.
  rewrite fexp_le.
  pose proof (digits2_pos_gt m) as Hd.
  set (d := Z.pos (digits2_pos m)) in *.
  assert (Hd1 : 1 <= d) by (unfold d; lia).
  destruct (Z.max (d + 0 - 53) (-1074) - 0) as [|q|q] eqn:E;
    try (apply binary_round_aux_finite; lia).
  apply binary_round_aux_finite; [|lia].
  split; [lia|]. rewrite pos_iter_xO.
  assert (Eq : Z.pos q = 53 - d) by lia.
  rewrite Eq.
  assert (Z.pos m * 2 ^ (53 - d) < 2 ^ d * 2 ^ (53 - d)).
  { apply Z.mul_lt_mono_pos_r; [apply Z.pow_pos_nonneg; lia | exact Hd]. }
  rewrite <- Z.pow_add_r in H by lia.
  replace (d + (53 - d)) with 53 in H by lia.
  assert (2 ^ 53 < 2 ^ 64) by (apply Z.pow_lt_mono_r; lia).
  lia.
Qed.

Lemma f64_of_Z_finite z :
  Z.abs z < 2 ^ 64 ->
  is_finite (binary_normalize f64_prec f64_emax z 0 false) = true.
Proof.
  intros Hz. unfold binary_normalize.
  destruct z as [|p|p]; [reflexivity| |]; apply binary_round_finite; lia.
Qed.

Lemma is_finite_Numeric (f : float64) :
  is_finite f = true ->
  (if math_IsNaN f then false else if math_IsInf f 0 then false else true) = true.
Proof. destruct f as [s|s| |s m e]; try discriminate; reflexivity. Qed.

(** [Numeric] is true of every value of an integer type of at most 64
    bits. *)
Lemma Numeric_int k z :
  0 < bits k <= 64 -> in_range k z -> @test.Numeric Z (Number_int k) z = true.
Proof.
  intros Hb Hr. unfold test.Numeric. simpl.
  apply is_finite_Numeric, f64_of_Z_finite.
  assert (P1 : 2 ^ (bits k - 1) <= 2 ^ 63) by (apply Z.pow_le_mono_r; lia).
  assert (P2 : 2 ^ bits k <= 2 ^ 64) by (apply Z.pow_le_mono_r; lia).
  assert (P3 : 2 ^ 63 < 2 ^ 64) by (apply Z.pow_lt_mono_r; lia).
  unfold in_range in Hr. destruct (signed k); lia.
Qed.

(** For finite floats and a positive [delta], [InDelta] passes exactly
    when the float64 difference lies between [-delta] and [delta]. *)
Lemma InDelta_float64_iff ext (a b delta : float64) t :
  is_finite a = true -> is_finite b = true -> is_finite delta = true ->
  go_le delta go_zero = false ->
  (passes (test.InDelta ext a b delta) t <-> within_float64 a b delta).
Proof.
  intros Fa Fb Fd Hpos.
  rewrite (InDelta_passes_iff ext a b delta t
             (Numeric_finite_float _ Fd) Hpos
             (Numeric_finite_float _ Fa) (Numeric_finite_float _ Fb)).
  unfold within_float64. simpl.
  pose proof (SFsub_finite_not_nan a b Fa Fb) as Hd.
  pose proof (finite_not_nan delta Fd) as Hn.
  rewrite orb_false_iff.
  rewrite (SFltb_false_iff_SFleb _ _ Hd (SFopp_not_nan _ Hn)).
  rewrite (SFltb_false_iff_SFleb _ _ Hn Hd).
  reflexivity.
Qed.

(** For a signed integer type, a positive [delta] and a difference
    [a - b] that the type can hold, [InDelta] passes exactly when
    [-delta <= a - b <= delta]. *)
Lemma InDelta_signed_iff ext (k : int_kind) (a b delta : Z) t :
  signed k = true -> 0 < bits k <= 64 ->
  in_range k a -> in_range k b -> in_range k delta ->
  in_range k (a - b) -> 0 < delta ->
  (passes (@test.InDelta ext Z (Any_int k) (Number_int k) a b delta) t
   <-> within_exact a b delta).
Proof.
  intros Hs Hb Ra Rb Rd Rdiff Hpos.
  assert (Hz : @go_le Z (@number_ordered Z (Number_int k)) delta
                 (@go_zero Z (Number_int k)) = false).
  { simpl. apply Z.leb_gt. exact Hpos. }
  rewrite (@InDelta_passes_iff ext Z (Any_int k) (Number_int k) a b delta t
             (Numeric_int k delta Hb Rd) Hz
             (Numeric_int k a Hb Ra) (Numeric_int k b Hb Rb)).
  simpl. rewrite (wrap_signed_in_range k (a - b) Hs (proj1 Hb) Rdiff).
  assert (Rn : in_range k (- delta)).
  { unfold in_range in *. rewrite Hs in *. lia. }
  rewrite (wrap_signed_in_range k (- delta) Hs (proj1 Hb) Rn).
  unfold within_exact. rewrite orb_false_iff, Z.ltb_ge, Z.gtb_ltb, Z.ltb_ge.
  reflexivity.
Qed.

(** C2 (amended).  For a signed integer type, a positive [delta] and a
    difference [a - b] that the type can hold, [InDelta] passes exactly
    when [-delta <= a - b <= delta] in exact arithmetic; the two bounds
    pass.  For finite [float64] operands and a positive [delta],
    [InDelta] passes exactly when the float64 difference (the exact
    difference rounded to the nearest float) lies between [-delta] and
    [delta]. *)
Theorem InDelta_within_machine_delta ext (k : int_kind) (a b delta : Z)
    (fa fb fdelta : float64) (t : T) :
  signed k = true -> 0 < bits k <= 64 ->
  in_range k a -> in_range k b -> in_range k delta ->
  in_range k (a - b) -> 0 < delta ->
  is_finite fa = true -> is_finite fb = true -> is_finite fdelta = true ->
  go_le fdelta go_zero = false ->
  (passes (@test.InDelta ext Z (Any_int k) (Number_int k) a b delta) t
   <-> within_exact a b delta) /\
  (a - b = delta \/ a - b = - delta ->
   passes (@test.InDelta ext Z (Any_int k) (Number_int k) a b delta) t) /\
  (passes (test.InDelta ext fa fb fdelta) t <-> within_float64 fa fb fdelta).
Proof.
  intros Hs Hb Ra Rb Rd Rdiff Hpos Fa Fb Fd Fpos.
  pose proof (InDelta_signed_iff ext k a b delta t Hs Hb Ra Rb Rd Rdiff Hpos)
    as Hint.
  split; [exact Hint|]. split.
  - intros Hbound. apply Hint. unfold within_exact. lia.
  - now apply InDelta_float64_iff.
Qed.

Lemma InDelta_within_machine_delta_witness :
  (passes (@test.InDelta Reference.ext Z (Any_int go_int8)
             (Number_int go_int8) 5 3 2) []
   <-> within_exact 5 3 2) /\
  (5 - 3 = 2 \/ 5 - 3 = - 2 ->
   passes (@test.InDelta Reference.ext Z (Any_int go_int8)
             (Number_int go_int8) 5 3 2) []) /\
  (passes (test.InDelta Reference.ext two53 minus_one two53) []
   <-> within_float64 two53 minus_one two53).
Proof.
  apply (InDelta_within_machine_delta Reference.ext go_int8 5 3 2
           two53 minus_one two53 []);
    try reflexivity; unfold in_range; simpl; lia.
Defined.

(** C2 (counterexample).  With the floats [a = 2^53], [b = -1] and
    [delta = 2^53], all finite and [delta] positive, the exact
    difference [2^53 + 1] exceeds [delta], but the float64 difference
    rounds to [2^53] and [InDelta] passes.  With the [int8] values
    [a = 127], [b = -128] and [delta = 1] the exact difference is 255,
    the [int8] difference wraps to [-1], and [InDelta] passes. *)
Lemma InDelta_exact_counterexample :
  (is_finite two53 = true /\ is_finite minus_one = true /\
   go_lt go_zero two53 = true) /\
  (forall ext t, passes (test.InDelta ext two53 minus_one two53) t) /\
  ~ within_exact_float two53 minus_one two53 /\
  (in_range go_int8 127 /\ in_range go_int8 (-128) /\ in_range go_int8 1) /\
  (forall ext t,
      passes (@test.InDelta ext Z (Any_int go_int8) (Number_int go_int8)
                127 (-128) 1) t) /\
  ~ within_exact 127 (-128) 1.
Proof.
  split; [repeat split|]. split; [intros ext t; reflexivity|].
  split.
  { unfold within_exact_float, dyadic_le, dyadic_sub, dyadic_opp. simpl.
    intros [_ H]. revert H. vm_compute. intros H. apply H. reflexivity. }
  split; [unfold in_range; simpl; lia|].
  split; [intros ext t; reflexivity|].
  unfold within_exact. lia.
Qed.

(** With an unsigned type, [-delta] wraps around to a large value: two
    equal operands are reported as too far apart. *)
Example InDelta_unsigned_equal_operands ext (t : T) :
  reports ext
    (@test.InDelta ext Z (Any_int go_uint8) (Number_int go_uint8) 3 3 1) t []
    ";; %v and %v not within %v"
    [VInt go_uint8 3; VInt go_uint8 3; VInt go_uint8 1] /\
  within_exact 3 3 1.
Proof.
  split; [|unfold within_exact; lia].
  unfold test.InDelta. run_go. reflexivity.
Qed.

(** *** The reference comparators on a value and itself *)

Lemma SFeqb_self f : SFeqb f f = negb (math_IsNaN f).
Proof.
  unfold SFeqb. destruct f as [s|s| |s m e]; simpl; try reflexivity.
  - destruct s; reflexivity.
  - destruct s; rewrite Z.compare_refl, Pos.compare_cont_refl; reflexivity.
Qed.

Lemma int_kind_eqb_refl k : Reference.int_kind_eqb k k = true.
Proof.
  unfold Reference.int_kind_eqb. rewrite Z.eqb_refl.
  now destruct (signed k).
Qed.

Lemma good_slice l : good (VSlice l) = forallb good l.
Proof.
  unfold good. simpl. induction l as [|v l IH]; [reflexivity|].
  simpl. rewrite <- IH. fold (good v). unfold good.
  destruct (has_nan v), (has_func v), (existsb has_nan l), (existsb has_func l);
    reflexivity.
Qed.

Lemma good_entries (es : list (string * value)) :
  negb (existsb (fun kv => has_nan (snd kv)) es
        || existsb (fun kv => has_func (snd kv)) es)
  = forallb (fun kv => good (snd kv)) es.
Proof.
  induction es as [|[k v] es IH]; [reflexivity|].
  simpl. rewrite <- IH. unfold good.
  destruct (has_nan v), (has_func v),
    (existsb (fun kv => has_nan (snd kv)) es),
    (existsb (fun kv => has_func (snd kv)) es); reflexivity.
Qed.

Lemma elements_equal_self l :
  Forall self_equal l -> forallb well_formed l = true ->
  (forall r, Reference.elements_equal Reference.Equal l l = Returned r ->
             r = forallb good l) /\
  (forallb transparent l = true ->
   exists r, Reference.elements_equal Reference.Equal l l = Returned r).
Proof.
  induction 1 as [|v l Hv Hl IH]; simpl.
  - intros _. split; [now intros r [= <-]|]. intros _. now exists true.
  - intros W. apply andb_prop in W. destruct W as [Wv Wl].
    destruct (Hv Wv) as [V1 V2]. destruct (IH Wl) as [L1 L2].
    split.
    + intros r. destruct (Reference.Equal v v) as [rv|]; [|discriminate].
      simpl. destruct (Reference.elements_equal Reference.Equal l l) as [rl|];
        [|discriminate].
      simpl. intros [= <-]. now rewrite (V1 rv eq_refl), (L1 rl eq_refl).
    + intros Tr. apply andb_prop in Tr. destruct Tr as [Tv Tl].
      destruct (V2 Tv) as [rv ->]. destruct (L2 Tl) as [rl ->].
      simpl. eauto.
Qed.

Lemma lookup_head k v es : Reference.lookup k ((k, v) :: es) = Some v.
Proof. simpl. now rewrite String.eqb_refl. Qed.

Lemma lookup_tail k k' v es :
  mem_string k' (k :: nil) = false ->
  Reference.lookup k' ((k, v) :: es) = Reference.lookup k' es.
Proof.
  unfold mem_string. simpl. rewrite orb_false_r. intros H.
  rewrite String.eqb_sym. now rewrite H.
Qed.

Lemma not_mem_neq k0 k l :
  mem_string k0 l = false -> In k l -> String.eqb k0 k = false.
Proof.
  unfold mem_string. intros Hm Hin.
  destruct (String.eqb k0 k) eqn:E; [|reflexivity].
  assert (existsb (String.eqb k0) l = true) as F.
  { apply existsb_exists. exists k. split; assumption. }
  congruence.
Qed.

Lemma lookup_distinct es :
  distinct (map fst es) = true ->
  forall k v, In (k, v) es -> Reference.lookup k es = Some v.
Proof.
  induction es as [|[k0 v0] es IH]; simpl; [intros _ k v []|].
  intros D k v Hin. apply andb_prop in D. destruct D as [D0 D].
  apply negb_true_iff in D0.
  destruct Hin as [[= -> ->]|Hin].
  - now rewrite String.eqb_refl.
  - rewrite (not_mem_neq k0 k (map fst es) D0).
    + now apply IH.
    + apply (in_map fst) in Hin. exact Hin.
Qed.

Lemma entries_equal_self es rest :
  Forall (fun kv => self_equal (snd kv)) rest ->
  forallb (fun kv => well_formed (snd kv)) rest = true ->
  (forall k v, In (k, v) rest -> Reference.lookup k es = Some v) ->
  (forall r, Reference.entries_equal Reference.Equal es rest = Returned r ->
             r = forallb (fun kv => good (snd kv)) rest) /\
  (forallb (fun kv => transparent (snd kv)) rest = true ->
   exists r, Reference.entries_equal Reference.Equal es rest = Returned r).
Proof.
  induction 1 as [|[k v] rest Hv Hl IH]; simpl.
  - intros _ _. split; [now intros r [= <-]|]. intros _. now exists true.
  - intros W L. apply andb_prop in W. destruct W as [Wv Wl].
    simpl in Hv. destruct (Hv Wv) as [V1 V2].
    destruct (IH Wl (fun k' v' H => L k' v' (or_intror H))) as [L1 L2].
    rewrite (L k v (or_introl eq_refl)).
    split.
    + intros r. destruct (Reference.Equal v v) as [rv|]; [|discriminate].
      simpl. destruct (Reference.entries_equal Reference.Equal es rest) as [rl|];
        [|discriminate].
      simpl. intros [= <-]. now rewrite (V1 rv eq_refl), (L1 rl eq_refl).
    + intros Tr. apply andb_prop in Tr. destruct Tr as [Tv Tl].
      destruct (V2 Tv) as [rv ->]. destruct (L2 Tl) as [rl ->].
      simpl. eauto.
Qed.

Lemma fields_equal_self fs :
  Forall (fun kv => self_equal (snd kv)) fs ->
  forallb (fun kv => well_formed (snd kv)) fs = true ->
  (forall r, Reference.fields_equal Reference.Equal fs fs = Returned r ->
             r = forallb (fun kv => good (snd kv)) fs) /\
  (forallb (fun kv => exported (fst kv) && transparent (snd kv)) fs = true ->
   exists r, Reference.fields_equal Reference.Equal fs fs = Returned r).
Proof.
  induction 1 as [|[k v] rest Hv Hl IH]; simpl.
  - intros _. split; [now intros r [= <-]|]. intros _. now exists true.
  - intros W. apply andb_prop in W. destruct W as [Wv Wl].
    simpl in Hv. destruct (Hv Wv) as [V1 V2]. destruct (IH Wl) as [L1 L2].
    rewrite String.eqb_refl. simpl.
    split.
    + intros r. destruct (exported k); simpl; [|discriminate].
      destruct (Reference.Equal v v) as [rv|]; [|discriminate].
      simpl. destruct (Reference.fields_equal Reference.Equal rest rest) as [rl|];
        [|discriminate].
      simpl. intros [= <-]. now rewrite (V1 rv eq_refl), (L1 rl eq_refl).
    + intros Tr. apply andb_prop in Tr. destruct Tr as [Tv Tl].
      apply andb_prop in Tv. destruct Tv as [Te Tv]. rewrite Te. simpl.
      destruct (V2 Tv) as [rv ->]. destruct (L2 Tl) as [rl ->].
      simpl. eauto.
Qed.

Lemma Equal_self x : self_equal x.
Proof.
  induction x using value_nested_ind; unfold self_equal; simpl; intros W.
  - split; [now intros r [= <-]|eauto].
  - split; [intros r [= <-]; now rewrite Bool.eqb_reflx|eauto].
  - split; [intros r [= <-]; now rewrite int_kind_eqb_refl, Z.eqb_refl|eauto].
  - split; [intros r [= <-]|eauto]. unfold good. simpl.
    rewrite orb_false_r. apply SFeqb_self.
  - split; [intros r [= <-]; now rewrite String.eqb_refl|eauto].
  - split; [discriminate|discriminate].
  - split; [intros r [= <-]|eauto]. now destruct c.
  - split; [now intros r [= <-]|eauto].
  - exact (IHx W).
  - split; [now intros r [= <-]|eauto].
  - destruct (elements_equal_self l H W) as [L1 L2].
    split; [|exact L2]. intros r Hr. rewrite good_slice. now apply L1.
  - split; [now intros r [= <-]|eauto].
  - apply andb_prop in W. destruct W as [D W].
    destruct (entries_equal_self es es H W (lookup_distinct es D)) as [L1 L2].
    split.
    + intros r. destruct (Reference.entries_equal Reference.Equal es es) as [re|];
        [|discriminate].
      simpl. intros [= <-]. rewrite Nat.eqb_refl, andb_true_r.
      unfold good. simpl. rewrite good_entries. now apply L1.
    + intros Tr. destruct (L2 Tr) as [re ->]. simpl. eauto.
  - rewrite String.eqb_refl. simpl.
    destruct (fields_equal_self fs H W) as [L1 L2].
    split; [|exact L2]. intros r Hr. unfold good. simpl.
    rewrite good_entries. now apply L1.
Qed.

Lemma error_eqb_refl : forall e, Reference.error_eqb e e = true.
Proof.
  fix IH 1. intros [m [c|]]; simpl; rewrite String.eqb_refl; simpl;
    [apply IH | reflexivity].
Qed.

Lemma elements_deep_self l :
  Forall self_deep l -> forallb well_formed l = true ->
  existsb has_nan l = false -> existsb has_func l = false ->
  Reference.elements_deep Reference.DeepEqual l l = true.
Proof.
  induction 1 as [|v l Hv Hl IH]; simpl; [reflexivity|].
  intros W N F. apply andb_prop in W. destruct W as [Wv Wl].
  apply orb_false_elim in N. destruct N as [Nv Nl].
  apply orb_false_elim in F. destruct F as [Fv Fl].
  now rewrite (Hv Wv Nv Fv), (IH Wl Nl Fl).
Qed.

Lemma entries_deep_self es rest :
  Forall (fun kv => self_deep (snd kv)) rest ->
  forallb (fun kv => well_formed (snd kv)) rest = true ->
  existsb (fun kv => has_nan (snd kv)) rest = false ->
  existsb (fun kv => has_func (snd kv)) rest = false ->
  (forall k v, In (k, v) rest -> Reference.lookup k es = Some v) ->
  Reference.entries_deep Reference.DeepEqual es rest = true.
Proof.
  induction 1 as [|[k v] rest Hv Hl IH]; simpl; [reflexivity|].
  intros W N F L. apply andb_prop in W. destruct W as [Wv Wl].
  apply orb_false_elim in N. destruct N as [Nv Nl].
  apply orb_false_elim in F. destruct F as [Fv Fl].
  simpl in Hv. rewrite (L k v (or_introl eq_refl)), (Hv Wv Nv Fv).
  apply (IH Wl Nl Fl). intros k' v' H. apply L. now right.
Qed.

Lemma fields_deep_self fs :
  Forall (fun kv => self_deep (snd kv)) fs ->
  forallb (fun kv => well_formed (snd kv)) fs = true ->
  existsb (fun kv => has_nan (snd kv)) fs = false ->
  existsb (fun kv => has_func (snd kv)) fs = false ->
  Reference.fields_deep Reference.DeepEqual fs fs = true.
Proof.
  induction 1 as [|[k v] rest Hv Hl IH]; simpl; [reflexivity|].
  intros W N F. apply andb_prop in W. destruct W as [Wv Wl].
  apply orb_false_elim in N. destruct N as [Nv Nl].
  apply orb_false_elim in F. destruct F as [Fv Fl].
  simpl in Hv. now rewrite String.eqb_refl, (Hv Wv Nv Fv), (IH Wl Nl Fl).
Qed.

Lemma DeepEqual_self x : self_deep x.
Proof.
  induction x using value_nested_ind; unfold self_deep; simpl; intros W N F;
    try reflexivity.
  - apply Bool.eqb_reflx.
  - now rewrite int_kind_eqb_refl, Z.eqb_refl.
  - rewrite SFeqb_self, N. reflexivity.
  - apply String.eqb_refl.
  - apply error_eqb_refl.
  - destruct c; [discriminate|reflexivity].
  - exact (IHx W N F).
  - now apply elements_deep_self.
  - apply andb_prop in W. destruct W as [D W].
    rewrite Nat.eqb_refl. simpl.
    apply entries_deep_self; try assumption. now apply lookup_distinct.
  - rewrite String.eqb_refl. simpl. now apply fields_deep_self.
Qed.

(** The stand-ins keep the promises of the libraries. *)
Lemma Reference_contract : LibraryContract Reference.ext.
Proof.
  constructor; simpl.
  - reflexivity.
  - intros x r N F W H. destruct (Equal_self x W) as [E _].
    rewrite (E r H). unfold good. now rewrite N, F.
  - intros x N F W. now apply DeepEqual_self.
  - intros x y H. unfold Reference.Diff. now rewrite H.
  - intros x y p H. unfold Reference.Diff. rewrite H. simpl. eauto.
Qed.

(** *** Eq on a value and itself *)








(** *** diff on equal values *)

Lemma diff_of_returned ext {A B} `{Any A} `{Any B} (a : A) (b : B) d :
  cmp_Diff ext (box a) (box b) = Returned d ->
  test.diff ext a b = Returned ("difference!" +++ nl +++ d)%string.
Proof. unfold test.diff, with_deferred. now intros ->. Qed.

Lemma diff_of_panicked ext {A B} `{Any A} `{Any B} (a : A) (b : B) p :
  cmp_Diff ext (box a) (box b) = Panicked p ->
  test.diff ext a b
  = Returned (fmt_Sprintf ext
                ("difference!" +++ nl +++ "a: %#v" +++ nl +++ "b: %#v" +++ nl)%string
                [box a; box b]).
Proof. unfold test.diff, with_deferred. now intros ->. Qed.

Lemma Sprintf_literal_char (c : ascii) (rest : string) (args : list any) :
  c <> "%"%char ->
  Reference.Sprintf (String c rest) args
  = String c (Reference.Sprintf rest args).
Proof.
  intros Hc.
  destruct c as [[] [] [] [] [] [] [] []]; try reflexivity.
  contradiction Hc. reflexivity.
Qed.

Lemma Reference_Sprintf_copies_literal : Sprintf_copies_literal Reference.ext.
Proof.
  intros c rest args Hc. exists (Reference.Sprintf rest args).
  exact (Sprintf_literal_char c rest args Hc).
Qed.

Lemma diff_never_empty ext {A B} `{Any A} `{Any B} (a : A) (b : B) d :
  Sprintf_copies_literal ext ->
  test.diff ext a b = Returned d -> d <> EmptyString.
Proof.
  intros S E.
  destruct (cmp_Diff ext (box a) (box b)) as [s|p] eqn:Ec.
  - rewrite (diff_of_returned ext a b s Ec) in E. injection E as <-.
    discriminate.
  - rewrite (diff_of_panicked ext a b p Ec) in E. injection E as <-.
    destruct (S "d"%char
                ("ifference!" +++ nl +++ "a: %#v" +++ nl +++ "b: %#v" +++ nl)%string
                [box a; box b]) as [out Eo]; [discriminate|].
    change (fmt_Sprintf ext
              ("difference!" +++ nl +++ "a: %#v" +++ nl +++ "b: %#v" +++ nl)%string
              [box a; box b] <> EmptyString).
    change ("difference!" +++ nl +++ "a: %#v" +++ nl +++ "b: %#v" +++ nl)%string
      with (String "d"
              ("ifference!" +++ nl +++ "a: %#v" +++ nl +++ "b: %#v" +++ nl))%string.
    rewrite Eo. discriminate.
Qed.

(** C4 (amended).  For all values [diff(a, b)] never panics: it returns
    the banner line ["difference!\n"] followed by [cmp.Diff(a, b)], or,
    when [cmp.Diff] panics, the fallback text that [fmt.Sprintf] makes
    of ["difference!\na: %#v\nb: %#v\n"] and both values; as
    [fmt.Sprintf] copies the literal text of its format, the result is
    never empty.  Under the documented behaviour of go-cmp, whenever
    [equal(a, b)] returns true, [diff(a, b)] returns the banner line
    alone (when [cmp.Equal] returned true, [cmp.Diff] being empty then),
    or the fallback text (when [cmp.Equal] panicked and
    [reflect.DeepEqual] returned true). *)
Theorem diff_of_equal_values ext {A B} `{Any A} `{Any B} (a : A) (b : B) :
  (exists d, test.diff ext a b = Returned d) /\
  (forall d, cmp_Diff ext (box a) (box b) = Returned d ->
             test.diff ext a b = Returned ("difference!" +++ nl +++ d)%string) /\
  (forall p, cmp_Diff ext (box a) (box b) = Panicked p ->
             test.diff ext a b
             = Returned (fmt_Sprintf ext
                           ("difference!" +++ nl +++ "a: %#v" +++ nl +++ "b: %#v" +++ nl)%string
                           [box a; box b])) /\
  (Sprintf_copies_literal ext ->
   forall d, test.diff ext a b = Returned d -> d <> EmptyString) /\
  (LibraryContract ext ->
   test.equal ext a b = Returned true ->
   (cmp_Equal ext (box a) (box b) = Returned true /\
    test.diff ext a b = Returned ("difference!" +++ nl)%string) \/
   ((exists p, cmp_Equal ext (box a) (box b) = Panicked p) /\
    test.diff ext a b
    = Returned (fmt_Sprintf ext
                  ("difference!" +++ nl +++ "a: %#v" +++ nl +++ "b: %#v" +++ nl)%string
                  [box a; box b]))).
Proof.
  split; [|split; [|split; [|split]]].
  - exists (diff_text ext a b). apply diff_returns.
  - intros d. apply diff_of_returned.
  - intros p. apply diff_of_panicked.
  - intros S d. now apply diff_never_empty.
  - intros C E.
    destruct (cmp_Equal ext (box a) (box b)) as [r|p] eqn:Ec.
    + left. rewrite (equal_of_returned ext a b r Ec) in E.
      injection E as ->. split; [reflexivity|].
      now rewrite (diff_of_returned ext a b _ (diff_of_equal ext C _ _ Ec)).
    + right. split; [now exists p|].
      destruct (diff_panics ext C _ _ p Ec) as [p' Hp'].
      exact (diff_of_panicked ext a b p' Hp').
Qed.

Lemma diff_of_equal_values_witness :
  test.diff Reference.ext (VInt go_int 1) (VInt go_int 1)
    = Returned ("difference!" +++ nl)%string /\
  test.diff Reference.ext (opaque 1) (opaque 1)
    = Returned ("difference!" +++ nl +++ "a: {1}" +++ nl +++ "b: {1}" +++ nl)%string /\
  ("difference!" +++ nl +++ "a: {1}" +++ nl +++ "b: {1}" +++ nl)%string
    <> EmptyString.
Proof.
  assert (E1 : test.equal Reference.ext (VInt go_int 1) (VInt go_int 1)
               = Returned true) by reflexivity.
  assert (E2 : test.equal Reference.ext (opaque 1) (opaque 1) = Returned true)
    by reflexivity.
  split; [|split].
  - destruct (proj2 (proj2 (proj2 (proj2
               (diff_of_equal_values Reference.ext (VInt go_int 1)
                  (VInt go_int 1))))) Reference_contract E1)
      as [[_ D]|[[p F] _]]; [exact D | discriminate F].
  - destruct (proj2 (proj2 (proj2 (proj2
               (diff_of_equal_values Reference.ext (opaque 1) (opaque 1)))))
               Reference_contract E2)
      as [[F _]|[_ D]]; [discriminate F | exact D].
  - exact (proj1 (proj2 (proj2 (proj2
             (diff_of_equal_values Reference.ext (opaque 1) (opaque 1)))))
             Reference_Sprintf_copies_literal _ eq_refl).
Defined.

(** C4 (counterexample).  For the equal integers 1 and 1, [equal]
    returns true and [diff] returns the banner line and nothing else,
    for every library that behaves as documented. *)
Lemma diff_of_equal_values_counterexample :
  (forall ext, LibraryContract ext ->
      test.equal ext (VInt go_int 1) (VInt go_int 1) = Returned true /\
      test.diff ext (VInt go_int 1) (VInt go_int 1)
        = Returned ("difference!" +++ nl)%string) /\
  LibraryContract Reference.ext /\
  ("difference!" +++ nl)%string <> EmptyString.
Proof.
  split; [|split; [exact Reference_contract | discriminate]].
  intros ext C.
  assert (E : cmp_Equal ext (VInt go_int 1) (VInt go_int 1) = Returned true).
  { now rewrite (cmp_on_transparent ext C (VInt go_int 1) (VInt go_int 1)
                   eq_refl eq_refl eq_refl eq_refl). }
  split.
  - exact (@equal_of_returned ext any any Any_any Any_any _ _ true E).
  - exact (@diff_of_returned ext any any Any_any Any_any _ _ _
             (diff_of_equal ext C _ _ E)).
Qed.

(** ** Further properties of the assertions *)

(** *** Containment *)

Lemma equal_returns ext {A B} `{Any A} `{Any B} (a : A) (b : B) :
  test.equal ext a b = Returned (equal_result ext a b).
Proof.
  unfold equal_result, test.equal, with_deferred.
  destruct (cmp_Equal ext (box a) (box b)); reflexivity.
Qed.

Lemma skipn_nth_error {A} (l : list A) i x :
  nth_error l i = Some x -> skipn i l = x :: skipn (S i) l.
Proof.
  revert i. induction l as [|y l IH]; intros [|i]; simpl; try discriminate.
  - now intros [= ->].
  - intros H. now rewrite (IH i H).
Qed.

Lemma index_skipn {A} (l : list A) i :
  (i < List.length l)%nat ->
  exists x, index l i = Returned x /\ skipn i l = x :: skipn (S i) l.
Proof.
  intros Hi. unfold index.
  destruct (nth_error l i) as [x|] eqn:E.
  - exists x. split; [reflexivity | now apply skipn_nth_error].
  - apply nth_error_None in E. lia.
Qed.

Lemma contains_loop_scan {C} `{Comparable C} (slice : list C) item n :
  forall i, (i + n = List.length slice)%nat ->
    test.contains_loop slice item n i
    = holds_somewhere (fun x => go_eq x item) (skipn i slice).
Proof.
  induction n as [|n IH]; intros i Hi; simpl.
  - rewrite skipn_all2 by lia. reflexivity.
  - destruct (index_skipn slice i ltac:(lia)) as (x & -> & ->). simpl.
    destruct (go_eq x item) as [[|]|p]; simpl; try reflexivity. apply IH. lia.
Qed.

Lemma contains_scan {C} `{Comparable C} (slice : list C) item :
  test.contains slice item = holds_somewhere (fun x => go_eq x item) slice.
Proof. unfold test.contains. now rewrite contains_loop_scan. Qed.

Lemma containsFunc_loop_scan {A} (slice : list A) item eq n :
  forall i, (i + n = List.length slice)%nat ->
    test.containsFunc_loop slice item eq n i
    = holds_somewhere (fun x => eq x item) (skipn i slice).
Proof.
  induction n as [|n IH]; intros i Hi; simpl.
  - rewrite skipn_all2 by lia. reflexivity.
  - destruct (index_skipn slice i ltac:(lia)) as (x & -> & ->). simpl.
    destruct (eq x item) as [[|]|p]; simpl; try reflexivity. apply IH. lia.
Qed.

Lemma containsFunc_scan {A} (slice : list A) item eq :
  test.containsFunc slice item eq = holds_somewhere (fun x => eq x item) slice.
Proof. unfold test.containsFunc. now rewrite containsFunc_loop_scan. Qed.

Lemma holds_somewhere_first {A} (p : A -> outcome bool) pre x post :
  Forall (fun y => p y = Returned false) pre -> p x = Returned true ->
  holds_somewhere p (pre ++ x :: post) = Returned true.
Proof.
  induction 1 as [|y pre Hy _ IH]; intros Hx; simpl.
  - now rewrite Hx.
  - rewrite Hy. simpl. now apply IH.
Qed.

Lemma holds_somewhere_panics {A} (p : A -> outcome bool) pre x post q :
  Forall (fun y => p y = Returned false) pre -> p x = Panicked q ->
  holds_somewhere p (pre ++ x :: post) = Panicked q.
Proof.
  induction 1 as [|y pre Hy _ IH]; intros Hx; simpl.
  - now rewrite Hx.
  - rewrite Hy. simpl. now apply IH.
Qed.

Lemma holds_somewhere_none {A} (p : A -> outcome bool) l :
  Forall (fun y => p y = Returned false) l ->
  holds_somewhere p l = Returned false.
Proof.
  induction 1 as [|y l Hy _ IH]; simpl; [reflexivity|]. now rewrite Hy.
Qed.

Lemma holds_somewhere_total {A} (p : A -> bool) l :
  holds_somewhere (fun x => Returned (p x)) l = Returned (existsb p l).
Proof.
  induction l as [|x l IH]; simpl; [reflexivity|].
  destruct (p x); [reflexivity | exact IH].
Qed.

(** X3.  [ContainsCmp] compares the elements with the item by [==], in
    order, up to the first one that is equal: it passes when there is
    one, and when there is none (as in an empty slice) it logs the
    missing item and reports.  A panic of [==] on an element reached
    by the scan leaves the assertion, after its call of [Helper]; the
    elements behind the first equal one are not compared. *)
Theorem ContainsCmp_scans_to_first_equal ext {C} `{Any C} `{Comparable C}
    (slice : list C) (item : C) (t : T) :
  match holds_somewhere (fun x => go_eq x item) slice with
  | Returned true => passes (test.ContainsCmp ext slice item) t
  | Returned false =>
      reports ext (test.ContainsCmp ext slice item) t (missing_item item)
        ";; expected slice to contain missing item via == operator" []
  | Panicked p => test.ContainsCmp ext slice item t = (Panicked p, t ++ [Helper])
  end /\
  (forall pre x post,
      slice = pre ++ x :: post ->
      Forall (fun y => go_eq y item = Returned false) pre ->
      (go_eq x item = Returned true ->
       passes (test.ContainsCmp ext slice item) t) /\
      (forall p, go_eq x item = Panicked p ->
       test.ContainsCmp ext slice item t = (Panicked p, t ++ [Helper]))) /\
  (Forall (fun y => go_eq y item = Returned false) slice ->
   reports ext (test.ContainsCmp ext slice item) t (missing_item item)
     ";; expected slice to contain missing item via == operator" []).
Proof.
  assert (G : match holds_somewhere (fun x => go_eq x item) slice with
              | Returned true => passes (test.ContainsCmp ext slice item) t
              | Returned false =>
                  reports ext (test.ContainsCmp ext slice item) t
                    (missing_item item)
                    ";; expected slice to contain missing item via == operator" []
              | Panicked p =>
                  test.ContainsCmp ext slice item t = (Panicked p, t ++ [Helper])
              end).
  { unfold test.ContainsCmp. run_go. rewrite contains_scan.
    destruct (holds_somewhere (fun x => go_eq x item) slice) as [[|]|p];
      run_go; reflexivity. }
  split; [exact G|split].
  - intros pre x post -> Hpre. split.
    + intros Hx.
      now rewrite (holds_somewhere_first (fun y => go_eq y item) pre x post
                     Hpre Hx) in G.
    + intros p Hx.
      now rewrite (holds_somewhere_panics (fun y => go_eq y item) pre x post p
                     Hpre Hx) in G.
  - intros Hall.
    now rewrite (holds_somewhere_none (fun y => go_eq y item) slice Hall) in G.
Qed.

Lemma ContainsCmp_scans_to_first_equal_witness :
  passes (@test.ContainsCmp Reference.ext any Any_any ints_or_slices
            ([VInt go_int 1] ++ VInt go_int 2 :: [VSlice []])
            (VInt go_int 2)) [] /\
  @test.ContainsCmp Reference.ext any Any_any ints_or_slices
    ([VInt go_int 1] ++ VSlice [] :: [VInt go_int 2]) (VSlice []) []
  = (Panicked uncomparable, [Helper]).
Proof.
  split.
  - apply (proj1 (proj2
      (@ContainsCmp_scans_to_first_equal Reference.ext any Any_any
         ints_or_slices
         ([VInt go_int 1] ++ VInt go_int 2 :: [VSlice []]) (VInt go_int 2) []))
      [VInt go_int 1] (VInt go_int 2) [VSlice []] eq_refl).
    + constructor; [reflexivity | constructor].
    + reflexivity.
  - apply (proj1 (proj2
      (@ContainsCmp_scans_to_first_equal Reference.ext any Any_any
         ints_or_slices
         ([VInt go_int 1] ++ VSlice [] :: [VInt go_int 2]) (VSlice []) []))
      [VInt go_int 1] (VSlice []) [VInt go_int 2] eq_refl).
    + constructor; [reflexivity | constructor].
    + reflexivity.
Defined.

(** X4.  [ContainsFunc] and [ContainsEquals] stop at the first match:
    when [eq] is false on the elements before some element and true on
    that element, the assertion passes whatever [eq] would do on the
    elements after it (they are not examined, even if [eq] would panic
    there).  When [eq] is false on every element, the assertion logs
    the missing item and reports.  [ContainsEquals] asks the element
    whether it equals the item. *)
Theorem ContainsFunc_stops_at_first_match ext {A} `{Any A} `{EqualsFunc A}
    (slice : list A) (item : A) (eq : A -> A -> outcome bool) (t : T) :
  (forall pre x post,
      slice = pre ++ x :: post ->
      Forall (fun y => eq y item = Returned false) pre ->
      eq x item = Returned true ->
      passes (test.ContainsFunc ext slice item eq) t) /\
  (Forall (fun y => eq y item = Returned false) slice ->
   reports ext (test.ContainsFunc ext slice item eq) t (missing_item item)
     ";; expected slice to contain missing item via 'eq' function" []) /\
  (forall pre x post,
      slice = pre ++ x :: post ->
      Forall (fun y => method_Equals y item = Returned false) pre ->
      method_Equals x item = Returned true ->
      passes (test.ContainsEquals ext slice item) t) /\
  (Forall (fun y => method_Equals y item = Returned false) slice ->
   reports ext (test.ContainsEquals ext slice item) t (missing_item item)
     ";; expected slice to contain missing item via .Equals method" []).
Proof.
  split; [|split; [|split]].
  - intros pre x post -> Hpre Hx. unfold test.ContainsFunc. run_go.
    rewrite containsFunc_scan, (holds_somewhere_first _ _ _ _ Hpre Hx).
    reflexivity.
  - intros Hall. unfold test.ContainsFunc. run_go.
    rewrite containsFunc_scan, (holds_somewhere_none _ _ Hall). run_go.
    reflexivity.
  - intros pre x post -> Hpre Hx. unfold test.ContainsEquals. run_go.
    rewrite containsFunc_scan,
      (holds_somewhere_first (fun y => method_Equals y item) _ _ _ Hpre Hx).
    reflexivity.
  - intros Hall. unfold test.ContainsEquals. run_go.
    rewrite containsFunc_scan,
      (holds_somewhere_none (fun y => method_Equals y item) _ Hall). run_go.
    reflexivity.
Qed.

Lemma ContainsFunc_stops_at_first_match_witness :
  passes
    (@test.ContainsFunc Reference.ext Z (Any_int go_int) [1; 2; 3] 2
       (fun x y => if x =? 3 then Panicked "late"%string
                   else Returned (x =? y))) [] /\
  reports Reference.ext
    (@test.ContainsFunc Reference.ext Z (Any_int go_int) [1; 2; 3] 4
       (fun x y => Returned (x =? y))) []
    (@missing_item Z (Any_int go_int) 4)
    ";; expected slice to contain missing item via 'eq' function" [].
Proof.
  split.
  - apply (proj1 (@ContainsFunc_stops_at_first_match Reference.ext Z
                    (Any_int go_int) never [1; 2; 3] 2
                    (fun x y => if x =? 3 then Panicked "late"%string
                                else Returned (x =? y)) [])
             [1] 2 [3] eq_refl).
    + repeat constructor.
    + reflexivity.
  - apply (proj1 (proj2 (@ContainsFunc_stops_at_first_match Reference.ext Z
                           (Any_int go_int) never [1; 2; 3] 4
                           (fun x y => Returned (x =? y)) []))).
    repeat constructor.
Defined.

(** X5.  [Contains] passes exactly when [equal] holds between some
    element and the item, and otherwise logs the missing item and
    reports; because it compares with [equal], it returns also when
    [cmp.Equal] panics on the elements. *)
Theorem Contains_iff_some_equal ext {A} `{Any A} (slice : list A) (item : A)
    (t : T) :
  if existsb (fun x => equal_result ext x item) slice
  then passes (test.Contains ext slice item) t
  else reports ext (test.Contains ext slice item) t (missing_item item)
         ";; expected slice to contain missing item via cmp.Equal function" [].
Proof.
  unfold test.Contains. run_go. rewrite containsFunc_scan.
  assert (E' : forall l,
             holds_somewhere (fun x => test.equal ext x item) l
             = holds_somewhere (fun x => Returned (equal_result ext x item)) l).
  { induction l as [|x l IH]; simpl; [reflexivity|].
    now rewrite equal_returns, IH. }
  rewrite E', holds_somewhere_total.
  destruct (existsb (fun x => equal_result ext x item) slice); run_go;
    reflexivity.
Qed.

(** *** Slices compared element by element *)

Lemma not_passes_after_more (m : M unit) t e rest o :
  m t = (o, t ++ Helper :: e :: rest) -> ~ passes m t.
Proof.
  unfold passes. intros E F. rewrite E in F. apply (f_equal snd) in F.
  simpl in F. apply app_inv_head in F. discriminate.
Qed.

Lemma not_passes_panicked (m : M unit) t p t' :
  m t = (Panicked p, t') -> ~ passes m t.
Proof. unfold passes. intros E F. rewrite E in F. discriminate. Qed.

Lemma not_passes_reports ext (m : M unit) t e logs msg args :
  reports ext m t (e :: logs) msg args -> ~ passes m t.
Proof. unfold reports. simpl. apply not_passes_after_more. Qed.

Lemma not_passes_reports_bare ext (m : M unit) t msg args :
  reports ext m t [] msg args -> ~ passes m t.
Proof. unfold reports. simpl. apply not_passes_after_more. Qed.

Lemma first_unequal_none_iff {A} (p : A -> A -> outcome bool) a :
  forall b, List.length a = List.length b ->
    (first_unequal p a b = Returned None
     <-> Forall2 (fun x y => p x y = Returned true) a b).
Proof.
  induction a as [|x a IH]; intros [|y b] Hlen; simpl in *; try discriminate.
  - split; [constructor | reflexivity].
  - injection Hlen as Hlen. specialize (IH b Hlen).
    destruct (p x y) as [[|]|q] eqn:E; simpl.
    + rewrite IH. split; [now constructor|]. now inversion 1.
    + split; [discriminate|]. inversion 1; congruence.
    + split; [discriminate|]. inversion 1; congruence.
Qed.

Lemma first_unequal_at {A} (p : A -> A -> outcome bool) pre pre' x y post post' :
  Forall2 (fun u v => p u v = Returned true) pre pre' ->
  p x y = Returned false ->
  first_unequal p (pre ++ x :: post) (pre' ++ y :: post')
  = Returned (Some (x, y)).
Proof.
  induction 1 as [|u v pre pre' Huv _ IH]; intros Hxy; simpl.
  - now rewrite Hxy.
  - rewrite Huv. simpl. now apply IH.
Qed.

Lemma EqSliceFunc_loop_first_unequal {A} (a b : list A) eq n :
  List.length a = List.length b ->
  forall i, (i + n = List.length a)%nat ->
    test.EqSliceFunc_loop a b eq n i
    = obind (first_unequal eq (skipn i a) (skipn i b))
        (fun o => Returned (match o with Some _ => true | None => false end)).
Proof.
  intros Hlen. induction n as [|n IH]; intros i Hi; simpl.
  - rewrite !skipn_all2 by lia. reflexivity.
  - destruct (index_skipn a i ltac:(lia)) as (x & -> & ->).
    destruct (index_skipn b i ltac:(lia)) as (y & -> & ->). simpl.
    destruct (eq x y) as [[|]|p]; simpl; try reflexivity. apply IH. lia.
Qed.

(** X6.  [EqSliceFunc] passes exactly when the slices have the same
    length and [eq] returns true on every pair of elements at the same
    index; in particular [EqSliceFunc(a, a, eq)] passes when [eq] is
    true of every element and itself. *)
Theorem EqSliceFunc_iff_pairwise ext {A} `{Any A} (a b : list A)
    (eq : A -> A -> outcome bool) (t : T) :
  (passes (test.EqSliceFunc ext a b eq) t
   <-> Forall2 (fun x y => eq x y = Returned true) a b) /\
  ((forall x, In x a -> eq x x = Returned true) ->
   passes (test.EqSliceFunc ext a a eq) t).
Proof.
  assert (G : forall a b : list A,
             passes (test.EqSliceFunc ext a b eq) t
             <-> Forall2 (fun x y => eq x y = Returned true) a b).
  { clear a b. intros a b.
    destruct (Nat.eq_dec (List.length a) (List.length b)) as [Hlen|Hlen].
    - rewrite <- (first_unequal_none_iff eq a b Hlen).
      pose proof (EqSliceFunc_loop_first_unequal a b eq (List.length a) Hlen 0
                    eq_refl) as L.
      simpl in L.
      destruct (first_unequal eq a b) as [[[x y]|]|p] eqn:F; simpl in L.
      + split; [|discriminate]. intros P. exfalso. revert P.
        apply (not_passes_reports ext _ t (Logf (diff_text ext a b) []) []
                 ";; expected slice equality via 'eq' function" []).
        now apply EqSliceFunc_element_mismatch.
      + split; [reflexivity|]. intros _. unfold passes, test.EqSliceFunc.
        run_go. rewrite Hlen, Nat.eqb_refl. run_go. rewrite <- Hlen, L.
        reflexivity.
      + split; [|discriminate]. intros P. exfalso. revert P.
        apply (not_passes_panicked _ t p (t ++ [Helper])).
        unfold test.EqSliceFunc. run_go. rewrite Hlen, Nat.eqb_refl. run_go.
        rewrite <- Hlen, L. reflexivity.
    - split.
      + intros P. exfalso. revert P.
        apply (not_passes_reports ext _ t _ _ _ _
                 (EqSliceFunc_length_mismatch ext a b eq t Hlen)).
      + intros F. exfalso. apply Hlen. exact (Forall2_length F). }
  split; [apply G|].
  intros Hrefl. apply G. clear G.
  induction a as [|x a IH]; constructor.
  - apply Hrefl. now left.
  - apply IH. intros y Hy. apply Hrefl. now right.
Qed.

Lemma EqualsSlice_loop_first_unequal ext {E} `{Any E} `{EqualsFunc E}
    (a b : list E) n t :
  List.length a = List.length b ->
  forall i, (i + n = List.length a)%nat ->
    test.EqualsSlice_loop ext a b n i t
    = match first_unequal method_Equals (skipn i a) (skipn i b) with
      | Returned None => (Returned tt, t)
      | Returned (Some (x, y)) =>
          (Returned tt,
           t ++ [Logf (diff_text ext x y) [];
                 Logf (rendered ext
                         ";; expected slice equality via .Equals method" []) [];
                 Fail])
      | Panicked p => (Panicked p, t)
      end.
Proof.
  intros Hlen. induction n as [|n IH]; intros i Hi; simpl.
  - rewrite !skipn_all2 by lia. reflexivity.
  - destruct (index_skipn a i ltac:(lia)) as (x & Ex & ->).
    destruct (index_skipn b i ltac:(lia)) as (y & Ey & ->). simpl.
    unfold bind at 1. unfold lift at 1. rewrite Ex.
    unfold bind at 1. unfold lift at 1. rewrite Ey.
    unfold bind at 1. unfold lift at 1.
    destruct (method_Equals x y) as [[|]|p]; simpl.
    + apply IH. lia.
    + run_go. rewrite diff_returns. run_go. reflexivity.
    + reflexivity.
Qed.

(** X7.  [EqualsSlice] passes exactly when the slices have the same
    length and [Equals] returns true on every pair of elements at the
    same index.  At the first pair on which [Equals] is false it logs
    the diff of that pair of elements (not of the slices), reports and
    returns; later pairs are not compared. *)
Theorem EqualsSlice_iff_pairwise ext {E} `{Any E} `{EqualsFunc E}
    (a b : list E) (t : T) :
  (passes (test.EqualsSlice ext a b) t
   <-> Forall2 (fun x y => method_Equals x y = Returned true) a b) /\
  (forall pre pre' x y post post',
      a = pre ++ x :: post -> b = pre' ++ y :: post' ->
      List.length post = List.length post' ->
      Forall2 (fun u v => method_Equals u v = Returned true) pre pre' ->
      method_Equals x y = Returned false ->
      reports ext (test.EqualsSlice ext a b) t [Logf (diff_text ext x y) []]
        ";; expected slice equality via .Equals method" []).
Proof.
  assert (R : List.length a = List.length b ->
              test.EqualsSlice ext a b t
              = match first_unequal method_Equals a b with
                | Returned None => (Returned tt, t ++ [Helper])
                | Returned (Some (x, y)) =>
                    (Returned tt,
                     t ++ [Helper; Logf (diff_text ext x y) [];
                           Logf (rendered ext
                                   ";; expected slice equality via .Equals method" [])
                             [];
                           Fail])
                | Panicked p => (Panicked p, t ++ [Helper])
                end).
  { intros Hlen. unfold test.EqualsSlice. run_go.
    rewrite Hlen, Nat.eqb_refl. simpl. rewrite <- Hlen.
    rewrite (EqualsSlice_loop_first_unequal ext a b _ _ Hlen 0 eq_refl).
    simpl. destruct (first_unequal method_Equals a b) as [[[x y]|]|p];
      rewrite <- ?app_assoc; reflexivity. }
  split.
  - destruct (Nat.eq_dec (List.length a) (List.length b)) as [Hlen|Hlen].
    + rewrite <- (first_unequal_none_iff method_Equals a b Hlen).
      specialize (R Hlen).
      destruct (first_unequal method_Equals a b) as [[[x y]|]|p].
      * split; [|discriminate]. intros P. exfalso. revert P.
        eapply not_passes_after_more. exact R.
      * split; [reflexivity|]. intros _. exact R.
      * split; [|discriminate]. intros P. exfalso. revert P.
        eapply not_passes_panicked. exact R.
    + split.
      * intros P. exfalso. revert P.
        apply (not_passes_reports ext _ t _ _ _ _
                 (EqualsSlice_length_mismatch ext a b t Hlen)).
      * intros F. exfalso. apply Hlen. exact (Forall2_length F).
  - intros pre pre' x y post post' -> -> Hpost Hpre Hxy.
    unfold reports. rewrite R.
    + now rewrite (first_unequal_at _ _ _ _ _ _ _ Hpre Hxy).
    + rewrite !length_app. simpl. rewrite (Forall2_length Hpre). lia.
Qed.

Lemma EqualsSlice_iff_pairwise_witness :
  reports Reference.ext
    (@test.EqualsSlice Reference.ext Z (Any_int go_int)
       (fun x y => Returned (x =? y)) [1; 2; 3] [1; 5; 6]) []
    [Logf (@diff_text Reference.ext Z Z (Any_int go_int) (Any_int go_int) 2 5) []]
    ";; expected slice equality via .Equals method" [].
Proof.
  apply (proj2 (@EqualsSlice_iff_pairwise Reference.ext Z (Any_int go_int)
                  (fun x y => Returned (x =? y)) [1; 2; 3] [1; 5; 6] [])
           [1] [1] 2 5 [3] [6] eq_refl eq_refl eq_refl).
  - repeat constructor.
  - reflexivity.
Defined.

(** *** InDeltaSlice *)

Lemma InDelta_fresh ext {N} `{Any N} `{Number N} (a b delta : N) :
  test.InDelta ext a b delta [] = (Returned tt, [Helper]) \/
  exists line, test.InDelta ext a b delta []
               = (Returned tt, [Helper; Logf line []; Fail]).
Proof.
  unfold test.InDelta. cbv zeta.
  destruct (negb (test.Numeric delta)); [right; eexists; reflexivity|].
  destruct (go_le delta go_zero); [right; eexists; reflexivity|].
  destruct (negb (test.Numeric a)); [right; eexists; reflexivity|].
  destruct (negb (test.Numeric b)); [right; eexists; reflexivity|].
  destruct (go_lt (go_sub a b) (go_neg delta) || go_gt (go_sub a b) delta);
    [right; eexists; reflexivity | left; reflexivity].
Qed.

Lemma InDelta_on_handle ext {N} `{Any N} `{Number N} (a b delta : N) t :
  test.InDelta ext a b delta t
  = (Returned tt, t ++ snd (test.InDelta ext a b delta [])).
Proof.
  unfold test.InDelta. cbv zeta.
  destruct (negb (test.Numeric delta)); [run_go; reflexivity|].
  destruct (go_le delta go_zero); [run_go; reflexivity|].
  destruct (negb (test.Numeric a)); [run_go; reflexivity|].
  destruct (negb (test.Numeric b)); [run_go; reflexivity|].
  destruct (go_lt (go_sub a b) (go_neg delta) || go_gt (go_sub a b) delta);
    run_go; reflexivity.
Qed.

Lemma InDeltaSlice_loop_each ext {N} `{Any N} `{Number N} (a b : list N)
    (delta : N) n :
  List.length a = List.length b ->
  forall i t, (i + n = List.length a)%nat ->
    test.InDeltaSlice_loop ext a b delta n i t
    = (Returned tt,
       t ++ flat_map (fun xy => snd (test.InDelta ext (fst xy) (snd xy) delta []))
              (combine (skipn i a) (skipn i b))).
Proof.
  intros Hlen. induction n as [|n IH]; intros i t Hi; simpl.
  - rewrite !skipn_all2 by lia. simpl. now rewrite app_nil_r.
  - destruct (index_skipn a i ltac:(lia)) as (x & Ex & ->).
    destruct (index_skipn b i ltac:(lia)) as (y & Ey & ->). simpl.
    unfold bind at 1. unfold lift at 1. rewrite Ex.
    unfold bind at 1. unfold lift at 1. rewrite Ey.
    unfold bind at 1. rewrite (InDelta_on_handle ext x y delta t).
    rewrite IH by lia. now rewrite <- app_assoc.
Qed.

Lemma count_Fail_app e1 e2 :
  count_Fail (e1 ++ e2) = (count_Fail e1 + count_Fail e2)%nat.
Proof. unfold count_Fail. now rewrite filter_app, length_app. Qed.

Lemma count_Fail_InDelta ext {N} `{Any N} `{Number N} (a b delta : N) :
  count_Fail (snd (test.InDelta ext a b delta []))
  = if failed (snd (test.InDelta ext a b delta [])) then 1%nat else 0%nat.
Proof.
  destruct (InDelta_fresh ext a b delta) as [E|[line E]]; now rewrite E.
Qed.

(** X8.  On slices of the same length [InDeltaSlice] applies [InDelta]
    to every pair of elements at the same index, in order, and does not
    stop at a pair that fails: the calls it makes after its own
    [Helper] are those of [InDelta] on each pair, one after the other,
    so [Fail] is called once for every pair that is not within
    [delta].  It always returns. *)
Theorem InDeltaSlice_reports_every_pair ext {N} `{Any N} `{Number N}
    (a b : list N) (delta : N) (t : T) :
  List.length a = List.length b ->
  exists evs,
    test.InDeltaSlice ext a b delta t = (Returned tt, t ++ Helper :: evs) /\
    evs = flat_map (fun xy => snd (test.InDelta ext (fst xy) (snd xy) delta []))
            (combine a b) /\
    count_Fail evs
    = List.length
        (filter (fun xy => failed (snd (test.InDelta ext (fst xy) (snd xy) delta [])))
           (combine a b)).
Proof.
  intros Hlen. eexists. split; [|split; [reflexivity|]].
  - unfold test.InDeltaSlice. run_go. rewrite Hlen, Nat.eqb_refl. simpl.
    rewrite <- Hlen.
    rewrite (InDeltaSlice_loop_each ext a b delta _ Hlen 0 _ eq_refl).
    simpl. now rewrite <- app_assoc.
  - induction (combine a b) as [|[x y] l IH]; simpl; [reflexivity|].
    rewrite count_Fail_app, IH, count_Fail_InDelta.
    destruct (failed (snd (test.InDelta ext x y delta []))); reflexivity.
Qed.

Lemma InDeltaSlice_reports_every_pair_witness :
  exists evs,
    @test.InDeltaSlice Reference.ext Z (Any_int go_int) (Number_int go_int)
      [1; 10; 20] [1; 15; 30] 2 []
    = (Returned tt, [] ++ Helper :: evs) /\
    evs = flat_map
            (fun xy => snd (@test.InDelta Reference.ext Z (Any_int go_int)
                              (Number_int go_int) (fst xy) (snd xy) 2 []))
            (combine [1; 10; 20] [1; 15; 30]) /\
    count_Fail evs
    = List.length
        (filter
           (fun xy => failed (snd (@test.InDelta Reference.ext Z (Any_int go_int)
                                     (Number_int go_int) (fst xy) (snd xy) 2 [])))
           (combine [1; 10; 20] [1; 15; 30])).
Proof.
  exact (@InDeltaSlice_reports_every_pair Reference.ext Z (Any_int go_int)
           (Number_int go_int) [1; 10; 20] [1; 15; 30] 2 [] eq_refl).
Defined.

(** *** Maps *)

Lemma MapEq_range_verdict ext {K V} `{Any (list (K * V))} `{Any V}
    `{MapKey K} (a b rest : list (K * V)) t :
  test.MapEq_range ext a b rest t
  = map_report ext a b ";; expected maps of same values via cmp.Diff function"
      (first_bad_entry (MapEq_values ext) b rest) t.
Proof.
  induction rest as [|[key valueA] rest IH]; simpl; [reflexivity|].
  unfold check_entry. simpl.
  destruct (map_lookup b key) as [valueB|]; simpl.
  - unfold bind at 1. unfold lift at 1. unfold MapEq_values at 1.
    destruct (cmp_Equal ext (box valueA) (box valueB)) as [[|]|p]; simpl.
    + exact IH.
    + run_go. rewrite diff_returns. run_go. reflexivity.
    + reflexivity.
  - run_go. rewrite diff_returns. run_go. reflexivity.
Qed.

Lemma MapEqFunc_range_verdict ext {K V} `{Any (list (K * V))} `{MapKey K}
    (a b rest : list (K * V)) eq t :
  test.MapEqFunc_range ext a b rest eq t
  = map_report ext a b ";; expected maps of same values via 'eq' function"
      (first_bad_entry eq b rest) t.
Proof.
  induction rest as [|[key valueA] rest IH]; simpl; [reflexivity|].
  unfold check_entry. simpl.
  destruct (map_lookup b key) as [valueB|]; simpl.
  - unfold bind at 1. unfold lift at 1.
    destruct (eq valueA valueB) as [[|]|p]; simpl.
    + exact IH.
    + run_go. rewrite diff_returns. run_go. reflexivity.
    + reflexivity.
  - run_go. rewrite diff_returns. run_go. reflexivity.
Qed.

Lemma MapEquals_range_verdict ext {K V} `{Any (list (K * V))} `{MapKey K}
    `{EqualsFunc V} (a b rest : list (K * V)) t :
  test.MapEquals_range ext a b rest t
  = map_report ext a b ";; expected maps of same values via .Equals method"
      (first_bad_entry MapEquals_values b rest) t.
Proof.
  induction rest as [|[key valueA] rest IH]; simpl; [reflexivity|].
  unfold check_entry. simpl.
  destruct (map_lookup b key) as [valueB|]; simpl.
  - unfold bind at 1. unfold lift at 1. unfold MapEquals_values at 1.
    destruct (method_Equals valueB valueA) as [[|]|p]; simpl.
    + exact IH.
    + run_go. rewrite diff_returns. run_go. reflexivity.
    + reflexivity.
  - run_go. rewrite diff_returns. run_go. reflexivity.
Qed.

Lemma first_bad_entry_ok_iff {K V} `{MapKey K} (cmpv : V -> V -> outcome bool)
    (b rest : list (K * V)) :
  first_bad_entry cmpv b rest = Returned EntryOk
  <-> Forall (entry_ok cmpv b) rest.
Proof.
  induction rest as [|[k v] rest IH]; simpl.
  - split; [constructor | reflexivity].
  - unfold check_entry. simpl.
    destruct (map_lookup b k) as [w|] eqn:L; simpl.
    + destruct (cmpv v w) as [[|]|p] eqn:E; simpl.
      * rewrite IH. split.
        -- intros F. constructor; [|exact F]. exists w. simpl. now split.
        -- now inversion 1.
      * split; [discriminate|]. inversion 1 as [|? ? (w' & L' & F)].
        simpl in L', F. congruence.
      * split; [discriminate|]. inversion 1 as [|? ? (w' & L' & F)].
        simpl in L', F. congruence.
    + split; [discriminate|]. inversion 1 as [|? ? (w' & L' & _)].
      simpl in L'. congruence.
Qed.

Lemma first_bad_entry_at {K V} `{MapKey K} (cmpv : V -> V -> outcome bool)
    (b pre post : list (K * V)) kv bad :
  Forall (entry_ok cmpv b) pre ->
  check_entry cmpv b kv = Returned bad -> bad <> EntryOk ->
  first_bad_entry cmpv b (pre ++ kv :: post) = Returned bad.
Proof.
  induction 1 as [|[k v] pre (w & L & E) _ IH]; intros Hkv Hbad; simpl.
  - rewrite Hkv. simpl. now destruct bad.
  - unfold check_entry. simpl in *. rewrite L. simpl. rewrite E. simpl.
    now apply IH.
Qed.

(** The outcome of a map assertion on maps of the same length. *)
Lemma MapEq_same_length ext {K V} `{Any (list (K * V))} `{Any V}
    `{MapKey K} (a b : list (K * V)) t :
  List.length a = List.length b ->
  test.MapEq ext a b t
  = map_report ext a b ";; expected maps of same values via cmp.Diff function"
      (first_bad_entry (MapEq_values ext) b a) (t ++ [Helper]).
Proof.
  intros Hlen. unfold test.MapEq. run_go. rewrite Hlen, Nat.eqb_refl. simpl.
  apply MapEq_range_verdict.
Qed.

Lemma MapEqFunc_same_length ext {K V} `{Any (list (K * V))} `{MapKey K}
    (a b : list (K * V)) eq t :
  List.length a = List.length b ->
  test.MapEqFunc ext a b eq t
  = map_report ext a b ";; expected maps of same values via 'eq' function"
      (first_bad_entry eq b a) (t ++ [Helper]).
Proof.
  intros Hlen. unfold test.MapEqFunc. run_go. rewrite Hlen, Nat.eqb_refl. simpl.
  apply MapEqFunc_range_verdict.
Qed.

Lemma MapEquals_same_length ext {K V} `{Any (list (K * V))} `{MapKey K}
    `{EqualsFunc V} (a b : list (K * V)) t :
  List.length a = List.length b ->
  test.MapEquals ext a b t
  = map_report ext a b ";; expected maps of same values via .Equals method"
      (first_bad_entry MapEquals_values b a) (t ++ [Helper]).
Proof.
  intros Hlen. unfold test.MapEquals. run_go. rewrite Hlen, Nat.eqb_refl. simpl.
  apply MapEquals_range_verdict.
Qed.

Lemma map_report_passes_iff ext {K V} `{Any (list (K * V))} `{MapKey K}
    (m : M unit) (a b : list (K * V)) msg (cmpv : V -> V -> outcome bool) t :
  m t = map_report ext a b msg (first_bad_entry cmpv b a) (t ++ [Helper]) ->
  (passes m t <-> Forall (entry_ok cmpv b) a).
Proof.
  intros E. rewrite <- first_bad_entry_ok_iff.
  destruct (first_bad_entry cmpv b a) as [[| |]|p]; simpl in E.
  - split; [reflexivity|]. intros _. exact E.
  - split; [|discriminate]. intros P. exfalso. revert P.
    eapply not_passes_after_more. rewrite E, <- app_assoc. reflexivity.
  - split; [|discriminate]. intros P. exfalso. revert P.
    eapply not_passes_after_more. rewrite E, <- app_assoc. reflexivity.
  - split; [|discriminate]. intros P. exfalso. revert P.
    eapply not_passes_panicked. exact E.
Qed.

Lemma map_assertions_pass_iff_aux ext {K V} `{Any (list (K * V))} `{Any V}
    `{MapKey K} `{EqualsFunc V} (a b : list (K * V))
    (eq : V -> V -> outcome bool) (t : T) :
  (passes (test.MapEq ext a b) t
   <-> List.length a = List.length b /\
       Forall (entry_ok (MapEq_values ext) b) a) /\
  (passes (test.MapEqFunc ext a b eq) t
   <-> List.length a = List.length b /\ Forall (entry_ok eq b) a) /\
  (passes (test.MapEquals ext a b) t
   <-> List.length a = List.length b /\
       Forall (entry_ok MapEquals_values b) a).
Proof.
  destruct (Nat.eq_dec (List.length a) (List.length b)) as [Hlen|Hlen].
  - split; [|split].
    + rewrite (map_report_passes_iff ext _ a b _ (MapEq_values ext) t
                 (MapEq_same_length ext a b t Hlen)). tauto.
    + rewrite (map_report_passes_iff ext _ a b _ eq t
                 (MapEqFunc_same_length ext a b eq t Hlen)). tauto.
    + rewrite (map_report_passes_iff ext _ a b _ MapEquals_values t
                 (MapEquals_same_length ext a b t Hlen)). tauto.
  - split; [|split]; (split; [intros P; exfalso; revert P | tauto]).
    + apply (not_passes_reports ext _ t _ _ _ _
               (MapEq_length_mismatch ext a b t Hlen)).
    + apply (not_passes_reports ext _ t _ _ _ _
               (MapEqFunc_length_mismatch ext a b eq t Hlen)).
    + apply (not_passes_reports ext _ t _ _ _ _
               (MapEquals_length_mismatch ext a b t Hlen)).
Qed.

(** X9.  [MapEq], [MapEqFunc] and [MapEquals] pass exactly when the
    maps have the same length and every key of [a] is a key of [b]
    whose value compares equal to the value in [a]: by [cmp.Equal] for
    [MapEq], by [eq(valueA, valueB)] for [MapEqFunc], and by
    [valueB.Equals(valueA)] (the value of [b] is the receiver) for
    [MapEquals]. *)
Theorem map_assertions_pass_iff ext {K V} `{Any (list (K * V))} `{Any V}
    `{MapKey K} `{EqualsFunc V} (a b : list (K * V))
    (eq : V -> V -> outcome bool) (t : T) :
  (passes (test.MapEq ext a b) t
   <-> List.length a = List.length b /\
       Forall (fun kv => exists w, map_lookup b (fst kv) = Some w /\
                 cmp_Equal ext (box (snd kv)) (box w) = Returned true) a) /\
  (passes (test.MapEqFunc ext a b eq) t
   <-> List.length a = List.length b /\
       Forall (fun kv => exists w, map_lookup b (fst kv) = Some w /\
                 eq (snd kv) w = Returned true) a) /\
  (passes (test.MapEquals ext a b) t
   <-> List.length a = List.length b /\
       Forall (fun kv => exists w, map_lookup b (fst kv) = Some w /\
                 method_Equals w (snd kv) = Returned true) a).
Proof.
  exact (map_assertions_pass_iff_aux ext a b eq t).
Qed.

Lemma map_report_at ext {K V} `{Any (list (K * V))} `{MapKey K}
    (m : M unit) (pre post b : list (K * V)) k v msg
    (cmpv : V -> V -> outcome bool) t :
  m t = map_report ext (pre ++ (k, v) :: post) b msg
          (first_bad_entry cmpv b (pre ++ (k, v) :: post)) (t ++ [Helper]) ->
  Forall (entry_ok cmpv b) pre ->
  (map_lookup b k = None ->
   reports ext m t [Logf (diff_text ext (pre ++ (k, v) :: post) b) []]
     ";; expected maps of same keys" []) /\
  (forall w, map_lookup b k = Some w -> cmpv v w = Returned false ->
   reports ext m t [Logf (diff_text ext (pre ++ (k, v) :: post) b) []]
     msg []) /\
  (forall w p, map_lookup b k = Some w -> cmpv v w = Panicked p ->
   m t = (Panicked p, t ++ [Helper])).
Proof.
  intros E Hpre. split; [|split].
  - intros L. unfold reports. rewrite E.
    rewrite (first_bad_entry_at cmpv b pre post (k, v) KeyMissing Hpre).
    + simpl. rewrite <- app_assoc. reflexivity.
    + unfold check_entry. simpl. now rewrite L.
    + discriminate.
  - intros w L C. unfold reports. rewrite E.
    rewrite (first_bad_entry_at cmpv b pre post (k, v) ValueDiffers Hpre).
    + simpl. rewrite <- app_assoc. reflexivity.
    + unfold check_entry. simpl. rewrite L. simpl. now rewrite C.
    + discriminate.
  - intros w p L C. rewrite E.
    assert (F : first_bad_entry cmpv b (pre ++ (k, v) :: post) = Panicked p).
    { clear E. induction Hpre as [|[k' v'] pre (w' & L' & E') _ IH]; simpl.
      - unfold check_entry. simpl. rewrite L. simpl. now rewrite C.
      - unfold check_entry. simpl in *. rewrite L'. simpl. rewrite E'. simpl.
        exact IH. }
    rewrite F. reflexivity.
Qed.

(** X10.  On maps of the same length, [MapEq], [MapEqFunc] and
    [MapEquals] report the first entry of [a], in the order of [range],
    that [b] does not match: when its key is missing from [b] the
    message is the one of the keys, when the key is there and the
    values compare unequal the message is the one of the values; both
    after the logged diff of the two maps.  A panic of [eq] or of the
    [Equals] method at that entry is the outcome of the assertion. *)
Theorem map_assertions_report_first_mismatch ext {K V} `{Any (list (K * V))}
    `{Any V} `{MapKey K} `{EqualsFunc V} (pre post b : list (K * V))
    (k : K) (v : V) (eq : V -> V -> outcome bool) (t : T) :
  List.length (pre ++ (k, v) :: post) = List.length b ->
  (Forall (entry_ok (MapEq_values ext) b) pre ->
   (map_lookup b k = None ->
    reports ext (test.MapEq ext (pre ++ (k, v) :: post) b) t
      [Logf (diff_text ext (pre ++ (k, v) :: post) b) []]
      ";; expected maps of same keys" []) /\
   (forall w, map_lookup b k = Some w ->
    cmp_Equal ext (box v) (box w) = Returned false ->
    reports ext (test.MapEq ext (pre ++ (k, v) :: post) b) t
      [Logf (diff_text ext (pre ++ (k, v) :: post) b) []]
      ";; expected maps of same values via cmp.Diff function" [])) /\
  (Forall (entry_ok eq b) pre ->
   (map_lookup b k = None ->
    reports ext (test.MapEqFunc ext (pre ++ (k, v) :: post) b eq) t
      [Logf (diff_text ext (pre ++ (k, v) :: post) b) []]
      ";; expected maps of same keys" []) /\
   (forall w, map_lookup b k = Some w -> eq v w = Returned false ->
    reports ext (test.MapEqFunc ext (pre ++ (k, v) :: post) b eq) t
      [Logf (diff_text ext (pre ++ (k, v) :: post) b) []]
      ";; expected maps of same values via 'eq' function" []) /\
   (forall w p, map_lookup b k = Some w -> eq v w = Panicked p ->
    test.MapEqFunc ext (pre ++ (k, v) :: post) b eq t
    = (Panicked p, t ++ [Helper]))) /\
  (Forall (entry_ok MapEquals_values b) pre ->
   (map_lookup b k = None ->
    reports ext (test.MapEquals ext (pre ++ (k, v) :: post) b) t
      [Logf (diff_text ext (pre ++ (k, v) :: post) b) []]
      ";; expected maps of same keys" []) /\
   (forall w, map_lookup b k = Some w ->
    method_Equals w v = Returned false ->
    reports ext (test.MapEquals ext (pre ++ (k, v) :: post) b) t
      [Logf (diff_text ext (pre ++ (k, v) :: post) b) []]
      ";; expected maps of same values via .Equals method" []) /\
   (forall w p, map_lookup b k = Some w -> method_Equals w v = Panicked p ->
    test.MapEquals ext (pre ++ (k, v) :: post) b t
    = (Panicked p, t ++ [Helper]))).
Proof.
  intros Hlen. split; [|split]; intros Hpre.
  - destruct (map_report_at ext _ pre post b k v _ (MapEq_values ext) t
                (MapEq_same_length ext _ b t Hlen) Hpre) as (M1 & M2 & _).
    split; [exact M1 | exact M2].
  - exact (map_report_at ext _ pre post b k v _ eq t
             (MapEqFunc_same_length ext _ b eq t Hlen) Hpre).
  - exact (map_report_at ext _ pre post b k v _ MapEquals_values t
             (MapEquals_same_length ext _ b t Hlen) Hpre).
Qed.

Lemma map_assertions_report_first_mismatch_witness :
  reports Reference.ext
    (@test.MapEqFunc Reference.ext string Z
       (@Any_map Z (Any_int go_int)) MapKey_string
       ([("a"%string, 1)] ++ ("b"%string, 2) :: [("c"%string, 3)])
       [("a"%string, 1); ("x"%string, 2); ("c"%string, 4)]
       (fun x y => Returned (x =? y))) []
    [Logf (@diff_text Reference.ext _ _ (@Any_map Z (Any_int go_int))
             (@Any_map Z (Any_int go_int))
             ([("a"%string, 1)] ++ ("b"%string, 2) :: [("c"%string, 3)])
             [("a"%string, 1); ("x"%string, 2); ("c"%string, 4)]) []]
    ";; expected maps of same keys" [].
Proof.
  refine (proj1 (proj1 (proj2
    (@map_assertions_report_first_mismatch Reference.ext string Z
       (@Any_map Z (Any_int go_int)) (Any_int go_int) MapKey_string
       (fun x y => Returned (x =? y))
       [("a"%string, 1)] [("c"%string, 3)]
       [("a"%string, 1); ("x"%string, 2); ("c"%string, 4)]
       "b"%string 2 (fun x y => Returned (x =? y)) [] eq_refl)) _) eq_refl).
  constructor; [|constructor]. exists 1. split; reflexivity.
Defined.

(** *** The keys of equal maps *)

Lemma map_lookup_In {K V} `{MapKey K} (m : list (K * V)) k w :
  lawful_keys K -> map_lookup m k = Some w -> In (k, w) m.
Proof.
  intros Law. induction m as [|[k' v'] m IH]; simpl; [discriminate|].
  destruct (key_eq k' k) eqn:E.
  - intros [= <-]. apply Law in E. subst. now left.
  - intros L. right. now apply IH.
Qed.

Lemma unique_key_value {K V} (m : list (K * V)) k w w' :
  NoDup (map fst m) -> In (k, w) m -> In (k, w') m -> w = w'.
Proof.
  induction m as [|[k0 v0] m IH]; simpl; [contradiction|].
  intros D [E1|I1] [E2|I2]; inversion D as [|? ? N D']; subst.
  - congruence.
  - inversion E1; subst. exfalso. apply N.
    change k with (fst (k, w')). now apply in_map.
  - inversion E2; subst. exfalso. apply N.
    change k with (fst (k, w)). now apply in_map.
  - now apply IH.
Qed.

Lemma entries_cover {K V} `{MapKey K} (cmpv : V -> V -> outcome bool)
    (a b : list (K * V)) :
  lawful_keys K -> NoDup (map fst a) -> NoDup (map fst b) ->
  List.length a = List.length b -> Forall (entry_ok cmpv b) a ->
  forall k w, In (k, w) b ->
    exists v, In (k, v) a /\ cmpv v w = Returned true.
Proof.
  intros Law Da Db Hlen Hall k w Hin.
  assert (Hincl : incl (map fst a) (map fst b)).
  { intros k' Hk'. apply in_map_iff in Hk' as ([k0 v0] & <- & I0).
    rewrite Forall_forall in Hall. destruct (Hall _ I0) as (w0 & L0 & _).
    simpl in *. change k0 with (fst (k0, w0)). apply in_map.
    now apply map_lookup_In. }
  assert (Hback : incl (map fst b) (map fst a)).
  { apply NoDup_length_incl; [exact Da | | exact Hincl].
    rewrite !length_map. lia. }
  assert (Hk : In k (map fst a)).
  { apply Hback. change k with (fst (k, w)). now apply in_map. }
  apply in_map_iff in Hk as ([k0 v] & Ek & Iv). simpl in Ek. subst k0.
  exists v. split; [exact Iv|].
  rewrite Forall_forall in Hall. destruct (Hall _ Iv) as (w' & L & C).
  simpl in *. apply (map_lookup_In b k w' Law) in L.
  now rewrite (unique_key_value b k w w' Db Hin L).
Qed.

(** X11.  The loop of a map assertion ranges over [a] only, and still
    a passing [MapEq], [MapEqFunc] or [MapEquals] has matched every
    entry of [b]: for maps, whose keys are distinct, over a key type on
    which [==] is equality, each key of [b] is a key of [a] whose value
    compares equal.  The length check is what rules out extra keys in
    [b]. *)
Theorem passing_map_assertion_covers_b ext {K V} `{Any (list (K * V))}
    `{Any V} `{MapKey K} `{EqualsFunc V} (a b : list (K * V))
    (eq : V -> V -> outcome bool) (t : T) :
  lawful_keys K -> NoDup (map fst a) -> NoDup (map fst b) ->
  (passes (test.MapEq ext a b) t ->
   forall k w, In (k, w) b ->
     exists v, In (k, v) a /\
               cmp_Equal ext (box v) (box w) = Returned true) /\
  (passes (test.MapEqFunc ext a b eq) t ->
   forall k w, In (k, w) b ->
     exists v, In (k, v) a /\ eq v w = Returned true) /\
  (passes (test.MapEquals ext a b) t ->
   forall k w, In (k, w) b ->
     exists v, In (k, v) a /\ method_Equals w v = Returned true).
Proof.
  intros Law Da Db.
  pose proof (map_assertions_pass_iff_aux ext a b eq t) as (P1 & P2 & P3).
  split; [|split]; intros P.
  - apply P1 in P as (Hlen & Hall).
    exact (entries_cover (MapEq_values ext) a b Law Da Db Hlen Hall).
  - apply P2 in P as (Hlen & Hall).
    exact (entries_cover eq a b Law Da Db Hlen Hall).
  - apply P3 in P as (Hlen & Hall).
    exact (entries_cover MapEquals_values a b Law Da Db Hlen Hall).
Qed.

Lemma passing_map_assertion_covers_b_witness :
  exists v : Z,
    In ("a"%string, v) [("a"%string, 1); ("b"%string, 2)] /\
    Returned (v =? 1) = Returned true.
Proof.
  refine (proj1 (proj2
    (@passing_map_assertion_covers_b Reference.ext string Z
       (@Any_map Z (Any_int go_int)) (Any_int go_int) MapKey_string
       (fun x y => Returned (x =? y))
       [("a"%string, 1); ("b"%string, 2)] [("b"%string, 2); ("a"%string, 1)]
       (fun x y => Returned (x =? y)) [] _ _ _)) eq_refl "a"%string 1 _).
  - intros x y. apply String.eqb_eq.
  - repeat constructor; simpl; intuition discriminate.
  - repeat constructor; simpl; intuition discriminate.
  - simpl. right. left. reflexivity.
Defined.

(** *** InDelta on integer types *)

Lemma pow2_double n : 0 < n -> 2 ^ n = 2 * 2 ^ (n - 1).
Proof.
  intros Hn. replace n with (Z.succ (n - 1)) at 1 by lia.
  apply Z.pow_succ_r. lia.
Qed.

(** The wrapped value of a sum or difference of two values of the type:
    it is off by at most one modulus and is a value of the type. *)
Lemma wrap_cases k z :
  0 < bits k -> - 2 ^ bits k < z < 2 ^ bits k ->
  in_range k (wrap k z) /\
  (wrap k z = z \/ wrap k z = z - 2 ^ bits k \/ wrap k z = z + 2 ^ bits k).
Proof.
  intros Hb Hz. pose proof (pow2_double (bits k) Hb) as D.
  assert (P : 0 < 2 ^ (bits k - 1)) by (apply Z.pow_pos_nonneg; lia).
  unfold wrap, in_range. destruct (signed k).
  - destruct (Z_lt_le_dec (z + 2 ^ (bits k - 1)) 0) as [L|L].
    + rewrite <- (Z.mod_unique (z + 2 ^ (bits k - 1)) (2 ^ bits k) (-1)
                    (z + 2 ^ (bits k - 1) + 2 ^ bits k)); [lia | lia | lia].
    + destruct (Z_lt_le_dec (z + 2 ^ (bits k - 1)) (2 ^ bits k)) as [U|U].
      * rewrite Z.mod_small by lia. lia.
      * rewrite <- (Z.mod_unique (z + 2 ^ (bits k - 1)) (2 ^ bits k) 1
                      (z + 2 ^ (bits k - 1) - 2 ^ bits k)); [lia | lia | lia].
  - destruct (Z_lt_le_dec z 0) as [L|L].
    + rewrite <- (Z.mod_unique z (2 ^ bits k) (-1) (z + 2 ^ bits k));
        [lia | lia | lia].
    + rewrite Z.mod_small by lia. lia.
Qed.

Lemma difference_bounds k a b :
  0 < bits k -> in_range k a -> in_range k b ->
  - 2 ^ bits k < a - b < 2 ^ bits k.
Proof.
  intros Hb. pose proof (pow2_double (bits k) Hb) as D.
  assert (P : 0 < 2 ^ (bits k - 1)) by (apply Z.pow_pos_nonneg; lia).
  unfold in_range. destruct (signed k); lia.
Qed.

Lemma negation_bounds k d :
  0 < bits k -> in_range k d -> - 2 ^ bits k < - d < 2 ^ bits k.
Proof.
  intros Hb. pose proof (pow2_double (bits k) Hb) as D.
  assert (P : 0 < 2 ^ (bits k - 1)) by (apply Z.pow_pos_nonneg; lia).
  unfold in_range. destruct (signed k); lia.
Qed.

Lemma InDelta_int_after_preconditions ext k (a b delta : Z) t :
  0 < bits k <= 64 -> in_range k a -> in_range k b -> in_range k delta ->
  0 < delta ->
  @test.InDelta ext Z (Any_int k) (Number_int k) a b delta t =
  if outside_delta k a b delta
  then (Returned tt,
        t ++ [Helper;
              Logf (rendered ext ";; %v and %v not within %v"
                      [VInt k a; VInt k b; VInt k delta]) [];
              Fail])
  else (Returned tt, t ++ [Helper]).
Proof.
  intros Hb Ra Rb Rd Hpos.
  assert (Hz : @go_le Z (@number_ordered Z (Number_int k)) delta
                 (@go_zero Z (Number_int k)) = false).
  { simpl. apply Z.leb_gt. exact Hpos. }
  exact (@InDelta_after_preconditions ext Z (Any_int k) (Number_int k)
           a b delta t (Numeric_int k delta Hb Rd) Hz
           (Numeric_int k a Hb Ra) (Numeric_int k b Hb Rb)).
Qed.

Lemma InDelta_int_nonpositive_delta ext k (a b delta : Z) t :
  0 < bits k <= 64 -> in_range k delta -> delta <= 0 ->
  ~ passes (@test.InDelta ext Z (Any_int k) (Number_int k) a b delta) t.
Proof.
  intros Hb Rd Hneg.
  eapply (not_passes_after_more _ t). unfold test.InDelta. cbv zeta.
  rewrite (Numeric_int k delta Hb Rd).
  assert (Hz : @go_le Z (@number_ordered Z (Number_int k)) delta
                 (@go_zero Z (Number_int k)) = true).
  { simpl. apply Z.leb_le. exact Hneg. }
  rewrite Hz. run_go. reflexivity.
Qed.

Lemma outside_delta_sym k a b delta :
  0 < bits k -> in_range k a -> in_range k b -> in_range k delta ->
  0 < delta -> outside_delta k a b delta = outside_delta k b a delta.
Proof.
  intros Hb Ra Rb Rd Hpos. unfold outside_delta.
  pose proof (pow2_double (bits k) Hb) as D.
  assert (P : 0 < 2 ^ (bits k - 1)) by (apply Z.pow_pos_nonneg; lia).
  destruct (wrap_cases k (a - b) Hb (difference_bounds k a b Hb Ra Rb))
    as (R1 & C1).
  destruct (wrap_cases k (b - a) Hb (difference_bounds k b a Hb Rb Ra))
    as (R2 & C2).
  destruct (wrap_cases k (- delta) Hb (negation_bounds k delta Hb Rd))
    as (R3 & C3).
  unfold in_range in *.
  destruct (wrap k (a - b) <? wrap k (- delta)) eqn:E1,
           (wrap k (a - b) >? delta) eqn:E2,
           (wrap k (b - a) <? wrap k (- delta)) eqn:E3,
           (wrap k (b - a) >? delta) eqn:E4; try reflexivity; exfalso;
    rewrite ?Z.ltb_lt, ?Z.ltb_ge in *;
    rewrite ?Z.gtb_ltb, ?Z.ltb_lt, ?Z.ltb_ge in *;
    destruct (signed k); lia.
Qed.

(** X12.  On every integer type of at most 64 bits, signed or
    unsigned, [InDelta] is symmetric in its two operands: it passes on
    [a], [b] exactly when it passes on [b], [a], also where the
    difference wraps around. *)
Theorem InDelta_integer_symmetric ext (k : int_kind) (a b delta : Z) (t : T) :
  0 < bits k <= 64 -> in_range k a -> in_range k b -> in_range k delta ->
  (passes (@test.InDelta ext Z (Any_int k) (Number_int k) a b delta) t
   <-> passes (@test.InDelta ext Z (Any_int k) (Number_int k) b a delta) t).
Proof.
  intros Hb Ra Rb Rd. destruct (Z_lt_le_dec 0 delta) as [Hpos|Hneg].
  - unfold passes.
    rewrite (InDelta_int_after_preconditions ext k a b delta t Hb Ra Rb Rd Hpos).
    rewrite (InDelta_int_after_preconditions ext k b a delta t Hb Rb Ra Rd Hpos).
    rewrite (outside_delta_sym k a b delta (proj1 Hb) Ra Rb Rd Hpos).
    destruct (outside_delta k b a delta).
    + split; intros F; apply (f_equal snd) in F; simpl in F;
        apply app_inv_head in F; discriminate.
    + tauto.
  - split; intros P; exfalso; revert P;
      apply InDelta_int_nonpositive_delta; assumption.
Qed.

Lemma InDelta_integer_symmetric_witness :
  passes (@test.InDelta Reference.ext Z (Any_int go_int8) (Number_int go_int8)
            (-128) 127 1) [] <->
  passes (@test.InDelta Reference.ext Z (Any_int go_int8) (Number_int go_int8)
            127 (-128) 1) [].
Proof.
  apply (InDelta_integer_symmetric Reference.ext go_int8 (-128) 127 1 []);
    unfold in_range; simpl; lia.
Defined.

(** X13.  On an unsigned integer type [-delta] wraps around to
    [2^bits - delta], so for every [delta] below half the range of the
    type [InDelta] reports a failure whatever the operands are, equal
    ones included. *)
Theorem InDelta_unsigned_small_delta_fails ext (k : int_kind)
    (a b delta : Z) (t : T) :
  signed k = false -> 0 < bits k <= 64 ->
  in_range k a -> in_range k b -> 0 < delta < 2 ^ (bits k - 1) ->
  reports ext (@test.InDelta ext Z (Any_int k) (Number_int k) a b delta) t []
    ";; %v and %v not within %v" [VInt k a; VInt k b; VInt k delta].
Proof.
  intros Hs Hb Ra Rb Hd.
  pose proof (pow2_double (bits k) (proj1 Hb)) as D.
  assert (Rd : in_range k delta) by (unfold in_range; rewrite Hs; lia).
  unfold reports.
  rewrite (InDelta_int_after_preconditions ext k a b delta t Hb Ra Rb Rd
             (proj1 Hd)).
  assert (O : outside_delta k a b delta = true).
  { unfold outside_delta.
    destruct (wrap_cases k (a - b) (proj1 Hb)
                (difference_bounds k a b (proj1 Hb) Ra Rb)) as (R1 & _).
    destruct (wrap_cases k (- delta) (proj1 Hb)
                (negation_bounds k delta (proj1 Hb) Rd)) as (R3 & C3).
    unfold in_range in R1, R3. rewrite Hs in R1, R3.
    apply orb_true_iff. rewrite Z.gtb_ltb, !Z.ltb_lt. lia. }
  rewrite O. reflexivity.
Qed.

Lemma InDelta_unsigned_small_delta_fails_witness :
  reports Reference.ext
    (@test.InDelta Reference.ext Z (Any_int go_uint8) (Number_int go_uint8)
       200 200 100) [] []
    ";; %v and %v not within %v"
    [VInt go_uint8 200; VInt go_uint8 200; VInt go_uint8 100].
Proof.
  apply (InDelta_unsigned_small_delta_fails Reference.ext go_uint8
           200 200 100 []); unfold in_range; simpl; try reflexivity; lia.
Defined.

(** X14.  On an integer type of at most 64 bits the three checks of
    [InDelta] with [Numeric] never fire, since [float64(n)] is finite
    for every integer: the assertion reports a [delta] that is not
    positive, or else passes or reports that the operands are not
    within [delta], according to the test on the wrapped difference. *)
Theorem InDelta_integer_outcomes ext (k : int_kind) (a b delta : Z) (t : T) :
  0 < bits k <= 64 -> in_range k a -> in_range k b -> in_range k delta ->
  @test.Numeric Z (Number_int k) a = true /\
  @test.Numeric Z (Number_int k) b = true /\
  @test.Numeric Z (Number_int k) delta = true /\
  (if delta <=? 0
   then reports ext
          (@test.InDelta ext Z (Any_int k) (Number_int k) a b delta) t []
          ";; delta must be positive; got %v" [VInt k delta]
   else if outside_delta k a b delta
   then reports ext
          (@test.InDelta ext Z (Any_int k) (Number_int k) a b delta) t []
          ";; %v and %v not within %v" [VInt k a; VInt k b; VInt k delta]
   else passes (@test.InDelta ext Z (Any_int k) (Number_int k) a b delta) t).
Proof.
  intros Hb Ra Rb Rd.
  split; [exact (Numeric_int k a Hb Ra)|].
  split; [exact (Numeric_int k b Hb Rb)|].
  split; [exact (Numeric_int k delta Hb Rd)|].
  destruct (delta <=? 0) eqn:Ez.
  - unfold reports, test.InDelta. cbv zeta.
    rewrite (Numeric_int k delta Hb Rd).
    assert (Hz : @go_le Z (@number_ordered Z (Number_int k)) delta
                   (@go_zero Z (Number_int k)) = true) by exact Ez.
    rewrite Hz. run_go. reflexivity.
  - apply Z.leb_gt in Ez.
    pose proof (InDelta_int_after_preconditions ext k a b delta t
                  Hb Ra Rb Rd Ez) as E.
    destruct (outside_delta k a b delta); exact E.
Qed.

Lemma InDelta_integer_outcomes_witness :
  passes (@test.InDelta Reference.ext Z (Any_int go_int8) (Number_int go_int8)
            100 98 2) [].
Proof.
  apply (proj2 (proj2 (proj2
    (InDelta_integer_outcomes Reference.ext go_int8 100 98 2 []
       ltac:(simpl; lia) ltac:(unfold in_range; simpl; lia)
       ltac:(unfold in_range; simpl; lia)
       ltac:(unfold in_range; simpl; lia))))).
Defined.

(** *** The ordering assertions *)

Ltac passing := run_go; reflexivity.
Ltac failing :=
  let F := fresh "F" in
  run_go; rewrite ?diff_returns; run_go; intros F;
  apply (f_equal snd) in F; simpl in F; apply app_inv_head in F;
  discriminate.

Lemma Less_passes_iff ext {O} `{Any O} `{Ordered O} (a b : O) t :
  passes (test.Less ext a b) t <-> go_lt a b = true.
Proof.
  unfold test.Less. destruct (go_lt a b); simpl.
  - split; [reflexivity|]. intros _. passing.
  - split; [|discriminate]. intros P. exfalso. revert P. failing.
Qed.

Lemma LessEq_passes_iff ext {O} `{Any O} `{Ordered O} (a b : O) t :
  passes (test.LessEq ext a b) t <-> go_le a b = true.
Proof.
  unfold test.LessEq. destruct (go_le a b); simpl.
  - split; [reflexivity|]. intros _. passing.
  - split; [|discriminate]. intros P. exfalso. revert P. failing.
Qed.

Lemma Greater_passes_iff ext {O} `{Any O} `{Ordered O} (a b : O) t :
  passes (test.Greater ext a b) t <-> go_gt a b = true.
Proof.
  unfold test.Greater. destruct (go_gt a b); simpl.
  - split; [reflexivity|]. intros _. passing.
  - split; [|discriminate]. intros P. exfalso. revert P. failing.
Qed.

Lemma GreaterEq_passes_iff ext {O} `{Any O} `{Ordered O} (a b : O) t :
  passes (test.GreaterEq ext a b) t <-> go_ge a b = true.
Proof.
  unfold test.GreaterEq. destruct (go_ge a b); simpl.
  - split; [reflexivity|]. intros _. passing.
  - split; [|discriminate]. intros P. exfalso. revert P. failing.
Qed.

Lemma SFltb_nan x y :
  math_IsNaN x = true \/ math_IsNaN y = true ->
  SFltb x y = false /\ SFleb x y = false.
Proof.
  intros [N|N]; destruct x, y; try discriminate; split; try reflexivity;
    unfold SFltb, SFleb; simpl; try (destruct s; reflexivity).
Qed.

(** X15.  With a NaN operand every comparison of [float64] is false,
    so [Less], [LessEq], [Greater] and [GreaterEq] all report a
    failure on the same pair: on floats [GreaterEq] is not the negation
    of [Less]. *)
Theorem ordering_assertions_fail_on_NaN ext (a b : float64) (t : T) :
  math_IsNaN a = true \/ math_IsNaN b = true ->
  reports ext (test.Less ext a b) t [] ";; expected %v < %v" [box a; box b] /\
  reports ext (test.LessEq ext a b) t [] ";; expected %v <= %v" [box a; box b] /\
  reports ext (test.Greater ext a b) t [] ";; expected %v > %v" [box a; box b] /\
  reports ext (test.GreaterEq ext a b) t [] ";; expected %v >= %v"
    [box a; box b].
Proof.
  intros N.
  destruct (SFltb_nan a b N) as (L1 & L2).
  destruct (SFltb_nan b a (proj1 (or_comm _ _) N)) as (L3 & L4).
  repeat split.
  - unfold test.Less. simpl. rewrite L1. passing.
  - unfold test.LessEq. simpl. rewrite L2. passing.
  - unfold test.Greater. simpl. rewrite L3. passing.
  - unfold test.GreaterEq. simpl. rewrite L4. passing.
Qed.

Lemma ordering_assertions_fail_on_NaN_witness :
  reports Reference.ext (test.GreaterEq Reference.ext S754_nan (S754_zero false))
    [] [] ";; expected %v >= %v" [VFloat S754_nan; VFloat (S754_zero false)].
Proof.
  apply (proj2 (proj2 (proj2
    (ordering_assertions_fail_on_NaN Reference.ext S754_nan (S754_zero false)
       [] (or_introl eq_refl))))).
Defined.

Lemma SFleb_swap_SFltb x y :
  math_IsNaN x = false -> math_IsNaN y = false ->
  SFleb y x = negb (SFltb x y).
Proof.
  intros Hx Hy. pose proof (SFltb_false_iff_SFleb x y Hx Hy) as E.
  destruct (SFltb x y), (SFleb y x); simpl; try reflexivity.
  - destruct E as [_ E]. discriminate (E eq_refl).
  - destruct E as [E _]. discriminate (E eq_refl).
Qed.

(** X16.  Without a NaN the ordering assertions are complementary and
    mirror each other: on integers, and on floats neither of which is a
    NaN (infinities and the two zeros included), exactly one of [Less]
    and [GreaterEq] passes, exactly one of [LessEq] and [Greater]
    passes, and [Less] on [a], [b] passes exactly when [Greater] on
    [b], [a] does. *)
Theorem ordering_assertions_complementary ext (t : T) :
  (forall (k : int_kind) (a b : Z),
     (passes (@test.Less ext Z (Any_int k) _ a b) t
      <-> ~ passes (@test.GreaterEq ext Z (Any_int k) _ a b) t) /\
     (passes (@test.LessEq ext Z (Any_int k) _ a b) t
      <-> ~ passes (@test.Greater ext Z (Any_int k) _ a b) t) /\
     (passes (@test.Less ext Z (Any_int k) _ a b) t
      <-> passes (@test.Greater ext Z (Any_int k) _ b a) t)) /\
  (forall a b : float64,
     math_IsNaN a = false -> math_IsNaN b = false ->
     (passes (test.Less ext a b) t <-> ~ passes (test.GreaterEq ext a b) t) /\
     (passes (test.LessEq ext a b) t <-> ~ passes (test.Greater ext a b) t) /\
     (passes (test.Less ext a b) t <-> passes (test.Greater ext b a) t)).
Proof.
  split.
  - intros k a b.
    rewrite !(@Less_passes_iff ext Z (Any_int k)),
            !(@LessEq_passes_iff ext Z (Any_int k)),
            !(@Greater_passes_iff ext Z (Any_int k)),
            !(@GreaterEq_passes_iff ext Z (Any_int k)).
    simpl. rewrite Z.geb_leb, !Z.gtb_ltb.
    destruct (Z.ltb_spec a b), (Z.leb_spec b a), (Z.leb_spec a b),
             (Z.ltb_spec b a); try lia;
      repeat split; intros; try reflexivity; try discriminate;
      try congruence.
  - intros a b Na Nb.
    rewrite !Less_passes_iff, !LessEq_passes_iff, !Greater_passes_iff,
            !GreaterEq_passes_iff.
    simpl. rewrite (SFleb_swap_SFltb a b Na Nb), (SFleb_swap_SFltb b a Nb Na).
    destruct (SFltb a b), (SFltb b a); simpl;
      repeat split; intros; try reflexivity; try discriminate;
      try congruence.
Qed.

(** *** Assertions and their negations *)

(** X17.  Each assertion and its negated sibling split the inputs: on
    any input exactly one of [Nil] and [NotNil], of [True] and
    [False], and of [Error] and [NoError] passes.  For [EqCmp] and
    [NotEq], for [EqFunc] and [NotEqFunc], and for [Equals] and
    [NotEquals], the same holds whenever the comparison ([==], [eq],
    [Equals]) returns; when it panics, both assertions panic after
    their call of [Helper]. *)
Theorem negated_assertions_complementary ext {C} `{Any C} `{Comparable C}
    `{EqualsFunc C} (v : any) (condition : bool) (err : error) (a b : C)
    (eq : C -> C -> outcome bool) (t : T) :
  (passes (test.Nil ext v) t <-> ~ passes (test.NotNil ext v) t) /\
  (passes (test.True_ ext condition) t
   <-> ~ passes (test.False_ ext condition) t) /\
  (passes (test.Error ext err) t <-> ~ passes (test.NoError ext err) t) /\
  match go_eq a b with
  | Returned _ =>
      passes (test.EqCmp ext a b) t <-> ~ passes (test.NotEq ext a b) t
  | Panicked p =>
      test.EqCmp ext a b t = (Panicked p, t ++ [Helper]) /\
      test.NotEq ext a b t = (Panicked p, t ++ [Helper])
  end /\
  match eq a b with
  | Returned _ =>
      passes (test.EqFunc ext a b eq) t
      <-> ~ passes (test.NotEqFunc ext a b eq) t
  | Panicked p =>
      test.EqFunc ext a b eq t = (Panicked p, t ++ [Helper]) /\
      test.NotEqFunc ext a b eq t = (Panicked p, t ++ [Helper])
  end /\
  match method_Equals a b with
  | Returned _ =>
      passes (test.Equals ext a b) t <-> ~ passes (test.NotEquals ext a b) t
  | Panicked p =>
      test.Equals ext a b t = (Panicked p, t ++ [Helper]) /\
      test.NotEquals ext a b t = (Panicked p, t ++ [Helper])
  end.
Proof.
  repeat match goal with |- _ /\ _ => split end.
  - unfold test.Nil, test.NotNil. destruct (is_nil v); simpl.
    + split; [intros _; failing | intros _; passing].
    + split; [intros P; exfalso; revert P; failing
             | intros P; exfalso; apply P; passing].
  - unfold test.True_, test.False_. destruct condition; simpl.
    + split; [intros _; failing | intros _; passing].
    + split; [intros P; exfalso; revert P; failing
             | intros P; exfalso; apply P; passing].
  - unfold test.Error, test.NoError. destruct err as [e|]; simpl.
    + split; [intros _; failing | intros _; passing].
    + split; [intros P; exfalso; revert P; failing
             | intros P; exfalso; apply P; passing].
  - unfold test.EqCmp, test.NotEq.
    destruct (go_eq a b) as [[|]|p] eqn:E.
    + split; [intros _; failing | intros _; passing].
    + split; [intros P; exfalso; revert P; failing
             | intros P; exfalso; apply P; passing].
    + split; run_go; reflexivity.
  - unfold test.EqFunc, test.NotEqFunc.
    destruct (eq a b) as [[|]|p] eqn:E.
    + split; [intros _; failing
             | intros _; passing].
    + split; [intros P; exfalso; revert P; failing
             | intros P; exfalso; apply P; passing].
    + split; run_go; reflexivity.
  - unfold test.Equals, test.NotEquals.
    destruct (method_Equals a b) as [[|]|p] eqn:E.
    + split; [intros _; failing
             | intros _; passing].
    + split; [intros P; exfalso; revert P; failing
             | intros P; exfalso; apply P; passing].
    + split; run_go; reflexivity.
Qed.

(** *** Lengths *)

(** X18.  [EmptySlice] and [MapEmpty] pass exactly on the empty slice
    and map, [LenSlice] and [MapLen] exactly when the length is [n];
    so [EmptySlice] passes where [LenSlice] with 0 does, [MapEmpty]
    where [MapLen] with 0 does, and no slice or map passes for a
    negative [n]. *)
Theorem length_assertions ext {A K V} (slice : list A) (m : list (K * V))
    (n : Z) (t : T) :
  (passes (test.EmptySlice ext slice) t <-> slice = []) /\
  (passes (test.LenSlice ext n slice) t
   <-> Z.of_nat (List.length slice) = n) /\
  (passes (test.EmptySlice ext slice) t
   <-> passes (test.LenSlice ext 0 slice) t) /\
  (passes (test.MapEmpty ext m) t <-> m = []) /\
  (passes (test.MapLen ext n m) t <-> Z.of_nat (List.length m) = n) /\
  (passes (test.MapEmpty ext m) t <-> passes (test.MapLen ext 0 m) t) /\
  (n < 0 -> ~ passes (test.LenSlice ext n slice) t /\
            ~ passes (test.MapLen ext n m) t).
Proof.
  assert (ES : passes (test.EmptySlice ext slice) t <-> slice = []).
  { unfold test.EmptySlice. destruct slice as [|x slice]; simpl.
    - split; [reflexivity | intros _; passing].
    - split; [intros P; exfalso; revert P; failing | discriminate]. }
  assert (LS : forall n', passes (test.LenSlice ext n' slice) t
                          <-> Z.of_nat (List.length slice) = n').
  { intros n'. unfold test.LenSlice. cbv zeta.
    destruct (Z.eqb_spec (Z.of_nat (List.length slice)) n') as [E|E]; simpl.
    - split; [intros _; exact E | intros _; passing].
    - split; [intros P; exfalso; revert P; failing | contradiction]. }
  assert (ME : passes (test.MapEmpty ext m) t <-> m = []).
  { unfold test.MapEmpty. cbv zeta. destruct m as [|x m].
    - split; [reflexivity | intros _; passing].
    - assert (L : (0 <? Z.of_nat (List.length (x :: m))) = true)
        by (apply Z.ltb_lt; simpl List.length; lia).
      rewrite L. split; [intros P; exfalso; revert P; failing | discriminate]. }
  assert (ML : forall n', passes (test.MapLen ext n' m) t
                          <-> Z.of_nat (List.length m) = n').
  { intros n'. unfold test.MapLen. cbv zeta.
    destruct (Z.eqb_spec (Z.of_nat (List.length m)) n') as [E|E]; simpl.
    - split; [intros _; exact E | intros _; passing].
    - split; [intros P; exfalso; revert P; failing | contradiction]. }
  repeat match goal with |- _ /\ _ => split end;
    try exact ES; try exact (LS n); try exact ME; try exact (ML n).
  - rewrite ES, (LS 0). destruct slice; simpl; split;
      try reflexivity; try discriminate; lia.
  - rewrite ME, (ML 0). destruct m; simpl; split;
      try reflexivity; try discriminate; lia.
  - intros Hn. rewrite (LS n), (ML n). lia.
Qed.

(** *** Every assertion settles its predicate *)

Lemma passes_quietly_intro (m : M unit) t : passes m t -> passes_quietly m t.
Proof. intros P. exists 0%nat. exact P. Qed.

Lemma fails_after_logging_intro ext (m : M unit) t logs msg args :
  reports ext m t logs msg args -> failed logs = false ->
  fails_after_logging ext m t.
Proof.
  intros R F. exists logs, msg, args, []. split; [|exact F].
  unfold reports in R. rewrite R. reflexivity.
Qed.

Tactic Notation "reporting" uconstr(logs) :=
  eapply (fails_after_logging_intro _ _ _ logs);
  [ run_go; rewrite ?diff_returns; run_go; reflexivity | reflexivity ].

Ltac fails_logging :=
  first [ reporting (@nil event) | reporting [_] | reporting [_; _]
        | reporting [_; _; _] ].

Ltac passes_now := apply passes_quietly_intro; run_go; reflexivity.

Ltac settle := first [ passes_now | fails_logging | run_go; reflexivity ].

Lemma InDelta_settles ext {N} `{Any N} `{Number N} (a b delta : N) t :
  settles ext (test.InDelta ext a b delta) t
    (Returned (InDelta_holds a b delta)).
Proof.
  unfold InDelta_holds, test.InDelta. cbv zeta.
  destruct (test.Numeric delta); simpl; [|fails_logging].
  destruct (go_le delta go_zero); simpl; [fails_logging|].
  destruct (test.Numeric a); simpl; [|fails_logging].
  destruct (test.Numeric b); simpl; [|fails_logging].
  destruct (go_lt (go_sub a b) (go_neg delta) || go_gt (go_sub a b) delta);
    simpl; [fails_logging | passes_now].
Qed.

Lemma InDelta_events ext {N} `{Any N} `{Number N} (a b delta : N) :
  if InDelta_holds a b delta
  then snd (test.InDelta ext a b delta []) = [Helper]
  else exists msg args,
         snd (test.InDelta ext a b delta [])
         = [Helper; Logf (rendered ext msg args) []; Fail].
Proof.
  unfold InDelta_holds, test.InDelta. cbv zeta.
  destruct (test.Numeric delta); simpl; [|do 2 eexists; reflexivity].
  destruct (go_le delta go_zero); simpl; [do 2 eexists; reflexivity|].
  destruct (test.Numeric a); simpl; [|do 2 eexists; reflexivity].
  destruct (test.Numeric b); simpl; [|do 2 eexists; reflexivity].
  destruct (go_lt (go_sub a b) (go_neg delta) || go_gt (go_sub a b) delta);
    simpl; [do 2 eexists; reflexivity | reflexivity].
Qed.

Lemma pairs_events ext {N} `{Any N} `{Number N} (delta : N) (l : list (N * N)) :
  if forallb (fun xy => InDelta_holds (fst xy) (snd xy) delta) l
  then flat_map (fun xy => snd (test.InDelta ext (fst xy) (snd xy) delta [])) l
       = repeat Helper (List.length l)
  else exists pre msg args post,
         flat_map (fun xy => snd (test.InDelta ext (fst xy) (snd xy) delta [])) l
         = pre ++ Logf (rendered ext msg args) [] :: Fail :: post /\
         failed pre = false.
Proof.
  induction l as [|[x y] l IH]; simpl; [reflexivity|].
  pose proof (InDelta_events ext x y delta) as E.
  destruct (InDelta_holds x y delta); simpl.
  - rewrite E.
    destruct (forallb (fun xy => InDelta_holds (fst xy) (snd xy) delta) l).
    + simpl. now rewrite IH.
    + destruct IH as (pre & msg & args & post & -> & F).
      exists (Helper :: pre), msg, args, post. split; [reflexivity | exact F].
  - destruct E as (msg & args & ->).
    exists [Helper], msg, args,
      (flat_map (fun xy => snd (test.InDelta ext (fst xy) (snd xy) delta [])) l).
    split; reflexivity.
Qed.

Lemma InDeltaSlice_settles ext {N} `{Any N} `{Number N} (a b : list N)
    (delta : N) t :
  settles ext (test.InDeltaSlice ext a b delta) t
    (Returned (Nat.eqb (List.length a) (List.length b) &&
               forallb (fun xy => InDelta_holds (fst xy) (snd xy) delta)
                 (combine a b))).
Proof.
  destruct (Nat.eqb (List.length a) (List.length b)) eqn:Elen; simpl.
  - apply Nat.eqb_eq in Elen.
    assert (R : test.InDeltaSlice ext a b delta t
                = (Returned tt,
                   t ++ Helper ::
                     flat_map (fun xy => snd (test.InDelta ext (fst xy) (snd xy)
                                                delta []))
                       (combine a b))).
    { unfold test.InDeltaSlice. run_go. rewrite Elen, Nat.eqb_refl. simpl.
      rewrite <- Elen.
      rewrite (InDeltaSlice_loop_each ext a b delta (List.length a) Elen 0
                 (t ++ [Helper]) eq_refl).
      simpl. now rewrite <- app_assoc. }
    pose proof (pairs_events ext delta (combine a b)) as P.
    destruct (forallb (fun xy => InDelta_holds (fst xy) (snd xy) delta)
                (combine a b)); simpl.
    + exists (List.length (combine a b)). now rewrite R, P.
    + destruct P as (pre & msg & args & post & E & F).
      exists pre, msg, args, post. split; [now rewrite R, E | exact F].
  - apply Nat.eqb_neq in Elen.
    exact (fails_after_logging_intro ext _ t _ _ _
             (InDeltaSlice_length_mismatch ext a b delta t Elen) eq_refl).
Qed.

Lemma EqSliceFunc_settles ext {A} `{Any A} (a b : list A) eq t :
  settles ext (test.EqSliceFunc ext a b eq) t (all_equal eq a b).
Proof.
  unfold all_equal.
  destruct (Nat.eqb (List.length a) (List.length b)) eqn:Elen.
  - apply Nat.eqb_eq in Elen.
    pose proof (EqSliceFunc_loop_first_unequal a b eq (List.length a) Elen 0
                  eq_refl) as L.
    simpl in L. unfold test.EqSliceFunc. cbv zeta.
    rewrite <- Elen, Nat.eqb_refl. simpl negb. cbv iota.
    destruct (first_unequal eq a b) as [[[x y]|]|p]; simpl in L |- *.
    + eapply (fails_after_logging_intro _ _ _ [_]);
        [run_go; rewrite L; run_go; rewrite diff_returns; run_go; reflexivity
        | reflexivity].
    + apply passes_quietly_intro. run_go. rewrite L. reflexivity.
    + run_go. rewrite L. reflexivity.
  - apply Nat.eqb_neq in Elen.
    exact (fails_after_logging_intro ext _ t _ _ _
             (EqSliceFunc_length_mismatch ext a b eq t Elen) eq_refl).
Qed.

Lemma EqualsSlice_settles ext {E} `{Any E} `{EqualsFunc E} (a b : list E) t :
  settles ext (test.EqualsSlice ext a b) t (all_equal method_Equals a b).
Proof.
  unfold all_equal.
  destruct (Nat.eqb (List.length a) (List.length b)) eqn:Elen.
  - apply Nat.eqb_eq in Elen.
    pose proof (EqualsSlice_loop_first_unequal ext a b (List.length a)
                  (t ++ [Helper]) Elen 0 eq_refl) as L.
    simpl in L. unfold test.EqualsSlice. cbv zeta.
    rewrite <- Elen, Nat.eqb_refl. simpl negb. cbv iota.
    destruct (first_unequal method_Equals a b) as [[[x y]|]|p]; simpl.
    + eapply (fails_after_logging_intro _ _ _ [_]);
        [run_go; rewrite L; run_go; reflexivity | reflexivity].
    + apply passes_quietly_intro. run_go. rewrite L. reflexivity.
    + run_go. rewrite L. reflexivity.
  - apply Nat.eqb_neq in Elen.
    exact (fails_after_logging_intro ext _ t _ _ _
             (EqualsSlice_length_mismatch ext a b t Elen) eq_refl).
Qed.

Lemma map_report_settles ext {K V} `{Any (list (K * V))} `{MapKey K}
    (m : M unit) (a b : list (K * V)) msg (cmpv : V -> V -> outcome bool) t :
  m t = map_report ext a b msg (first_bad_entry cmpv b a) (t ++ [Helper]) ->
  settles ext m t
    (omap (fun v => match v with EntryOk => true | _ => false end)
       (first_bad_entry cmpv b a)).
Proof.
  intros E. destruct (first_bad_entry cmpv b a) as [[| |]|p]; simpl in *.
  - exists 0%nat. exact E.
  - exists [Logf (diff_text ext a b) []], ";; expected maps of same keys"%string,
      [], []. split; [|reflexivity]. rewrite E, <- app_assoc. reflexivity.
  - exists [Logf (diff_text ext a b) []], msg, [], [].
    split; [|reflexivity]. rewrite E, <- app_assoc. reflexivity.
  - exact E.
Qed.

Lemma MapEq_settles ext {K V} `{Any (list (K * V))} `{Any V} `{MapKey K}
    (a b : list (K * V)) t :
  settles ext (test.MapEq ext a b) t (entries_match (MapEq_values ext) a b).
Proof.
  unfold entries_match.
  destruct (Nat.eqb (List.length a) (List.length b)) eqn:Elen.
  - apply Nat.eqb_eq in Elen.
    exact (map_report_settles ext _ a b _ _ t (MapEq_same_length ext a b t Elen)).
  - apply Nat.eqb_neq in Elen.
    exact (fails_after_logging_intro ext _ t _ _ _
             (MapEq_length_mismatch ext a b t Elen) eq_refl).
Qed.

Lemma MapEqFunc_settles ext {K V} `{Any (list (K * V))} `{MapKey K}
    (a b : list (K * V)) eq t :
  settles ext (test.MapEqFunc ext a b eq) t (entries_match eq a b).
Proof.
  unfold entries_match.
  destruct (Nat.eqb (List.length a) (List.length b)) eqn:Elen.
  - apply Nat.eqb_eq in Elen.
    exact (map_report_settles ext _ a b _ _ t
             (MapEqFunc_same_length ext a b eq t Elen)).
  - apply Nat.eqb_neq in Elen.
    exact (fails_after_logging_intro ext _ t _ _ _
             (MapEqFunc_length_mismatch ext a b eq t Elen) eq_refl).
Qed.

Lemma MapEquals_settles ext {K V} `{Any (list (K * V))} `{MapKey K}
    `{EqualsFunc V} (a b : list (K * V)) t :
  settles ext (test.MapEquals ext a b) t (entries_match MapEquals_values a b).
Proof.
  unfold entries_match.
  destruct (Nat.eqb (List.length a) (List.length b)) eqn:Elen.
  - apply Nat.eqb_eq in Elen.
    exact (map_report_settles ext _ a b _ _ t
             (MapEquals_same_length ext a b t Elen)).
  - apply Nat.eqb_neq in Elen.
    exact (fails_after_logging_intro ext _ t _ _ _
             (MapEquals_length_mismatch ext a b t Elen) eq_refl).
Qed.

Lemma scan_settles ext {A} `{Any A} (m : M unit) (scan : outcome bool)
    (item : A) msg t :
  m = (t_Helper ;;
       found <- lift scan ;;
       if negb found then
         (t_Logf ("slice is missing %#v" +++ nl) [box item] ;;
          test.fail ext msg [])
       else ret tt) ->
  settles ext m t scan.
Proof.
  intros ->. destruct scan as [[|]|p]; simpl.
  - passes_now.
  - reporting [Logf ("slice is missing %#v" +++ nl)%string [box item]].
  - run_go. reflexivity.
Qed.

(** What every assertion does with its predicate. *)
Lemma run_settles ext (c : test.call) (t : T) :
  settles ext (test.run ext c) t (asserted ext c).
Proof.
  destruct c; simpl test.run; simpl asserted.
  - unfold test.Nil. destruct (is_nil a); simpl; settle.
  - unfold test.NotNil. destruct (is_nil a); simpl; settle.
  - unfold test.True_. destruct condition; simpl; settle.
  - unfold test.False_. destruct condition; simpl; settle.
  - unfold test.Error. destruct err; simpl; settle.
  - unfold test.EqError. destruct err as [[msg' cause]|]; simpl.
    + destruct (String.eqb msg' msg) eqn:E; simpl.
      * apply passes_quietly_intro. run_go. rewrite E. reflexivity.
      * eapply (fails_after_logging_intro _ _ _ [_; _]);
          [run_go; rewrite E; run_go; reflexivity | reflexivity].
    + run_go. reflexivity.
  - unfold test.ErrorIs. destruct (errors_Is ext err target); simpl; settle.
  - unfold test.NoError. destruct err; simpl; settle.
  - unfold test.Eq. rewrite equal_returns.
    destruct (equal_result ext a b); simpl; settle.
  - unfold test.EqCmp. destruct (go_eq a b) as [[|]|p]; simpl; settle.
  - unfold test.EqFunc. destruct (eq a b) as [[|]|p]; simpl; settle.
  - unfold test.NotEq. destruct (go_eq a b) as [[|]|p]; simpl; settle.
  - unfold test.NotEqFunc. destruct (eq a b) as [[|]|p]; simpl; settle.
  - unfold test.EqJSON.
    destruct (json_Unmarshal ext a) as [expA|errA]; simpl; [|settle].
    destruct (json_Unmarshal ext b) as [expB|errB]; simpl; [|settle].
    destruct (reflect_DeepEqual ext expA expB); simpl; settle.
  - apply EqSliceFunc_settles.
  - unfold test.Equals. destruct (method_Equals a b) as [[|]|p]; simpl; settle.
  - unfold test.NotEquals.
    destruct (method_Equals a b) as [[|]|p]; simpl; settle.
  - apply EqualsSlice_settles.
  - unfold test.Lesser. destruct (method_Less a b) as [[|]|p]; simpl; settle.
  - unfold test.EmptySlice.
    destruct (Nat.eqb (List.length slice) 0); simpl; settle.
  - unfold test.LenSlice. cbv zeta.
    destruct (Z.of_nat (List.length slice) =? n); simpl; settle.
  - apply (scan_settles ext _ _ item
             ";; expected slice to contain missing item via cmp.Equal function").
    unfold test.Contains. now rewrite containsFunc_scan.
  - apply (scan_settles ext _ _ item
             ";; expected slice to contain missing item via == operator").
    unfold test.ContainsCmp. now rewrite contains_scan.
  - apply (scan_settles ext _ _ item
             ";; expected slice to contain missing item via 'eq' function").
    unfold test.ContainsFunc. now rewrite containsFunc_scan.
  - apply (scan_settles ext _ _ item
             ";; expected slice to contain missing item via .Equals method").
    unfold test.ContainsEquals. now rewrite containsFunc_scan.
  - unfold test.Less. destruct (go_lt a b); simpl; settle.
  - unfold test.LessEq. destruct (go_le a b); simpl; settle.
  - unfold test.Greater. destruct (go_gt a b); simpl; settle.
  - unfold test.GreaterEq. destruct (go_ge a b); simpl; settle.
  - apply InDelta_settles.
  - apply InDeltaSlice_settles.
  - apply MapEq_settles.
  - apply MapEqFunc_settles.
  - apply MapEquals_settles.
  - unfold test.MapLen. cbv zeta.
    destruct (Z.of_nat (List.length m) =? n); simpl; settle.
  - unfold test.MapEmpty. cbv zeta.
    destruct (0 <? Z.of_nat (List.length m)); simpl; settle.
Qed.

(** C9.  For every call of an assertion, on every handle [t]: when its
    predicate is false, the assertion returns and, before it first
    calls [Fail], it has logged the line that [fail] makes of some
    message, as the call just before; when its predicate is true, it
    returns having called nothing but [Helper], so that nothing is
    logged and the test is not marked failed; when its predicate
    panics, nothing was logged either.  In every returning call the
    calls are well ordered (every [Fail] directly follows a logged
    line), and a call that did not mark the test failed logged
    nothing.  And [fail] itself formats the message, trims it, appends
    a line feed, logs it and then calls [Fail]. *)
Theorem assertion_logs_before_failing ext (c : test.call) (t : T) :
  match asserted ext c with
  | Returned true =>
      exists n,
        test.run ext c t = (Returned tt, t ++ Helper :: repeat Helper n)
  | Returned false =>
      exists pre msg args post,
        test.run ext c t
        = (Returned tt,
           t ++ Helper :: pre ++
             Logf (rendered ext msg args) [] :: Fail :: post) /\
        failed pre = false
  | Panicked p => test.run ext c t = (Panicked p, t ++ [Helper])
  end /\
  (forall t',
      test.run ext c t = (Returned tt, t') ->
      exists evs,
        t' = t ++ evs /\
        well_reported evs = true /\
        (forall pre post, evs = pre ++ Fail :: post ->
           exists pre' format args, pre = pre' ++ [Logf format args]) /\
        (failed evs = false -> logged evs = false)) /\
  (forall msg args t0,
      test.fail ext msg args t0
      = (Returned tt,
         t0 ++ [Logf (strings_TrimSpace ext (fmt_Sprintf ext msg args) +++ nl)%string [];
                Fail])).
Proof.
  split; [|split].
  - exact (run_settles ext c t).
  - intros t' Hrun.
    pose proof (moves_run ext c t) as H. rewrite Hrun in H.
    destruct H as (evs & -> & Hsteps). exists evs.
    split; [reflexivity|]. split; [|split].
    + unfold well_reported. now rewrite Hsteps.
    + intros pre post E. exact (Fail_follows_Logf _ _ _ _ Hsteps E).
    + intros F. exact (proj2 (silent_without_Fail _ _ Hsteps F)).
  - intros msg args t0. apply fail_calls.
Qed.

Lemma assertion_logs_before_failing_witness :
  (exists pre msg args post,
      test.run Reference.ext (test.CallTrue false) []
      = (Returned tt,
         [] ++ Helper :: pre ++
           Logf (rendered Reference.ext msg args) [] :: Fail :: post) /\
      failed pre = false) /\
  (exists n,
      test.run Reference.ext (test.CallTrue true) []
      = (Returned tt, [] ++ Helper :: repeat Helper n)).
Proof.
  split.
  - exact (proj1 (assertion_logs_before_failing Reference.ext
                    (test.CallTrue false) [])).
  - exact (proj1 (assertion_logs_before_failing Reference.ext
                    (test.CallTrue true) [])).
Defined.

(** *** Where panics come from *)









